(** * Verification of [supervisor/validate.py]

    A shallow embedding of the validators and configuration schemas of
    [supervisor/validate.py], together with the parts of [voluptuous], [re],
    [ipaddress], [urllib.parse] and [uuid] that the module calls.

    Conventions.
    - A Python [str] is a Rocq [string]; a character is a code point below 256
      (the Latin-1 range of Unicode).  Character classes ([\w], [str.lower],
      white space) follow Python's Unicode tables on that range.
    - Python [int] is [Z]; a [float] is a [spec_float] (binary64).
    - A [dict] is an association list in insertion order whose keys are
      strings, as in a decoded JSON object.
    - The library functions are those of CPython 3.7 and voluptuous 0.11.7,
      the versions the supervisor of that time ran on. *)

From Stdlib Require Import String Ascii ZArith List Bool Lia Arith.
From Stdlib Require Import Floats.SpecFloat.
From Stdlib Require Strings.Byte.
Import ListNotations.

Local Open Scope string_scope.
Local Open Scope Z_scope.

Set Implicit Arguments.
Set Warnings "-register-all".

(** ** Characters and strings *)

Module Chars.

Definition code (c : ascii) : nat := nat_of_ascii c.

Definition between (lo hi : nat) (c : ascii) : bool :=
  (Nat.leb lo (code c) && Nat.leb (code c) hi)%bool.

Definition is_char (a c : ascii) : bool := Ascii.eqb a c.

(** [0-9] *)
Definition isdecimal (c : ascii) : bool := between 48 57 c.

(** [str.isalpha] for a code point below 256. *)
Definition isalpha (c : ascii) : bool :=
  (between 65 90 c || between 97 122 c
   || Nat.eqb (code c) 170 || Nat.eqb (code c) 181 || Nat.eqb (code c) 186
   || between 192 214 c || between 216 246 c || between 248 255 c)%bool.

(** Superscript digits and vulgar fractions: [isdigit] or [isnumeric]
    without being decimal. *)
Definition isnumeric_other (c : ascii) : bool :=
  (Nat.eqb (code c) 178 || Nat.eqb (code c) 179 || Nat.eqb (code c) 185
   || between 188 190 c)%bool.

(** [str.isalnum]. *)
Definition isalnum (c : ascii) : bool :=
  (isalpha c || isdecimal c || isnumeric_other c)%bool.

(** The class [\w] of a [str] pattern. *)
Definition word (c : ascii) : bool := (isalnum c || is_char "_" c)%bool.

(** [str.isspace]. *)
Definition isspace (c : ascii) : bool :=
  (between 9 13 c || between 28 32 c
   || Nat.eqb (code c) 133 || Nat.eqb (code c) 160)%bool.

(** C's [isspace] in the C locale, CPython's [Py_ISSPACE]: tab, newline,
    vertical tab, form feed, carriage return and the blank. *)
Definition c_isspace (c : ascii) : bool :=
  (between 9 13 c || Nat.eqb (code c) 32)%bool.

(** The white space that [int] skips around a number.  [int] first turns
    every white space above the ASCII range into a blank and leaves the
    ASCII characters as they are, then skips what [Py_ISSPACE] holds: unlike
    [str.strip], it does not skip the separators 28 to 31. *)
Definition int_space (c : ascii) : bool :=
  if Nat.ltb (code c) 127 then c_isspace c else isspace c.

(** [str.lower] on one character. *)
Definition to_lower (c : ascii) : ascii :=
  if (between 65 90 c || (between 192 222 c && negb (Nat.eqb (code c) 215)))%bool
  then ascii_of_nat (code c + 32) else c.

Definition newline : ascii := ascii_of_nat 10.

End Chars.

Module Str.

Fixpoint map (f : ascii -> ascii) (s : string) : string :=
  match s with
  | EmptyString => EmptyString
  | String c s' => String (f c) (map f s')
  end.

Fixpoint forallb (p : ascii -> bool) (s : string) : bool :=
  match s with
  | EmptyString => true
  | String c s' => (p c && forallb p s')%bool
  end.

Fixpoint existsb (p : ascii -> bool) (s : string) : bool :=
  match s with
  | EmptyString => false
  | String c s' => (p c || existsb p s')%bool
  end.

(** [c in s] *)
Definition contains (c : ascii) (s : string) : bool := existsb (Ascii.eqb c) s.

(** [s[n:]] *)
Fixpoint drop (n : nat) (s : string) : string :=
  match n, s with
  | O, _ => s
  | S n', String _ s' => drop n' s'
  | S _, EmptyString => EmptyString
  end.

(** [s[:n]] *)
Fixpoint take (n : nat) (s : string) : string :=
  match n, s with
  | O, _ => EmptyString
  | S n', String c s' => String c (take n' s')
  | S _, EmptyString => EmptyString
  end.

(** [s.lower()] *)
Definition lower (s : string) : string := map Chars.to_lower s.

(** [s.startswith(p)] *)
Definition startswith (p s : string) : bool := String.prefix p s.

(** [s.find(c)], [None] standing for [-1]. *)
Fixpoint find (c : ascii) (s : string) : option nat :=
  match s with
  | EmptyString => None
  | String a s' =>
      if Ascii.eqb a c then Some O
      else match find c s' with Some i => Some (S i) | None => None end
  end.

(** [s.split(c)] for a one-character separator: never the empty list. *)
Fixpoint split (c : ascii) (s : string) : list string :=
  match s with
  | EmptyString => [EmptyString]
  | String a s' =>
      if Ascii.eqb a c then EmptyString :: split c s'
      else match split c s' with
           | p :: ps => String a p :: ps
           | [] => [String a EmptyString]
           end
  end.

(** The longest prefix and suffix stripping of [s.strip()]. *)
Fixpoint lstrip (p : ascii -> bool) (s : string) : string :=
  match s with
  | String c s' => if p c then lstrip p s' else s
  | EmptyString => EmptyString
  end.

Fixpoint rstrip (p : ascii -> bool) (s : string) : string :=
  match s with
  | EmptyString => EmptyString
  | String c s' =>
      match rstrip p s' with
      | EmptyString => if p c then EmptyString else String c EmptyString
      | r => String c r
      end
  end.

Definition strip (p : ascii -> bool) (s : string) : string :=
  rstrip p (lstrip p s).

(** [s[-1]], when there is one. *)
Fixpoint last (s : string) : option ascii :=
  match s with
  | EmptyString => None
  | String c EmptyString => Some c
  | String _ s' => last s'
  end.

End Str.

(** ** Python values, exceptions and results *)

Inductive value : Type :=
| VNone
| VBool (b : bool)
| VInt (z : Z)
| VFloat (f : spec_float)
| VStr (s : string)
| VList (l : list value)
| VDict (d : list (string * value)).

(** The subclasses of [voluptuous.Invalid] the module can raise. *)
Inductive invalid_kind : Type :=
| InvalidBase          (* vol.Invalid itself *)
| CoerceInvalid
| RangeInvalid
| LengthInvalid
| MatchInvalid
| UrlInvalid
| InInvalid
| BooleanInvalid
| TypeInvalid
| ValueInvalid
| ScalarInvalid
| SequenceTypeInvalid
| DictInvalid
| RequiredFieldInvalid
| AnyInvalid.

(** A segment of an error path: a dictionary key or a list index. *)
Inductive path_seg : Type :=
| PKey (k : string)
| PIndex (i : nat).

(** One validation error.  [message] is the message text as the source
    writes it, before [format] or [%] interpolates a value into it. *)
Record invalid : Type := MkInvalid {
  kind : invalid_kind;
  message : string;
  path : list path_seg;
  error_type : option string
}.

Definition mk_invalid (k : invalid_kind) (msg : string) : invalid :=
  MkInvalid k msg [] None.

(** Exceptions that are not [Invalid]: no validator catches them. *)
Inductive exn : Type :=
| TypeError
| AttributeError
| OverflowError
| ValueError.

(** What a call of a validator does: return a value, raise [Invalid]
    (a [MultipleInvalid] is the list of its errors, a single [Invalid] a
    list of one), or raise another exception. *)
Inductive outcome (A : Type) : Type :=
| Ok (a : A)
| Invalid (errs : list invalid)
| Raise (e : exn).

Arguments Ok {A} a.
Arguments Invalid {A} errs.
Arguments Raise {A} e.

Definition raise_invalid {A} (k : invalid_kind) (msg : string) : outcome A :=
  Invalid [mk_invalid k msg].

Definition is_ok {A} (o : outcome A) : bool :=
  match o with Ok _ => true | _ => false end.

Definition bind {A B} (o : outcome A) (f : A -> outcome B) : outcome B :=
  match o with
  | Ok a => f a
  | Invalid errs => Invalid errs
  | Raise e => Raise e
  end.

(** [e.prepend(path)] on every error of a raised [Invalid]. *)
Definition prepend (seg : path_seg) (e : invalid) : invalid :=
  MkInvalid (kind e) (message e) (seg :: path e) (error_type e).

(** A validator: a callable taking the raw value. *)
Definition validator : Type := value -> outcome value.

(** ** Builtins: [int()], [str()], comparisons *)

Module Builtins.

Definition digit_value (c : ascii) : Z := Z.of_nat (Chars.code c) - 48.

(** The digits of a base-10 literal: a single underscore may separate two
    digits.  [after_digit] tells whether the previous character was a digit. *)
Fixpoint int_digits (s : string) (acc : Z) (after_digit : bool) : option Z :=
  match s with
  | EmptyString => if after_digit then Some acc else None
  | String c s' =>
      if Chars.isdecimal c then int_digits s' (10 * acc + digit_value c) true
      else if Chars.is_char "_" c then
        match after_digit, s' with
        | true, String d _ => if Chars.isdecimal d then int_digits s' acc false else None
        | _, _ => None
        end
      else None
  end.

(** [int(s)] for a string: the white space of [int] skipped on both sides,
    an optional sign, digits.  [None] is [ValueError]. *)
Definition int_of_string (s : string) : option Z :=
  match Str.strip Chars.int_space s with
  | String "-" ds => option_map Z.opp (int_digits ds 0 false)
  | String "+" ds => int_digits ds 0 false
  | ds => int_digits ds 0 false
  end.

(** [int(f)] for a float: truncation towards zero. *)
Definition int_of_float (f : spec_float) : outcome Z :=
  match f with
  | S754_zero _ => Ok 0
  | S754_nan => Raise ValueError
  | S754_infinity _ => Raise OverflowError
  | S754_finite neg m e =>
      let mag := if 0 <=? e then Z.pos m * 2 ^ e else Z.pos m / 2 ^ (- e) in
      Ok (if neg then - mag else mag)
  end.

(** [int(v)]: the result, or the exception [int] raises. *)
Definition int (v : value) : outcome Z :=
  match v with
  | VNone => Raise TypeError
  | VBool b => Ok (if b then 1 else 0)
  | VInt z => Ok z
  | VFloat f => int_of_float f
  | VStr s => match int_of_string s with Some z => Ok z | None => Raise ValueError end
  | VList _ => Raise TypeError
  | VDict _ => Raise TypeError
  end.

(** Decimal rendering of an integer, [str(z)]. *)
Fixpoint digits_of_pos (fuel : nat) (z : Z) (acc : string) : string :=
  match fuel with
  | O => acc
  | S fuel' =>
      let acc' := String (ascii_of_nat (48 + Z.to_nat (z mod 10))) acc in
      if z <? 10 then acc' else digits_of_pos fuel' (z / 10) acc'
  end.

Definition str_of_int (z : Z) : string :=
  let digits := digits_of_pos (S (Z.to_nat (Z.log2 (Z.abs z)))) (Z.abs z) "" in
  if z <? 0 then String "-" digits else digits.

(** A float against an integer, exactly; [None] for a NaN, which is
    unordered. *)
Definition float_compare_int (f : spec_float) (z : Z) : option comparison :=
  match f with
  | S754_nan => None
  | S754_infinity neg => Some (if neg then Lt else Gt)
  | S754_zero _ => Some (0 ?= z)
  | S754_finite neg m e =>
      let v := if neg then Z.neg m else Z.pos m in
      if 0 <=? e then Some (v * 2 ^ e ?= z) else Some (v ?= z * 2 ^ (- e))
  end.

(** A value against an integer bound; the outer [None] is the [TypeError]
    Python raises when the types have no ordering. *)
Definition compare_int (v : value) (z : Z) : option (option comparison) :=
  match v with
  | VInt x => Some (Some (x ?= z))
  | VBool b => Some (Some ((if b then 1 else 0) ?= z))
  | VFloat f => Some (float_compare_int f z)
  | _ => None
  end.

(** [v >= z] and [v <= z]. *)
Definition ge_int (v : value) (z : Z) : option bool :=
  option_map (fun c => match c with Some Lt | None => false | _ => true end)
             (compare_int v z).

Definition le_int (v : value) (z : Z) : option bool :=
  option_map (fun c => match c with Some Gt | None => false | _ => true end)
             (compare_int v z).

End Builtins.

(** ** Regular expressions: the fragment of [re] the module's patterns use *)

Module Re.

Definition class : Type := ascii -> bool.

(** Pattern syntax.  Repetition applies to a character class, which is
    the only way the patterns of the module repeat. *)
Inductive regex : Type :=
| Bol                                          (* ^ *)
| Eol                                          (* $ *)
| Chr (c : class)                              (* one character of a class *)
| Repeat (c : class) (lo : nat) (hi : option nat)  (* c{lo,hi}, greedy *)
| Cat (r1 r2 : regex)                          (* r1 r2 *)
| Alt (r1 r2 : regex)                          (* r1|r2 *)
| Opt (r : regex)                              (* (?:r)?, greedy *)
| Group (name : string) (r : regex).           (* (?P<name>r) *)

(** Named groups: name, start and end offset in the subject. *)
Definition groups : Type := list (string * (nat * nat)).

(** A match object: where the match ends and what the groups captured. *)
Record match_object : Type := MkMatch {
  subject : string;
  match_end : nat;
  spans : groups
}.

(** Continuation of the backtracking matcher: the offset reached, the rest
    of the subject and the groups so far. *)
Definition cont : Type := nat -> string -> groups -> option (nat * groups).

(** [$] matches at the end of the subject and just before a newline that
    ends it. *)
Definition at_eol (rest : string) : bool :=
  match rest with
  | EmptyString => true
  | String c EmptyString => Ascii.eqb c Chars.newline
  | _ => false
  end.

Definition below (hi : option nat) : bool :=
  match hi with Some O => false | _ => true end.

Definition dec (hi : option nat) : option nat := option_map Nat.pred hi.

(** Greedy repetition of a class: take a character when allowed, and fall
    back to stopping here when the rest fails. *)
Fixpoint rep (c : class) (lo : nat) (hi : option nat)
         (i : nat) (s : string) (g : groups) (k : cont) : option (nat * groups) :=
  let stop := match lo with O => k i s g | S _ => None end in
  match s with
  | String a s' =>
      if (c a && below hi)%bool then
        match rep c (Nat.pred lo) (dec hi) (S i) s' g k with
        | Some m => Some m
        | None => stop
        end
      else stop
  | EmptyString => stop
  end.

(** The matcher, in the order [re] tries alternatives. *)
Fixpoint run (r : regex) (i : nat) (s : string) (g : groups) (k : cont)
  : option (nat * groups) :=
  match r with
  | Bol => if Nat.eqb i 0 then k i s g else None
  | Eol => if at_eol s then k i s g else None
  | Chr c =>
      match s with
      | String a s' => if c a then k (S i) s' g else None
      | EmptyString => None
      end
  | Repeat c lo hi => rep c lo hi i s g k
  | Cat r1 r2 => run r1 i s g (fun i' s' g' => run r2 i' s' g' k)
  | Alt r1 r2 =>
      match run r1 i s g k with
      | Some m => Some m
      | None => run r2 i s g k
      end
  | Opt r1 =>
      match run r1 i s g k with
      | Some m => Some m
      | None => k i s g
      end
  | Group name r1 =>
      run r1 i s g (fun i' s' g' => k i' s' ((name, (i, i')) :: g'))
  end.

(** [pattern.match(s)] *)
Definition match_ (r : regex) (s : string) : option match_object :=
  match run r 0 s [] (fun i _ g => Some (i, g)) with
  | Some (e, g) => Some (MkMatch s e g)
  | None => None
  end.

Fixpoint lookup (name : string) (g : groups) : option (nat * nat) :=
  match g with
  | [] => None
  | (n, span) :: g' => if String.eqb n name then Some span else lookup name g'
  end.

(** [m.group(name)]: [None] when the group took no part in the match. *)
Definition group (m : match_object) (name : string) : option string :=
  match lookup name (spans m) with
  | Some (b, e) => Some (Str.take (e - b) (Str.drop b (subject m)))
  | None => None
  end.

(** Shorthands for the pattern syntax. *)
Definition lit (a : ascii) : regex := Chr (Chars.is_char a).
Definition plus (c : class) : regex := Repeat c 1 None.
Definition exactly (c : class) (n : nat) : regex := Repeat c n (Some n).
Definition range (c : class) (lo hi : nat) : regex := Repeat c lo (Some hi).
Definition union (c1 c2 : class) : class := fun a => (c1 a || c2 a)%bool.
Definition none_of (c : class) : class := fun a => negb (c a).

End Re.

(** ** Formatting integers: ['%x' % z] and ['%032x' % z] *)

Module Format.

Definition hex_digit (d : Z) : ascii :=
  if d <? 10 then ascii_of_nat (48 + Z.to_nat d) else ascii_of_nat (87 + Z.to_nat d).

Fixpoint hex_digits (fuel : nat) (z : Z) (acc : string) : string :=
  match fuel with
  | O => acc
  | S fuel' =>
      let acc' := String (hex_digit (z mod 16)) acc in
      if z <? 16 then acc' else hex_digits fuel' (z / 16) acc'
  end.

(** ['%x' % z] *)
Definition format_x (z : Z) : string :=
  let digits := hex_digits (S (Z.to_nat (Z.log2 (Z.abs z)))) (Z.abs z) "" in
  if z <? 0 then String "-" digits else digits.

Fixpoint zeros (n : nat) : string :=
  match n with O => EmptyString | S n' => String "0" (zeros n') end.

(** ['%032x' % z] for [0 <= z]: zero padding on the left up to width 32. *)
Definition format_032x (z : Z) : string :=
  let digits := format_x z in
  zeros (32 - String.length digits) ++ digits.

End Format.

(** ** [ipaddress.ip_address] *)

Module Ipaddress.

Inductive ip_object : Type :=
| IPv4Address (ip : Z)
| IPv6Address (ip : Z).

(** [IPv4Address._parse_octet]; [None] is [ValueError]. *)
Definition parse_octet (octet_str : string) : option Z :=
  match octet_str with
  | EmptyString => None
  | String first _ =>
      if negb (Str.forallb Chars.isdecimal octet_str) then None
      else if Nat.ltb 3 (String.length octet_str) then None
      else
        match Builtins.int_digits octet_str 0 false with
        | None => None
        | Some octet_int =>
            if ((7 <? octet_int) && Chars.is_char "0" first)%bool then None
            else if 255 <? octet_int then None
            else Some octet_int
        end
  end.

(** [int.from_bytes(octets, 'big')], failing as soon as an octet does. *)
Fixpoint from_octets (octets : list string) (acc : Z) : option Z :=
  match octets with
  | [] => Some acc
  | o :: os =>
      match parse_octet o with
      | Some b => from_octets os (Z.lor (Z.shiftl acc 8) b)
      | None => None
      end
  end.

(** [IPv4Address._ip_int_from_string]; [None] is [AddressValueError]. *)
Definition ipv4_int_from_string (ip_str : string) : option Z :=
  match ip_str with
  | EmptyString => None
  | _ =>
      let octets := Str.split "." ip_str in
      if negb (Nat.eqb (List.length octets) 4) then None
      else from_octets octets 0
  end.

(** [IPv4Address(address)] for a string. *)
Definition ipv4_address (address : string) : option Z :=
  if Str.contains "/" address then None else ipv4_int_from_string address.

Definition ishex (c : ascii) : bool :=
  (Chars.isdecimal c || Chars.between 65 70 c || Chars.between 97 102 c)%bool.

Definition hex_value (c : ascii) : Z :=
  if Chars.isdecimal c then Z.of_nat (Chars.code c) - 48
  else if Chars.between 65 70 c then Z.of_nat (Chars.code c) - 55
  else Z.of_nat (Chars.code c) - 87.

Fixpoint int16 (s : string) (acc : Z) : Z :=
  match s with
  | EmptyString => acc
  | String c s' => int16 s' (16 * acc + hex_value c)
  end.

(** [IPv6Address._parse_hextet]; [None] is [ValueError], which [int('', 16)]
    raises for the empty string. *)
Definition parse_hextet (hextet_str : string) : option Z :=
  if negb (Str.forallb ishex hextet_str) then None
  else if Nat.ltb 4 (String.length hextet_str) then None
  else match hextet_str with
       | EmptyString => None
       | _ => Some (int16 hextet_str 0)
       end.

(** [ip_int <<= 16; ip_int |= parse_hextet(part)] over a run of parts. *)
Fixpoint shift_hextets (parts : list string) (ip_int : Z) : option Z :=
  match parts with
  | [] => Some ip_int
  | p :: ps =>
      match parse_hextet p with
      | Some h => shift_hextets ps (Z.lor (Z.shiftl ip_int 16) h)
      | None => None
      end
  end.

(** The loop looking for an empty part strictly inside [parts]: the
    index of the ['::'], [None] inside when there is none, [None] outside
    when there are two. *)
Fixpoint find_skip (inner : list string) (i : nat) (skip_index : option nat)
  : option (option nat) :=
  match inner with
  | [] => Some skip_index
  | p :: ps =>
      match p, skip_index with
      | EmptyString, Some _ => None
      | EmptyString, None => find_skip ps (S i) (Some i)
      | _, _ => find_skip ps (S i) skip_index
      end
  end.

Definition is_empty (s : string) : bool :=
  match s with EmptyString => true | _ => false end.

Definition HEXTET_COUNT : nat := 8.

(** [IPv6Address._ip_int_from_string]; [None] is [AddressValueError]. *)
Definition ipv6_int_from_string (ip_str : string) : option Z :=
  match ip_str with
  | EmptyString => None
  | _ =>
    let parts := Str.split ":" ip_str in
    if Nat.ltb (List.length parts) 3 then None else
    (* an IPv4-style suffix becomes two hextets *)
    let parts' :=
      if Str.contains "." (List.last parts "") then
        match ipv4_address (List.last parts "") with
        | Some ipv4_int =>
            Some (List.removelast parts
                  ++ [Format.format_x (Z.land (Z.shiftr ipv4_int 16) 65535);
                      Format.format_x (Z.land ipv4_int 65535)])%list
        | None => None
        end
      else Some parts in
    match parts' with
    | None => None
    | Some parts =>
      let n := List.length parts in
      if Nat.ltb (HEXTET_COUNT + 1) n then None else
      match find_skip (List.removelast (List.tl parts)) 1 None with
      | None => None
      | Some (Some skip_index) =>
          let first_empty := is_empty (List.hd "" parts) in
          let last_empty := is_empty (List.last parts "") in
          let parts_hi := if first_empty then (skip_index - 1)%nat else skip_index in
          let parts_lo := if last_empty then (n - skip_index - 2)%nat
                          else (n - skip_index - 1)%nat in
          if (first_empty && negb (Nat.eqb parts_hi 0))%bool then None
          else if (last_empty && negb (Nat.eqb parts_lo 0))%bool then None
          else if Nat.leb HEXTET_COUNT (parts_hi + parts_lo) then None
          else
            let parts_skipped := (HEXTET_COUNT - (parts_hi + parts_lo))%nat in
            match shift_hextets (List.firstn parts_hi parts) 0 with
            | None => None
            | Some hi =>
                shift_hextets (List.skipn (n - parts_lo) parts)
                              (Z.shiftl hi (16 * Z.of_nat parts_skipped))
            end
      | Some None =>
          if negb (Nat.eqb n HEXTET_COUNT) then None
          else if is_empty (List.hd "" parts) then None
          else if is_empty (List.last parts "") then None
          else shift_hextets parts 0
      end
    end
  end.

(** [IPv6Address(address)] for a string. *)
Definition ipv6_address (address : string) : option Z :=
  if Str.contains "/" address then None else ipv6_int_from_string address.

(** [ipaddress.ip_address(address)]; [None] is [ValueError]. *)
Definition ip_address (address : string) : option ip_object :=
  match ipv4_address address with
  | Some ip => Some (IPv4Address ip)
  | None =>
      match ipv6_address address with
      | Some ip => Some (IPv6Address ip)
      | None => None
      end
  end.

End Ipaddress.

(** ** [urllib.parse.urlsplit] *)

Module Urllib.

Record split_result : Type := SplitResult {
  scheme : string;
  netloc : string;
  url_path : string;
  query : string;
  fragment : string
}.

Definition ascii_letter (c : ascii) : bool :=
  (Chars.between 65 90 c || Chars.between 97 122 c)%bool.

(** [scheme_chars]: letters, digits and ["+-."]. *)
Definition scheme_char (c : ascii) : bool :=
  (ascii_letter c || Chars.isdecimal c
   || Chars.is_char "+" c || Chars.is_char "-" c || Chars.is_char "." c)%bool.

Definition netloc_delim (c : ascii) : bool :=
  (Chars.is_char "/" c || Chars.is_char "?" c || Chars.is_char "#" c)%bool.

(** The offset of the first character of [s] in a class, or its length. *)
Fixpoint span_until (p : ascii -> bool) (s : string) : nat :=
  match s with
  | EmptyString => O
  | String c s' => if p c then O else S (span_until p s')
  end.

(** [_splitnetloc(url, 2)] *)
Definition splitnetloc (url : string) : string * string :=
  let rest := Str.drop 2 url in
  let delim := span_until netloc_delim rest in
  (Str.take delim rest, Str.drop delim rest).

(** [url.split(c, 1)] when [c in url], else [(url, '')]. *)
Definition split_once (c : ascii) (url : string) : string * string :=
  match Str.find c url with
  | Some i => (Str.take i url, Str.drop (S i) url)
  | None => (url, EmptyString)
  end.

(** The part of [urlsplit] after the scheme has been taken off; [None] is
    [ValueError("Invalid IPv6 URL")].  [_checknetloc] never raises for a
    netloc of code points below 256. *)
Definition split_rest (the_scheme url : string) : option split_result :=
  let '(the_netloc, url) :=
    if Str.startswith "//" url then splitnetloc url else (EmptyString, url) in
  let open := Str.contains "[" the_netloc in
  let close := Str.contains "]" the_netloc in
  if ((open && negb close) || (close && negb open))%bool then None
  else
    let '(url, the_fragment) := split_once "#" url in
    let '(url, the_query) := split_once "?" url in
    Some (SplitResult the_scheme the_netloc url the_query the_fragment).

(** [urlsplit(url)] *)
Definition urlsplit (url : string) : option split_result :=
  match Str.find ":" url with
  | Some (S _ as i) =>
      let head := Str.take i url in
      let rest := Str.drop (S i) url in
      if String.eqb head "http" then split_rest (Str.lower head) rest
      else if Str.forallb scheme_char head then
        (* digits after the colon are a port number: there is no scheme *)
        match rest with
        | EmptyString => split_rest (Str.lower head) rest
        | _ =>
            if Str.forallb Chars.isdecimal rest
            then split_rest EmptyString url
            else split_rest (Str.lower head) rest
        end
      else split_rest EmptyString url
  | _ => split_rest EmptyString url
  end.

End Urllib.

(** ** The world outside: the operating system's random bytes *)

(** [urandom k] is the [k]-th byte the operating system will ever hand out;
    [consumed] counts the bytes already read. *)
Record world : Type := MkWorld {
  urandom : nat -> Byte.byte;
  consumed : nat
}.

(** A computation that may read the world. *)
Definition M (A : Type) : Type := world -> A * world.

Definition ret {A} (a : A) : M A := fun w => (a, w).

Definition mbind {A B} (m : M A) (f : A -> M B) : M B :=
  fun w => let '(a, w') := m w in f a w'.

Notation "x <- m ;; k" := (mbind m (fun x => k))
  (at level 61, m at next level, right associativity).

Module Os.

(** [os.urandom(n)] *)
Definition os_urandom (n : nat) : M (list Byte.byte) :=
  fun w => (List.map (fun k => urandom w (consumed w + k)%nat) (List.seq 0 n),
            MkWorld (urandom w) (consumed w + n)).

End Os.

Module Uuid.

(** [int.from_bytes(bytes, byteorder='big')] *)
Definition int_from_bytes (bytes : list Byte.byte) : Z :=
  List.fold_left (fun acc b => Z.lor (Z.shiftl acc 8) (Z.of_N (Byte.to_N b))) bytes 0.

(** [UUID(bytes=bytes, version=version).int]: the variant and version bits
    overwrite those of the bytes. *)
Definition UUID_int (bytes : list Byte.byte) (version : Z) : Z :=
  let int := int_from_bytes bytes in
  let int := Z.land int (Z.lnot (Z.shiftl 49152 48)) in
  let int := Z.lor int (Z.shiftl 32768 48) in
  let int := Z.land int (Z.lnot (Z.shiftl 61440 64)) in
  Z.lor int (Z.shiftl version 76).

(** [fits n x]: [x] is a number of [n] bits. *)
Definition fits (n x : Z) : Prop := Z.land x (Z.ones n) = x.

(** [UUID.hex] *)
Definition hex (int : Z) : string := Format.format_032x int.

(** [uuid.uuid4().hex] *)
Definition uuid4_hex : M string :=
  bytes <- Os.os_urandom 16 ;;
  ret (hex (UUID_int bytes 4)).

End Uuid.

(** ** [voluptuous]: validators *)

Module Vol.

(** A type used as a constructor: its name and what calling it does. *)
Record pytype : Type := MkType {
  type_name : string;
  construct : value -> outcome value
}.

Definition int_type : pytype :=
  MkType "int" (fun v => bind (Builtins.int v) (fun z => Ok (VInt z))).

(** [Coerce(type)]: [ValueError] and [TypeError] become [CoerceInvalid]. *)
Definition Coerce (type : pytype) : validator :=
  fun v =>
    match construct type v with
    | Raise ValueError | Raise TypeError => raise_invalid CoerceInvalid "expected %s"
    | o => o
    end.

(** [Range(min=..., max=...)], both bounds included. *)
Definition Range (min max : option Z) : validator :=
  fun v =>
    let check_max :=
      match max with
      | None => Ok v
      | Some hi =>
          match Builtins.le_int v hi with
          | None => Raise TypeError
          | Some false => raise_invalid RangeInvalid "value must be at most %s"
          | Some true => Ok v
          end
      end in
    match min with
    | None => check_max
    | Some lo =>
        match Builtins.ge_int v lo with
        | None => Raise TypeError
        | Some false => raise_invalid RangeInvalid "value must be at least %s"
        | Some true => check_max
        end
    end.

(** [len(v)]; [None] is [TypeError]. *)
Definition len (v : value) : option nat :=
  match v with
  | VStr s => Some (String.length s)
  | VList l => Some (List.length l)
  | VDict d => Some (List.length d)
  | _ => None
  end.

(** [Length(max=max)] *)
Definition Length (max : nat) : validator :=
  fun v =>
    match len v with
    | None => Raise TypeError
    | Some n =>
        if Nat.ltb max n
        then raise_invalid LengthInvalid "length of value must be at most %s"
        else Ok v
    end.

(** [Match(pattern)] *)
Definition Match (pattern : Re.regex) : validator :=
  fun v =>
    match v with
    | VStr s =>
        match Re.match_ pattern s with
        | Some _ => Ok v
        | None => raise_invalid MatchInvalid "does not match regular expression"
        end
    | _ => raise_invalid MatchInvalid "expected string or buffer"
    end.

(** [In(container)] for a container of strings. *)
Definition In (container : list string) : validator :=
  fun v =>
    match v with
    | VStr s =>
        if List.existsb (String.eqb s) container then Ok v
        else raise_invalid InInvalid "value is not allowed"
    | _ => raise_invalid InInvalid "value is not allowed"
    end.

(** [bool(v)] *)
Definition truth (v : value) : bool :=
  match v with
  | VNone => false
  | VBool b => b
  | VInt z => negb (z =? 0)
  | VFloat (S754_zero _) => false
  | VFloat _ => true
  | VStr s => negb (String.eqb s "")
  | VList l => match l with [] => false | _ => true end
  | VDict d => match d with [] => false | _ => true end
  end.

(** [Boolean()] *)
Definition Boolean : validator :=
  fun v =>
    match v with
    | VStr s =>
        let s := Str.lower s in
        if List.existsb (String.eqb s) ["1"; "true"; "yes"; "on"; "enable"]
        then Ok (VBool true)
        else if List.existsb (String.eqb s) ["0"; "false"; "no"; "off"; "disable"]
        then Ok (VBool false)
        else raise_invalid BooleanInvalid "expected boolean"
    | _ => Ok (VBool (truth v))
    end.

(** [All] of several validators: each stage receives what the previous returned;
    the first failure is the result. *)
Fixpoint All (validators : list validator) : validator :=
  fun v =>
    match validators with
    | [] => Ok v
    | f :: fs => bind (f v) (All fs)
    end.

(** [Maybe(validator)], that is [Any(None, validator)]: of the two errors
    the one with the longer path is raised, the first on a tie. *)
Definition Maybe (f : validator) : validator :=
  fun v =>
    match v with
    | VNone => Ok VNone
    | _ =>
        match f v with
        | Invalid (e :: errs) =>
            match path e with
            | [] => raise_invalid ScalarInvalid "not a valid value"
            | _ => Invalid (e :: errs)
            end
        | o => o
        end
    end.

(** [Url()]: [urlparse] must give a scheme and a network location; any
    exception on the way is [UrlInvalid]. *)
Definition Url : validator :=
  fun v =>
    match v with
    | VStr s =>
        match Urllib.urlsplit s with
        | Some parsed =>
            if (String.eqb (Urllib.scheme parsed) "" || String.eqb (Urllib.netloc parsed) "")%bool
            then raise_invalid UrlInvalid "expected a URL"
            else Ok v
        | None => raise_invalid UrlInvalid "expected a URL"
        end
    | _ => raise_invalid UrlInvalid "expected a URL"
    end.

(** Equality of two hashable values, Python's [==]: numbers compare by
    value across [bool], [int] and [float]; a NaN equals nothing. *)
Definition py_eqb (a b : value) : bool :=
  let as_int v :=
    match v with
    | VBool b => Some (if b then 1 else 0)
    | VInt z => Some z
    | _ => None
    end in
  match a, b with
  | VNone, VNone => true
  | VStr s, VStr t => String.eqb s t
  | VFloat f, VFloat g => SFeqb f g
  | VFloat f, _ =>
      match as_int b with
      | Some z => match Builtins.float_compare_int f z with Some Eq => true | _ => false end
      | None => false
      end
  | _, VFloat g =>
      match as_int a with
      | Some z => match Builtins.float_compare_int g z with Some Eq => true | _ => false end
      | None => false
      end
  | _, _ =>
      match as_int a, as_int b with
      | Some x, Some y => x =? y
      | _, _ => false
      end
  end.

Definition hashable (v : value) : bool :=
  match v with VList _ | VDict _ => false | _ => true end.

(** Whether two elements of a list are equal: [len(set(l)) != len(l)]. *)
Fixpoint has_duplicates (l : list value) : bool :=
  match l with
  | [] => false
  | x :: xs => (List.existsb (py_eqb x) xs || has_duplicates xs)%bool
  end.

Fixpoint chars (s : string) : list value :=
  match s with
  | EmptyString => []
  | String c s' => VStr (String c EmptyString) :: chars s'
  end.

(** [Unique()] *)
Definition Unique : validator :=
  fun v =>
    let check (elements : list value) :=
      if negb (List.forallb hashable elements)
      then raise_invalid TypeInvalid "contains unhashable elements: {0}"
      else if has_duplicates elements
      then raise_invalid InvalidBase "contains duplicate items: {0}"
      else Ok v in
    match v with
    | VList l => check l
    | VStr s => check (chars s)
    | VDict _ => Ok v
    | _ => raise_invalid TypeInvalid "contains unhashable elements: {0}"
    end.

Definition deeper (errs : list invalid) : bool :=
  match errs with
  | e :: _ => match path e with [] => false | _ => true end
  | [] => false
  end.

(** What trying the validators of a list schema on one element gives. *)
Inductive element_result : Type :=
| Accepted (cval : value)            (* a validator returned *)
| Rejected (last : list invalid)     (* none did: the last error *)
| Abort (errs : list invalid)        (* an error from deeper inside *)
| Crash (e : exn).                   (* another exception *)

(** One element against the validators, in order: the first that accepts
    it gives the element of the output. *)
Fixpoint validate_element (validators : list validator) (item : value)
         (last : list invalid) : element_result :=
  match validators with
  | [] => Rejected last
  | validate :: rest =>
      match validate item with
      | Ok cval => Accepted cval
      | Invalid errs =>
          if deeper errs then Abort errs else validate_element rest item errs
      | Raise e => Crash e
      end
  end.

(** The loop of [validate_sequence]: the errors of the elements are
    collected; an error from deeper inside an element, or an exception
    that is not [Invalid], ends the loop at once. *)
Fixpoint validate_sequence (validators : list validator) (data : list value)
         (i : nat) (out : list value) (errors : list invalid) : outcome value :=
  match data with
  | [] => match errors with [] => Ok (VList out) | _ => Invalid errors end
  | item :: rest =>
      match validate_element validators item [] with
      | Accepted cval => validate_sequence validators rest (S i) (out ++ [cval]) errors
      | Rejected errs =>
          validate_sequence validators rest (S i) out
                            (errors ++ List.map (prepend (PIndex i)) errs)
      | Abort errs => Invalid (List.map (prepend (PIndex i)) errs)
      | Crash e => Raise e
      end
  end.

(** A list used as a schema, [[validator, ...]]. *)
Definition Sequence (validators : list validator) : validator :=
  fun v =>
    match v with
    | VList data =>
        match validators, data with
        | [], [] => Ok v
        | [], _ => raise_invalid ValueInvalid "not a valid value"
        | _, _ => validate_sequence validators data 0 [] []
        end
    | _ => raise_invalid SequenceTypeInvalid "expected a list"
    end.

End Vol.

(** ** [voluptuous]: dictionary schemas *)

Module Schema.

(** A validator that may read the world (a default may). *)
Definition mvalidator : Type := value -> M (outcome value).

Definition pure (f : validator) : mvalidator := fun v => ret (f v).

(** [extra=...] *)
Inductive extra_policy : Type :=
| PREVENT_EXTRA
| ALLOW_EXTRA
| REMOVE_EXTRA.

(** The key of a schema entry.  A default is absent ([UNDEFINED]) or a
    factory called without argument; [default=x] for a value that is not
    callable is the factory returning [x]. *)
Inductive key : Type :=
| Optional (name : string) (default : option (M value))
| Required (name : string) (default : option (M value))
| KeyFun (f : validator).            (* a validator as key: any key it accepts *)

Definition entry : Type := (key * mvalidator)%type.

Record schema : Type := MkSchema {
  entries : list entry;
  extra : extra_policy
}.

Definition literal (k : key) : option string :=
  match k with
  | Optional name _ | Required name _ => Some name
  | KeyFun _ => None
  end.

Definition default_of (k : key) : option (M value) :=
  match k with
  | Optional _ d | Required _ d => d
  | KeyFun _ => None
  end.

(** Dictionaries: [k in d], [d[k]], [d[k] = v]. *)
Definition has_key (k : string) (d : list (string * value)) : bool :=
  List.existsb (fun kv => String.eqb (fst kv) k) d.

Fixpoint get (k : string) (d : list (string * value)) : option value :=
  match d with
  | [] => None
  | (k', v) :: d' => if String.eqb k' k then Some v else get k d'
  end.

Fixpoint set (k : string) (v : value) (d : list (string * value))
  : list (string * value) :=
  match d with
  | [] => [(k, v)]
  | (k', v') :: d' => if String.eqb k' k then (k, v) :: d' else (k', v') :: set k v d'
  end.

(** Insert the default of every marker whose key the data lacks.  Python
    walks the markers as a [set], in no fixed order; here they come in the
    order of the schema.  The order shows only in the position of the
    inserted items, which equality of Python dictionaries ignores, and in
    the order in which default factories run. *)
Fixpoint insert_defaults (es : list entry) (key_value_map : list (string * value))
  : M (list (string * value)) :=
  match es with
  | [] => ret key_value_map
  | (k, _) :: es' =>
      match literal k, default_of k with
      | Some name, Some default =>
          if has_key name key_value_map then insert_defaults es' key_value_map
          else
            v <- default ;;
            insert_defaults es' (set name v key_value_map)
      | _, _ => insert_defaults es' key_value_map
      end
  end.

(** The candidates for a key of the data: the markers of that very key,
    then the validators used as keys. *)
Definition relevant_candidates (es : list entry) (k : string) : list entry :=
  (List.filter (fun e => match literal (fst e) with
                         | Some name => String.eqb name k
                         | None => false
                         end) es
   ++ List.filter (fun e => match literal (fst e) with
                            | Some _ => false
                            | None => true
                            end) es)%list.

(** What the candidates make of one key and its value. *)
Inductive item_result : Type :=
| NoCandidate                                        (* the [else] of the loop *)
| Selected (skey : key) (new_key : string) (cval : outcome value).

(** The key is tried against each candidate; once a candidate accepts the
    key, its value validator decides: there is no backtracking. *)
Fixpoint select (cands : list entry) (k : string) (v : value)
  : M (outcome item_result) :=
  match cands with
  | [] => ret (Ok NoCandidate)
  | (skey, cvalue) :: rest =>
      match skey with
      | KeyFun ckey =>
          match ckey (VStr k) with
          | Ok (VStr new_key) =>
              cval <- cvalue v ;; ret (Ok (Selected skey new_key cval))
          | Ok _ => ret (Raise TypeError)
          | Invalid _ => select rest k v
          | Raise e => ret (Raise e)
          end
      | _ => cval <- cvalue v ;; ret (Ok (Selected skey k cval))
      end
  end.

(** Errors raised for the value of a key: the key comes first in their
    path, and those of the value itself are marked as such. *)
Definition qualify (invalid_msg : string) (k : string) (e : invalid) : invalid :=
  MkInvalid (kind e) (message e) (PKey k :: path e)
            (match path e with [] => Some invalid_msg | _ => error_type e end).

(** The state of the loop of [validate_mapping]. *)
Record progress : Type := MkProgress {
  out : list (string * value);
  errors : list invalid;
  found : list string              (* markers discarded from [required_keys] *)
}.

Fixpoint validate_items (s : schema) (items : list (string * value)) (p : progress)
  : M (outcome progress) :=
  match items with
  | [] => ret (Ok p)
  | (k, v) :: rest =>
      r <- select (relevant_candidates (entries s) k) k v ;;
      match r with
      | Raise e => ret (Raise e)
      | Invalid errs => ret (Invalid errs)
      | Ok NoCandidate =>
          match extra s with
          | ALLOW_EXTRA =>
              validate_items s rest (MkProgress (set k v (out p)) (errors p) (found p))
          | REMOVE_EXTRA => validate_items s rest p
          | PREVENT_EXTRA =>
              validate_items s rest
                (MkProgress (out p)
                   (errors p ++ [MkInvalid InvalidBase "extra keys not allowed" [PKey k] None])
                   (found p))
          end
      | Ok (Selected skey new_key cval) =>
          let found' := match literal skey with
                        | Some name => name :: found p
                        | None => found p
                        end in
          match cval with
          | Ok c => validate_items s rest (MkProgress (set new_key c (out p)) (errors p) found')
          | Invalid errs =>
              validate_items s rest
                (MkProgress (out p)
                   (errors p ++ List.map (qualify "dictionary value" k) errs) found')
          | Raise e => ret (Raise e)
          end
      end
  end.

(** The required keys that no key of the data matched. *)
Definition missing_required (es : list entry) (found : list string) : list invalid :=
  List.flat_map
    (fun e => match fst e with
              | Required name _ =>
                  if List.existsb (String.eqb name) found then []
                  else [MkInvalid RequiredFieldInvalid "required key not provided"
                                  [PKey name] None]
              | _ => []
              end) es.

(** Calling a dictionary schema on a value. *)
Definition validate (s : schema) : mvalidator :=
  fun data =>
    match data with
    | VDict d =>
        key_value_map <- insert_defaults (entries s) d ;;
        r <- validate_items s key_value_map (MkProgress [] [] []) ;;
        match r with
        | Ok p =>
            match (errors p ++ missing_required (entries s) (found p))%list with
            | [] => ret (Ok (VDict (out p)))
            | errs => ret (Invalid errs)
            end
        | Invalid errs => ret (Invalid errs)
        | Raise e => ret (Raise e)
        end
    | _ => ret (raise_invalid DictInvalid "expected a dictionary")
    end.

(** A schema with a fixed set of fields: every key is a marker. *)
Definition fixed (s : schema) : bool :=
  List.forallb (fun e => match literal (fst e) with Some _ => true | None => false end)
               (entries s).

(** The keys a schema declares. *)
Definition declared (s : schema) (k : string) : bool :=
  List.existsb (fun e => match literal (fst e) with
                         | Some name => String.eqb name k
                         | None => false
                         end) (entries s).

(** A validator that leaves the world as it found it. *)
Definition quiet (f : mvalidator) : Prop := forall v w, snd (f v w) = w.

(** A validator that never reports a missing key. *)
Definition never_missing (f : mvalidator) : Prop :=
  forall v w errs e,
    fst (f v w) = Invalid errs -> List.In e errs -> kind e <> RequiredFieldInvalid.

(** The items of a dictionary whose key the schema declares. *)
Definition keep (s : schema) (kv : string * value) : bool := declared s (fst kv).

(** The validator a schema applies to the value of a declared key. *)
Definition field (s : schema) (k : string) : option mvalidator :=
  match relevant_candidates (entries s) k with
  | (Optional _ _, f) :: _ | (Required _ _, f) :: _ => Some f
  | _ => None
  end.

(** What that validator makes of a value. *)
Definition field_result (s : schema) (k : string) (v : value) (w : world)
  : option (outcome value) :=
  option_map (fun f => fst (f v w)) (field s k).

End Schema.

(** ** [supervisor/validate.py] *)

(** Modelled from the spec: the attribute names of [supervisor/const.py],
    which the module imports and which is not among the sources.  The
    schemas use them as the keys of their fields. *)
Module Const.
Definition ATTR_ACCESS_TOKEN := "access_token".
Definition ATTR_ADDONS_CUSTOM_LIST := "addons_custom_list".
Definition ATTR_AUDIO := "audio".
Definition ATTR_AUDIO_INPUT := "audio_input".
Definition ATTR_AUDIO_OUTPUT := "audio_output".
Definition ATTR_BOOT := "boot".
Definition ATTR_CHANNEL := "channel".
Definition ATTR_CLI := "cli".
Definition ATTR_DEBUG := "debug".
Definition ATTR_DEBUG_BLOCK := "debug_block".
Definition ATTR_DNS := "dns".
Definition ATTR_HASSOS := "hassos".
Definition ATTR_HOMEASSISTANT := "homeassistant".
Definition ATTR_IMAGE := "image".
Definition ATTR_LAST_BOOT := "last_boot".
Definition ATTR_LOGGING := "logging".
Definition ATTR_MULTICAST := "multicast".
Definition ATTR_PORT := "port".
Definition ATTR_PORTS := "ports".
Definition ATTR_REFRESH_TOKEN := "refresh_token".
Definition ATTR_SESSION := "session".
Definition ATTR_SSL := "ssl".
Definition ATTR_SUPERVISOR := "supervisor".
Definition ATTR_TIMEZONE := "timezone".
Definition ATTR_UUID := "uuid".
Definition ATTR_VERSION := "version".
Definition ATTR_WAIT_BOOT := "wait_boot".
Definition ATTR_WATCHDOG := "watchdog".
End Const.

(** What the module needs from the interpreter and from the time zone
    database, taken as given: [repr] of a float, a list or a dict, the
    [float] constructor, and the set of known zone names. *)
Record runtime : Type := MkRuntime {
  py_repr : value -> string;
  py_float : value -> spec_float + exn;    (* the float, or what [float] raises *)
  known_timezone : string -> bool
}.

Module Validate.
Import Const.

Definition hyphen : Re.class := Chars.is_char "-".
Definition braces : Re.class := Re.union (Chars.is_char "{") (Chars.is_char "}").
Definition lower_hex : Re.class :=
  Re.union (Chars.between 48 57) (Chars.between 97 102).

(** [[^#]] *)
Definition not_hash : Re.class := Re.none_of (Chars.is_char "#").

(** [re.compile(r"^(?P<url>[^#]+)(?:#(?P<branch>[\w\-]+))?$")] *)
Definition RE_REPOSITORY : Re.regex :=
  Re.Cat Re.Bol
    (Re.Cat (Re.Group "url" (Re.plus not_hash))
       (Re.Cat (Re.Opt (Re.Cat (Re.lit "#")
                          (Re.Group "branch" (Re.plus (Re.union Chars.word hyphen)))))
          Re.Eol)).

Definition network_port : validator :=
  Vol.All [Vol.Coerce Vol.int_type; Vol.Range (Some 1) (Some 65535)].

Definition wait_boot : validator :=
  Vol.All [Vol.Coerce Vol.int_type; Vol.Range (Some 1) (Some 60)].

(** [[\w{}]] and [[\-\w{}]] *)
Definition namespace_class : Re.class := Re.union Chars.word braces.
Definition name_class : Re.class := Re.union hyphen (Re.union Chars.word braces).

(** [vol.Match(r"^[\w{}]+/[\-\w{}]+$")] *)
Definition docker_image_pattern : Re.regex :=
  Re.Cat Re.Bol
    (Re.Cat (Re.plus namespace_class)
       (Re.Cat (Re.lit "/")
          (Re.Cat (Re.plus name_class)
             Re.Eol))).

Definition docker_image : validator := Vol.Match docker_image_pattern.

(** [vol.Match(r"^[0-9a-f]{32}$")] *)
Definition uuid_match : validator :=
  Vol.Match (Re.Cat Re.Bol (Re.Cat (Re.exactly lower_hex 32) Re.Eol)).

(** [vol.Match(r"^[0-9a-f]{64}$")] *)
Definition sha256 : validator :=
  Vol.Match (Re.Cat Re.Bol (Re.Cat (Re.exactly lower_hex 64) Re.Eol)).

(** [vol.Match(r"^[0-9a-f]{32,256}$")] *)
Definition token : validator :=
  Vol.Match (Re.Cat Re.Bol (Re.Cat (Re.range lower_hex 32 256) Re.Eol)).

Definition log_level : validator :=
  Vol.In ["debug"; "info"; "warning"; "error"; "critical"].

(** [dns_url]: [url.lower()] raises [AttributeError] on a value that is
    not a string. *)
Definition dns_url : validator :=
  fun url =>
    match url with
    | VStr s =>
        if negb (Str.startswith "dns://" (Str.lower s))
        then raise_invalid InvalidBase "Doesn't start with dns://"
        else
          let address := Str.drop 6 s in
          match Ipaddress.ip_address address with
          | Some _ => Ok url
          | None => raise_invalid InvalidBase "Invalid DNS URL: {}"
          end
    | _ => Raise AttributeError
    end.

Definition dns_server_list : validator :=
  Vol.All [Vol.Length 8; Vol.Sequence [dns_url]].

(** [data.group(name)] as a value: [None] for a group that did not take
    part in the match. *)
Definition group_value (data : Re.match_object) (name : string) : value :=
  match Re.group data name with
  | Some text => VStr text
  | None => VNone
  end.

(** [validate_repository]: [RE_REPOSITORY.match] raises [TypeError] on a
    value that is not a string. *)
Definition validate_repository : validator :=
  fun repository =>
    match repository with
    | VStr s =>
        match Re.match_ RE_REPOSITORY s with
        | None => raise_invalid InvalidBase "No valid repository format!"
        | Some data =>
            bind (Vol.Url (group_value data "url")) (fun _ => Ok repository)
        end
    | _ => Raise TypeError
    end.

Definition repositories : validator :=
  Vol.All [Vol.Sequence [validate_repository]; Vol.Unique].

(** [/tcp] and [/udp] *)
Definition slash_tcp : Re.regex :=
  Re.Cat (Re.lit "/") (Re.Cat (Re.lit "t") (Re.Cat (Re.lit "c") (Re.lit "p"))).
Definition slash_udp : Re.regex :=
  Re.Cat (Re.lit "/") (Re.Cat (Re.lit "u") (Re.Cat (Re.lit "d") (Re.lit "p"))).

(** [r"^\d+(?:/tcp|/udp)?$"] *)
Definition port_key_pattern : Re.regex :=
  Re.Cat Re.Bol
    (Re.Cat (Re.plus Chars.isdecimal)
       (Re.Cat (Re.Opt (Re.Alt slash_tcp slash_udp))
          Re.Eol)).

Section Schemas.

Variable rt : runtime.

(** [str(v)] *)
Definition str_type : Vol.pytype :=
  Vol.MkType "str"
    (fun v => Ok (VStr match v with
                       | VStr s => s
                       | VNone => "None"
                       | VBool true => "True"
                       | VBool false => "False"
                       | VInt z => Builtins.str_of_int z
                       | _ => py_repr rt v
                       end)).

(** [float(v)] *)
Definition float_type : Vol.pytype :=
  Vol.MkType "float" (fun v => match py_float rt v with
                               | inl f => Ok (VFloat f)
                               | inr e => Raise e
                               end).

(** Modelled from the spec: [validate_timezone] of
    [supervisor/utils/validate.py], which is not among the sources: a
    name the zone database knows is returned as it is, anything else
    fails. *)
Definition validate_timezone : validator :=
  fun timezone =>
    match timezone with
    | VStr name =>
        if known_timezone rt name then Ok timezone
        else raise_invalid InvalidBase "Invalid time zone passed in."
    | _ => raise_invalid InvalidBase "Invalid time zone passed in."
    end.

(** [vol.All(vol.Coerce(str), vol.Match(r"^\d+(?:/tcp|/udp)?$"))], the key
    of the two port maps. *)
Definition port_key : validator :=
  Vol.All [Vol.Coerce str_type; Vol.Match port_key_pattern].

(** A schema without [extra=...] prevents extra keys. *)
Definition DOCKER_PORTS : Schema.schema :=
  Schema.MkSchema
    [ (Schema.KeyFun port_key, Schema.pure (Vol.Maybe network_port)) ]
    Schema.PREVENT_EXTRA.

Definition DOCKER_PORTS_DESCRIPTION : Schema.schema :=
  Schema.MkSchema
    [ (Schema.KeyFun port_key, Schema.pure (Vol.Coerce str_type)) ]
    Schema.PREVENT_EXTRA.

Definition eager (v : value) : option (M value) := Some (ret v).

(** [lambda: uuid.uuid4().hex] *)
Definition fresh_uuid : M value := hex <- Uuid.uuid4_hex ;; ret (VStr hex).

Definition SCHEMA_HASS_CONFIG : Schema.schema :=
  Schema.MkSchema
    [ (Schema.Optional ATTR_UUID (Some fresh_uuid), Schema.pure uuid_match);
      (Schema.Optional ATTR_VERSION None, Schema.pure (Vol.Maybe (Vol.Coerce str_type)));
      (Schema.Optional ATTR_IMAGE None, Schema.pure docker_image);
      (Schema.Optional ATTR_ACCESS_TOKEN None, Schema.pure token);
      (Schema.Optional ATTR_BOOT (eager (VBool true)), Schema.pure Vol.Boolean);
      (Schema.Optional ATTR_PORT (eager (VInt 8123)), Schema.pure network_port);
      (Schema.Optional ATTR_REFRESH_TOKEN None, Schema.pure (Vol.Maybe (Vol.Coerce str_type)));
      (Schema.Optional ATTR_SSL (eager (VBool false)), Schema.pure Vol.Boolean);
      (Schema.Optional ATTR_WATCHDOG (eager (VBool true)), Schema.pure Vol.Boolean);
      (Schema.Optional ATTR_WAIT_BOOT (eager (VInt 600)),
         Schema.pure (Vol.All [Vol.Coerce Vol.int_type; Vol.Range (Some 60) None]));
      (Schema.Optional ATTR_AUDIO_OUTPUT (eager VNone),
         Schema.pure (Vol.Maybe (Vol.Coerce str_type)));
      (Schema.Optional ATTR_AUDIO_INPUT (eager VNone),
         Schema.pure (Vol.Maybe (Vol.Coerce str_type))) ]
    Schema.REMOVE_EXTRA.

Definition SCHEMA_SUPERVISOR_CONFIG : Schema.schema :=
  Schema.MkSchema
    [ (Schema.Optional ATTR_TIMEZONE (eager (VStr "UTC")), Schema.pure validate_timezone);
      (Schema.Optional ATTR_LAST_BOOT None, Schema.pure (Vol.Coerce str_type));
      (Schema.Optional ATTR_ADDONS_CUSTOM_LIST
         (eager (VList [VStr "https://github.com/hassio-addons/repository"])),
         Schema.pure repositories);
      (Schema.Optional ATTR_WAIT_BOOT (eager (VInt 5)), Schema.pure wait_boot);
      (Schema.Optional ATTR_LOGGING (eager (VStr "info")), Schema.pure log_level);
      (Schema.Optional ATTR_DEBUG (eager (VBool false)), Schema.pure Vol.Boolean);
      (Schema.Optional ATTR_DEBUG_BLOCK (eager (VBool false)), Schema.pure Vol.Boolean) ]
    Schema.REMOVE_EXTRA.

Definition SCHEMA_AUTH_CONFIG : Schema.schema :=
  Schema.MkSchema [ (Schema.KeyFun sha256, Schema.pure sha256) ] Schema.PREVENT_EXTRA.

(** [default=dict] *)
Definition fresh_dict : option (M value) := Some (ret (VDict [])).

Definition SCHEMA_INGRESS_CONFIG : Schema.schema :=
  Schema.MkSchema
    [ (Schema.Required ATTR_SESSION fresh_dict,
         Schema.validate
           (Schema.MkSchema [ (Schema.KeyFun token, Schema.pure (Vol.Coerce float_type)) ]
                            Schema.PREVENT_EXTRA));
      (Schema.Required ATTR_PORTS fresh_dict,
         Schema.validate
           (Schema.MkSchema [ (Schema.KeyFun (Vol.Coerce str_type), Schema.pure network_port) ]
                            Schema.PREVENT_EXTRA)) ]
    Schema.REMOVE_EXTRA.

Section Updater.

(** The values of the update channels, and the one of [UpdateChannels.STABLE]. *)
Variable channels : list string.
Variable STABLE : string.

(** Modelled from the spec: [UpdateChannels] of [supervisor/const.py], which
    is not among the sources: an enumeration of strings, the update
    channels, of which [STABLE] is one.  Calling it with the value of a
    member returns the member, with anything else raises [ValueError]. *)
Definition UpdateChannels : Vol.pytype :=
  Vol.MkType "UpdateChannels"
    (fun v =>
       match v with
       | VStr s => if List.existsb (String.eqb s) channels then Ok (VStr s)
                   else Raise ValueError
       | _ => Raise ValueError
       end).

Definition SCHEMA_UPDATER_CONFIG : Schema.schema :=
  Schema.MkSchema
    [ (Schema.Optional ATTR_CHANNEL (eager (VStr STABLE)),
         Schema.pure (Vol.Coerce UpdateChannels));
      (Schema.Optional ATTR_HOMEASSISTANT None, Schema.pure (Vol.Coerce str_type));
      (Schema.Optional ATTR_SUPERVISOR None, Schema.pure (Vol.Coerce str_type));
      (Schema.Optional ATTR_HASSOS None, Schema.pure (Vol.Coerce str_type));
      (Schema.Optional ATTR_CLI None, Schema.pure (Vol.Coerce str_type));
      (Schema.Optional ATTR_DNS None, Schema.pure (Vol.Coerce str_type));
      (Schema.Optional ATTR_AUDIO None, Schema.pure (Vol.Coerce str_type));
      (Schema.Optional ATTR_MULTICAST None, Schema.pure (Vol.Coerce str_type));
      (Schema.Optional ATTR_IMAGE fresh_dict,
         Schema.validate
           (Schema.MkSchema
              [ (Schema.Optional ATTR_HOMEASSISTANT None, Schema.pure docker_image);
                (Schema.Optional ATTR_SUPERVISOR None, Schema.pure docker_image);
                (Schema.Optional ATTR_CLI None, Schema.pure docker_image);
                (Schema.Optional ATTR_DNS None, Schema.pure docker_image);
                (Schema.Optional ATTR_AUDIO None, Schema.pure docker_image);
                (Schema.Optional ATTR_MULTICAST None, Schema.pure docker_image) ]
              Schema.REMOVE_EXTRA)) ]
    Schema.REMOVE_EXTRA.

End Updater.

End Schemas.

End Validate.

(** ** The properties the specification states, in its own words *)

Module Spec.

(** An image reference [namespace/name] whose two segments are non-empty
    and made of the given characters. *)
Definition image_reference (namespace_char name_char : ascii -> bool) (s : string) : Prop :=
  exists namespace name,
    s = namespace ++ "/" ++ name /\ namespace <> "" /\ name <> ""
    /\ Str.forallb namespace_char namespace = true
    /\ Str.forallb name_char name = true.

Definition brace (c : ascii) : bool := (Chars.is_char "{" c || Chars.is_char "}" c)%bool.

(** Alphanumeric, underscore, hyphen, or a brace of a placeholder. *)
Definition segment_char (c : ascii) : bool :=
  (Chars.isalnum c || Chars.is_char "_" c || Chars.is_char "-" c || brace c)%bool.

(** The same without the hyphen. *)
Definition plain_segment_char (c : ascii) : bool :=
  (Chars.isalnum c || Chars.is_char "_" c || brace c)%bool.

(** The first six characters are [dns://], letter case apart. *)
Definition dns_scheme (url : string) : Prop := Str.lower (Str.take 6 url) = "dns://".

Definition digit_or_dot (c : ascii) : bool := (Chars.isdecimal c || Chars.is_char "." c)%bool.

(** The look of a literal address, which no host name has: decimal digits
    and dots only, or a colon somewhere. *)
Definition address_shape (a : string) : Prop :=
  Str.forallb digit_or_dot a = true \/ Str.contains ":" a = true.

(** Word characters and hyphens. *)
Definition branch_char (c : ascii) : bool := (Chars.word c || Chars.is_char "-" c)%bool.

(** Two elements of the list are equal as strings. *)
Fixpoint has_repeat (l : list string) : bool :=
  match l with
  | [] => false
  | s :: l' => (List.existsb (String.eqb s) l' || has_repeat l')%bool
  end.

(** The errors a validator raises on the elements of a list, each under
    the index of its element. *)
Fixpoint element_errors (f : validator) (l : list value) (i : nat) : list invalid :=
  match l with
  | [] => []
  | v :: l' =>
      (match f v with
       | Invalid errs => List.map (prepend (PIndex i)) errs
       | _ => []
       end ++ element_errors f l' (S i))%list
  end.

(** A validator that, on [v], returns [v] or raises one error about it. *)
Definition plain_on (f : validator) (v : value) : Prop :=
  f v = Ok v \/ exists k msg, f v = raise_invalid k msg.

Definition in_range (min max : option Z) (z : Z) : Prop :=
  match min with Some lo => lo <= z | None => True end
  /\ match max with Some hi => z <= hi | None => True end.

End Spec.

(** ** A runtime and a world to run the schemas in *)

Module Demo.

(** A runtime whose zone database knows [UTC] only. *)
Definition sample_runtime : runtime :=
  MkRuntime (fun _ => "") (fun _ => inr TypeError) (String.eqb "UTC").

(** A world whose [k]-th random byte is [k] modulo 256. *)
Definition sample_world : world :=
  MkWorld (fun k => match Byte.of_N (N.of_nat k mod 256) with
                    | Some b => b
                    | None => Byte.x00
                    end) 0.

Definition nl : string := String Chars.newline "".

(** A world whose random bytes are all zero. *)
Definition zero_world : world := MkWorld (fun _ => Byte.x00) 0.

End Demo.

(** ** What the regular expression matcher computes *)

Module ReSpec.
Import Re.

Definition within (hi : option nat) (n : nat) : Prop :=
  match hi with Some h => (n <= h)%nat | None => True end.

(** [matches r i s g i' s' g']: the pattern [r] can take the matcher from
    offset [i], rest [s] and groups [g] to offset [i'], rest [s'] and
    groups [g']. *)
Fixpoint matches (r : regex) (i : nat) (s : string) (g : groups)
         (i' : nat) (s' : string) (g' : groups) : Prop :=
  match r with
  | Bol => i = O /\ i' = i /\ s' = s /\ g' = g
  | Eol => at_eol s = true /\ i' = i /\ s' = s /\ g' = g
  | Chr c => exists a, s = String a s' /\ c a = true /\ i' = S i /\ g' = g
  | Repeat c lo hi =>
      exists n, (lo <= n)%nat /\ within hi n /\ (n <= String.length s)%nat
                /\ Str.forallb c (Str.take n s) = true
                /\ i' = (i + n)%nat /\ s' = Str.drop n s /\ g' = g
  | Cat r1 r2 =>
      exists i1 s1 g1, matches r1 i s g i1 s1 g1 /\ matches r2 i1 s1 g1 i' s' g'
  | Alt r1 r2 => matches r1 i s g i' s' g' \/ matches r2 i s g i' s' g'
  | Opt r1 => matches r1 i s g i' s' g' \/ (i' = i /\ s' = s /\ g' = g)
  | Group name r1 =>
      exists g1, matches r1 i s g i' s' g1 /\ g' = (name, (i, i')) :: g1
  end.

End ReSpec.

(** ** Shapes of accepted values, and properties of validators and schemas *)

Module Shape.
(** The items of [out] are those of [d], in their order: each key as the
    key validator accepts it and each value as the value validator
    returns it. *)
Definition item_ok (kf vf : validator) (kv kv' : string * value) : Prop :=
  fst kv' = fst kv /\ kf (VStr (fst kv)) = Ok (VStr (fst kv)) /\ vf (snd kv) = Ok (snd kv').

(** A validator that returns a string as it is when it accepts it. *)
Definition keeps_strings (f : validator) : Prop :=
  forall s x, f (VStr s) = Ok x -> x = VStr s.

(** A validator whose [Invalid] always carries an error. *)
Definition reports (f : validator) : Prop := forall v, f v <> Invalid [].

Definition extra_key (k : string) : invalid :=
  MkInvalid InvalidBase "extra keys not allowed" [PKey k] None.

(** Between [lo] and [hi] digits of lower-case hexadecimal. *)
Definition hex_string (lo hi : nat) (s : string) : Prop :=
  (lo <= String.length s <= hi)%nat /\ Str.forallb Validate.lower_hex s = true.

(** A string of the given shape, alone or followed by one newline: what a
    pattern that ends in [$] lets through. *)
Definition up_to_newline (P : string -> Prop) (s : string) : Prop :=
  exists h tail, s = h ++ tail /\ P h /\ (tail = "" \/ tail = Demo.nl).

(** Decimal digits, then nothing, [/tcp] or [/udp]. *)
Definition port_spec (k : string) : Prop :=
  exists digits suffix,
    k = digits ++ suffix /\ digits <> ""
    /\ Str.forallb Chars.isdecimal digits = true
    /\ (suffix = "" \/ suffix = "/tcp" \/ suffix = "/udp").

(** [None], or what [int] makes an integer from 1 to 65535. *)
Definition optional_port (v c : value) : Prop :=
  (v = VNone /\ c = VNone)
  \/ exists z, Builtins.int v = Ok z /\ (1 <= z <= 65535)%Z /\ c = VInt z.

(** The keys for which a schema has a default. *)
Definition defaulted (s : Schema.schema) (k : string) : bool :=
  List.existsb (fun e => match Schema.literal (fst e), Schema.default_of (fst e) with
                         | Some name, Some _ => String.eqb name k
                         | _, _ => false
                         end) (Schema.entries s).

(** The [Invalid] of every field of a schema carries an error. *)
Definition fields_report (s : Schema.schema) : Prop :=
  forall e v w, List.In e (Schema.entries s) -> fst (snd e v w) <> Invalid [].

(** A validator that accepts what it returns, and returns it as it is. *)
Definition settled (g : validator) : Prop := forall v c, g v = Ok c -> g c = Ok c.

(** Every field of a schema is a settled validator that does not read the
    world and whose [Invalid] carries an error. *)
Definition fields_settled (s : Schema.schema) : Prop :=
  forall e, List.In e (Schema.entries s) ->
            exists g, snd e = Schema.pure g /\ settled g /\ reports g.

(** [scheme://host] and what follows: a scheme of letters, digits and
    [+-.], a host that is not empty, holds none of [/?#] and holds both or
    none of the square brackets, and a rest that is empty or begins with
    one of [/?#]. *)
Definition url_shape (u : string) : Prop :=
  exists scheme host rest,
    u = scheme ++ "://" ++ host ++ rest
    /\ scheme <> "" /\ Str.forallb Urllib.scheme_char scheme = true
    /\ host <> "" /\ Str.existsb Urllib.netloc_delim host = false
    /\ Str.contains "[" host = Str.contains "]" host
    /\ match rest with
       | EmptyString => True
       | String c _ => Urllib.netloc_delim c = true
       end.

(** The keys a schema declares, and those for which it has a default. *)
Definition declared_keys (s : Schema.schema) : list string :=
  List.flat_map (fun e => match Schema.literal (fst e) with
                          | Some name => [name]
                          | None => []
                          end) (Schema.entries s).

Definition default_keys (s : Schema.schema) : list string :=
  List.flat_map (fun e => match Schema.literal (fst e), Schema.default_of (fst e) with
                          | Some name, Some _ => [name]
                          | _, _ => []
                          end) (Schema.entries s).

(** A field whose result does not depend on the world. *)
Definition steady (f : Schema.mvalidator) : Prop :=
  forall v w w0, f v w = (fst (f v w0), w).

(** An item whose value the field of its key returns as it is. *)
Definition returned (s : Schema.schema) (kc : string * value) : Prop :=
  exists g, Schema.field s (fst kc) = Some (Schema.pure g) /\ g (snd kc) = Ok (snd kc).
(** An item whose value the field of its key has returned for some
    value. *)
Definition resulted (s : Schema.schema) (kc : string * value) : Prop :=
  exists f v w, Schema.field s (fst kc) = Some f /\ fst (f v w) = Ok (snd kc).

(** [s] matches [^(?P<url>[^#]+)(?:#(?P<branch>[\w\-]+))?$] with the groups
    [url] and [branch]: a url that is not empty and holds no [#], alone or
    followed by [#] and a branch of word characters and hyphens; as [$]
    also matches just before a newline that ends the string, one newline
    may follow the branch. *)
Definition repository_match (s url : string) (branch : option string) : Prop :=
  url <> "" /\ Str.contains "#" url = false
  /\ match branch with
     | None => s = url
     | Some b =>
         b <> "" /\ Str.forallb Spec.branch_char b = true
         /\ exists tail, (tail = "" \/ tail = Demo.nl) /\ s = url ++ "#" ++ b ++ tail
     end.

(** The bits of a UUID that [uuid4] takes from the random bytes: all but
    the two of the variant and the four of the version. *)
Definition random_bits : Z :=
  Z.land (Z.lnot (Z.shiftl 49152 48)) (Z.lnot (Z.shiftl 61440 64)).

End Shape.

(** * Theorems *)

(** ** Facts about strings *)

Module StrFacts.
Local Close Scope Z_scope.

Lemma take_drop n s : Str.take n s ++ Str.drop n s = s.
Proof.
  revert s; induction n as [|n IH]; intros [|a s]; simpl; auto.
  rewrite IH. reflexivity.
Qed.

Lemma length_take n s : (n <= String.length s)%nat -> String.length (Str.take n s) = n.
Proof.
  revert s; induction n as [|n IH]; intros [|a s]; simpl; intros H; auto; try lia.
  rewrite IH; auto; lia.
Qed.

Lemma take_app a b : Str.take (String.length a) (a ++ b) = a.
Proof. induction a as [|c a IH]; simpl; [destruct b; reflexivity | rewrite IH; reflexivity]. Qed.

Lemma drop_app a b : Str.drop (String.length a) (a ++ b) = b.
Proof. induction a as [|c a IH]; simpl; auto. Qed.

Lemma take_all s : Str.take (String.length s) s = s.
Proof. induction s as [|c s IH]; simpl; congruence. Qed.

Lemma drop_all s : Str.drop (String.length s) s = "".
Proof. induction s as [|c s IH]; simpl; congruence. Qed.

Lemma forallb_app p a b :
  Str.forallb p (a ++ b) = (Str.forallb p a && Str.forallb p b)%bool.
Proof. induction a as [|c a IH]; simpl; auto. rewrite IH, andb_assoc. reflexivity. Qed.

Lemma str_length_app a b : String.length (a ++ b) = (String.length a + String.length b)%nat.
Proof. induction a as [|c a IH]; simpl; auto. Qed.

Lemma take_nonempty n s :
  (1 <= n)%nat -> (n <= String.length s)%nat -> Str.take n s <> "".
Proof. destruct n, s; simpl; intros; try lia; discriminate. Qed.

Lemma nonempty_length s : s <> "" -> (1 <= String.length s)%nat.
Proof. destruct s; simpl; [congruence | lia]. Qed.

Lemma last_app_char a c : Str.last (a ++ String c "") = Some c.
Proof.
  induction a as [|d a IH]; simpl; auto.
  rewrite IH. destruct (a ++ String c ""); [discriminate IH | reflexivity].
Qed.

Lemma at_eol_iff rest :
  Re.at_eol rest = true <-> rest = "" \/ rest = String Chars.newline "".
Proof.
  destruct rest as [|c [|d r]]; simpl; split; auto.
  - intros H. apply Ascii.eqb_eq in H. subst. auto.
  - intros [H|H]; [discriminate | injection H as ->; reflexivity].
  - discriminate.
  - intros [H|H]; discriminate.
Qed.

Lemma str_app_assoc a b c : (a ++ b) ++ c = a ++ b ++ c.
Proof. induction a; simpl; congruence. Qed.

Lemma str_app_empty_r a : a ++ "" = a.
Proof. induction a; simpl; congruence. Qed.

End StrFacts.

(** ** The matcher finds a match exactly when there is one *)

Module ReFacts.
Local Close Scope Z_scope.
Import Re ReSpec.

Lemma rep_sound c s : forall lo hi i g k res,
  rep c lo hi i s g k = Some res ->
  exists n, (lo <= n)%nat /\ within hi n /\ (n <= String.length s)%nat
            /\ Str.forallb c (Str.take n s) = true
            /\ k (i + n)%nat (Str.drop n s) g = Some res.
Proof.
  induction s as [|a s IH]; intros lo hi i g k res H; simpl in H.
  - destruct lo; [|discriminate].
    exists O. rewrite Nat.add_0_r. repeat split; auto.
    destruct hi; simpl; lia.
  - assert (Hstop : match lo with O => k i (String a s) g | S _ => None end = Some res ->
                    exists n, (lo <= n)%nat /\ within hi n /\ (n <= String.length (String a s))%nat
                              /\ Str.forallb c (Str.take n (String a s)) = true
                              /\ k (i + n)%nat (Str.drop n (String a s)) g = Some res).
    { intros H0. destruct lo; [|discriminate].
      exists O. rewrite Nat.add_0_r. repeat split; auto; simpl; try lia.
      destruct hi; simpl; lia. }
    destruct (c a && below hi)%bool eqn:E; [|auto].
    apply andb_true_iff in E. destruct E as [Ec Eb].
    destruct (rep c (Nat.pred lo) (dec hi) (S i) s g k) eqn:R; [|auto].
    injection H as ->.
    apply IH in R. destruct R as (n & Hlo & Hhi & Hlen & Hall & Hk).
    exists (S n). simpl. rewrite Ec, Hall.
    replace (i + S n)%nat with (S i + n)%nat by lia.
    repeat split; auto; try lia.
    destruct hi as [[|h]|]; simpl in *; try discriminate; auto; lia.
Qed.

Lemma rep_complete c s : forall n lo hi i g k,
  (lo <= n)%nat -> within hi n -> (n <= String.length s)%nat ->
  Str.forallb c (Str.take n s) = true ->
  k (i + n)%nat (Str.drop n s) g <> None ->
  rep c lo hi i s g k <> None.
Proof.
  induction s as [|a s IH]; intros n lo hi i g k Hlo Hhi Hlen Hall Hk; simpl in *.
  - assert (n = O) by lia. subst n. assert (lo = O) by lia. subst lo.
    rewrite Nat.add_0_r in Hk. exact Hk.
  - destruct n as [|n].
    + assert (lo = O) by lia. subst lo. rewrite Nat.add_0_r in Hk. simpl in Hk.
      destruct (c a && below hi)%bool; auto.
      destruct (rep c (Nat.pred 0) (dec hi) (S i) s g k); [discriminate|auto].
    + simpl in Hall. apply andb_true_iff in Hall. destruct Hall as [Ec Hall].
      assert (Hb : below hi = true).
      { destruct hi as [[|h]|]; simpl in *; auto; lia. }
      rewrite Ec, Hb. simpl.
      assert (R : rep c (Nat.pred lo) (dec hi) (S i) s g k <> None).
      { apply (IH n); auto; try lia.
        - destruct hi as [h|]; simpl in *; auto; lia.
        - replace (S i + n)%nat with (i + S n)%nat by lia. exact Hk. }
      destruct (rep c (Nat.pred lo) (dec hi) (S i) s g k); [discriminate|contradiction].
Qed.

Theorem run_sound r : forall i s g k res,
  run r i s g k = Some res ->
  exists i' s' g', matches r i s g i' s' g' /\ k i' s' g' = Some res.
Proof.
  induction r; intros i s g k res H; simpl in H.
  - destruct (Nat.eqb i 0) eqn:E; [|discriminate].
    apply Nat.eqb_eq in E. exists i, s, g. simpl. auto.
  - destruct (at_eol s) eqn:E; [|discriminate].
    exists i, s, g. simpl. auto.
  - destruct s as [|a s]; [discriminate|].
    destruct (c a) eqn:E; [|discriminate].
    exists (S i), s, g. simpl. split; auto. exists a. auto.
  - apply rep_sound in H. destruct H as (n & ? & ? & ? & ? & ?).
    exists (i + n)%nat, (Str.drop n s), g. split; auto.
    simpl. exists n. repeat split; auto.
  - apply IHr1 in H. destruct H as (i1 & s1 & g1 & H1 & H).
    apply IHr2 in H. destruct H as (i2 & s2 & g2 & H2 & H).
    exists i2, s2, g2. split; auto. simpl. exists i1, s1, g1. auto.
  - destruct (run r1 i s g k) eqn:E.
    + injection H as ->. apply IHr1 in E. destruct E as (i' & s' & g' & ? & ?).
      exists i', s', g'. simpl. auto.
    + apply IHr2 in H. destruct H as (i' & s' & g' & ? & ?).
      exists i', s', g'. simpl. auto.
  - destruct (run r i s g k) eqn:E.
    + injection H as ->. apply IHr in E. destruct E as (i' & s' & g' & ? & ?).
      exists i', s', g'. simpl. auto.
    + exists i, s, g. simpl. auto.
  - apply IHr in H. destruct H as (i' & s' & g' & ? & ?).
    exists i', s', ((name, (i, i')) :: g'). split; auto. simpl. exists g'. auto.
Qed.

Theorem run_complete r : forall i s g k i' s' g',
  matches r i s g i' s' g' -> k i' s' g' <> None -> run r i s g k <> None.
Proof.
  induction r; intros i s g k i' s' g' M K; simpl in M |- *.
  - destruct M as (-> & -> & -> & ->). exact K.
  - destruct M as (E & -> & -> & ->). rewrite E. exact K.
  - destruct M as (a & -> & E & -> & ->). rewrite E. exact K.
  - destruct M as (n & ? & ? & ? & ? & -> & -> & ->).
    apply (@rep_complete c s n); auto.
  - destruct M as (i1 & s1 & g1 & M1 & M2).
    apply (IHr1 _ _ _ _ _ _ _ M1). apply (IHr2 _ _ _ _ _ _ _ M2). exact K.
  - destruct M as [M | M].
    + pose proof (IHr1 _ _ _ _ _ _ _ M K).
      destruct (run r1 i s g k); [discriminate|contradiction].
    + pose proof (IHr2 _ _ _ _ _ _ _ M K).
      destruct (run r1 i s g k); [discriminate|auto].
  - destruct M as [M | (-> & -> & ->)].
    + pose proof (IHr _ _ _ _ _ _ _ M K).
      destruct (run r i s g k); [discriminate|contradiction].
    + destruct (run r i s g k); [discriminate|auto].
  - destruct M as (g1 & M & ->).
    apply (IHr _ _ _ _ _ _ _ M). exact K.
Qed.

(** [pattern.match(s)] finds a match exactly when the pattern can consume a
    prefix of [s] *)
Theorem match_iff r s :
  match_ r s <> None <-> exists e s' g, matches r 0 s [] e s' g.
Proof.
  unfold match_. split.
  - destruct (run r 0 s [] _) as [[e g]|] eqn:E; [|congruence].
    intros _. apply run_sound in E. destruct E as (i' & s' & g' & M & _).
    eauto.
  - intros (e & s' & g & M).
    assert (H : run r 0 s [] (fun i _ g => Some (i, g)) <> None).
    { eapply run_complete; [exact M | discriminate]. }
    destruct (run r 0 s [] _) as [[? ?]|]; [discriminate | contradiction].
Qed.

Theorem match_sound r s m :
  match_ r s = Some m ->
  subject m = s /\ exists s', matches r 0 s [] (match_end m) s' (spans m).
Proof.
  unfold match_. destruct (run r 0 s [] _) as [[e g]|] eqn:E; [|discriminate].
  intros [= <-]. simpl. split; auto.
  apply run_sound in E. destruct E as (i' & s' & g' & M & [= -> ->]). eauto.
Qed.
End ReFacts.

(** ** The image pattern, character by character *)

Module ImageFacts.
Local Close Scope Z_scope.
Import Re ReSpec ReFacts StrFacts Validate.

(** What [docker_image_pattern] matches, character by character *)
Lemma docker_image_pattern_iff s :
  Re.match_ docker_image_pattern s <> None <->
  exists ns name tail,
    s = ns ++ "/" ++ name ++ tail /\ ns <> "" /\ name <> ""
    /\ Str.forallb namespace_class ns = true /\ Str.forallb name_class name = true
    /\ (tail = "" \/ tail = Demo.nl).
Proof.
  rewrite match_iff. unfold docker_image_pattern, Re.plus, Re.lit. cbn [matches within]. split.
  - intros (e & s' & g & i1 & s1 & g1 & (_ & -> & -> & ->) & i2 & s2 & g2
            & (n & Hn & _ & Hlen & Hall & -> & -> & ->) & i3 & s3 & g3
            & (a & Hs & Ha & -> & ->) & i4 & s4 & g4
            & (m & Hm & _ & Hlen' & Hall' & -> & -> & ->) & Heol & _).
    apply Ascii.eqb_eq in Ha. subst a.
    exists (Str.take n s), (Str.take m s3), (Str.drop m s3). repeat split; auto.
    + rewrite (take_drop m s3). simpl. rewrite <- Hs. symmetry. apply take_drop.
    + apply take_nonempty; auto.
    + apply take_nonempty; auto.
    + apply at_eol_iff. exact Heol.
  - intros (ns & name & tail & -> & Hns & Hname & Hall & Hall' & Htail).
    exists (String.length ns + 1 + String.length name)%nat, tail, [].
    exists O, (ns ++ "/" ++ name ++ tail), []. split; [auto|].
    exists (String.length ns), (String "/" (name ++ tail)), []. split.
    { exists (String.length ns). rewrite take_app, drop_app, str_length_app.
      repeat split; auto; try lia. apply nonempty_length; auto. }
    exists (S (String.length ns)), (name ++ tail), []. split.
    { exists "/"%char. repeat split; auto. }
    exists (S (String.length ns) + String.length name)%nat, tail, []. split.
    { exists (String.length name). rewrite take_app, drop_app, str_length_app.
      repeat split; auto; try lia. apply nonempty_length; auto. }
    repeat split; auto; try lia. apply at_eol_iff. exact Htail.
Qed.

Lemma match_ok pattern s :
  Vol.Match pattern (VStr s) = Ok (VStr s) <-> Re.match_ pattern s <> None.
Proof.
  unfold Vol.Match. destruct (Re.match_ pattern s); split; intros H;
    try reflexivity; try discriminate; congruence.
Qed.

Lemma segment_no_newline p s :
  p Chars.newline = false -> Str.forallb p s = true -> Str.last s <> Some Chars.newline.
Proof.
  intros Hp. induction s as [|c s IH]; simpl; [discriminate|].
  intros H. apply andb_true_iff in H. destruct H as [Hc Hs].
  destruct s; [intros [= ->]; congruence | auto].
Qed.

End ImageFacts.

(** ** What a literal address looks like *)

Module AddressFacts.
Local Close Scope Z_scope.
Import Ipaddress Spec.

Lemma prefix_map f p : forall s,
  String.prefix p (Str.map f s) = true <-> Str.map f (Str.take (String.length p) s) = p.
Proof.
  induction p as [|a p IH]; intros s; simpl.
  - destruct s; simpl; split; auto.
  - destruct s as [|b s]; simpl.
    + split; discriminate.
    + destruct (ascii_dec a (f b)) as [->|N].
      * rewrite IH. split; [intros ->; reflexivity | intros [= ->]; reflexivity].
      * split; [discriminate | intros [= E _]; congruence].
Qed.

(** Every character of a string is the separator or belongs to a part *)
Lemma forallb_split (q : ascii -> bool) sep : forall s,
  List.forallb (Str.forallb q) (Str.split sep s) = true ->
  Str.forallb (fun c => (q c || Chars.is_char sep c)%bool) s = true.
Proof.
  induction s as [|a s IH]; simpl; auto.
  unfold Chars.is_char. rewrite (Ascii.eqb_sym sep a).
  destruct (Ascii.eqb a sep) eqn:E; simpl.
  - intros H. rewrite orb_true_r. simpl. apply IH. exact H.
  - destruct (Str.split sep s) as [|p ps] eqn:S; simpl in *.
    + rewrite andb_true_r, andb_true_r. intros ->. simpl. apply IH. reflexivity.
    + intros H. apply andb_true_iff in H. destruct H as [H1 H2].
      apply andb_true_iff in H1. destruct H1 as [Ha Hp].
      rewrite Ha. simpl. apply IH. rewrite Hp, H2. reflexivity.
Qed.

Lemma parse_octet_digits o z : parse_octet o = Some z -> Str.forallb Chars.isdecimal o = true.
Proof.
  unfold parse_octet. destruct o as [|c o]; [discriminate|].
  destruct (Str.forallb Chars.isdecimal (String c o)); [reflexivity | discriminate].
Qed.

Lemma from_octets_digits octets : forall acc z,
  from_octets octets acc = Some z -> List.forallb (Str.forallb Chars.isdecimal) octets = true.
Proof.
  induction octets as [|o os IH]; simpl; auto.
  intros acc z. destruct (parse_octet o) eqn:E; [|discriminate].
  intros H. rewrite (parse_octet_digits _ E). simpl. eapply IH; eauto.
Qed.

Lemma ipv4_shape a z : ipv4_address a = Some z -> Str.forallb digit_or_dot a = true.
Proof.
  unfold ipv4_address, ipv4_int_from_string.
  destruct (Str.contains "/" a); [discriminate|].
  destruct a as [|c a]; [discriminate|].
  destruct (negb _); [discriminate|].
  intros H. apply from_octets_digits in H. apply forallb_split in H. exact H.
Qed.

Lemma split_without sep : forall s, Str.contains sep s = false -> Str.split sep s = [s].
Proof.
  unfold Str.contains. induction s as [|a s IH]; simpl; auto.
  rewrite (Ascii.eqb_sym sep a). destruct (Ascii.eqb a sep); simpl; [discriminate|].
  intros H. rewrite (IH H). reflexivity.
Qed.

Lemma ipv6_shape a z : ipv6_address a = Some z -> Str.contains ":" a = true.
Proof.
  unfold ipv6_address, ipv6_int_from_string.
  destruct (Str.contains "/" a); [discriminate|].
  destruct (Str.contains ":" a) eqn:C; [reflexivity|].
  rewrite (split_without _ _ C). destruct a; discriminate.
Qed.

Lemma ip_address_shape a :
  ip_address a <> None ->
  Str.forallb digit_or_dot a = true \/ Str.contains ":" a = true.
Proof.
  unfold ip_address. destruct (ipv4_address a) eqn:E4.
  - intros _. left. eapply ipv4_shape; eauto.
  - destruct (ipv6_address a) eqn:E6; [|congruence].
    intros _. right. eapply ipv6_shape; eauto.
Qed.

End AddressFacts.

(** ** Integer pipelines *)

Module PipelineFacts.
Import Spec.

Lemma int_not_invalid v errs : Builtins.int v <> Invalid errs.
Proof.
  destruct v as [| [|] | z | f | s | l | d]; simpl; try discriminate.
  - destruct f as [| | | [|] m e]; simpl; discriminate.
  - destruct (Builtins.int_of_string s); discriminate.
Qed.

Lemma coerce_int_ok v x :
  Vol.Coerce Vol.int_type v = Ok x <-> exists z, x = VInt z /\ Builtins.int v = Ok z.
Proof.
  unfold Vol.Coerce. simpl.
  destruct (Builtins.int v) as [z | errs | e] eqn:E; simpl.
  - split; [intros [= <-]; eauto | intros (z' & -> & [= ->]); reflexivity].
  - exfalso. eapply int_not_invalid; eassumption.
  - split; [destruct e; discriminate | intros (z & _ & [=])].
Qed.

Lemma coerce_int_string s :
  Vol.Coerce Vol.int_type (VStr s) =
  match Builtins.int_of_string s with
  | Some z => Ok (VInt z)
  | None => raise_invalid CoerceInvalid "expected %s"
  end.
Proof.
  unfold Vol.Coerce. simpl. destruct (Builtins.int_of_string s); reflexivity.
Qed.

Lemma all_two (f g : validator) v :
  Vol.All [f; g] v = bind (f v) (fun y => bind (g y) (fun x => Ok x)).
Proof. reflexivity. Qed.

Lemma range_int min max z :
  Vol.Range min max (VInt z) =
  match min with
  | Some lo =>
      if z <? lo then raise_invalid RangeInvalid "value must be at least %s"
      else match max with
           | Some hi => if hi <? z then raise_invalid RangeInvalid "value must be at most %s"
                        else Ok (VInt z)
           | None => Ok (VInt z)
           end
  | None =>
      match max with
      | Some hi => if hi <? z then raise_invalid RangeInvalid "value must be at most %s"
                   else Ok (VInt z)
      | None => Ok (VInt z)
      end
  end.
Proof.
  unfold Vol.Range, Builtins.ge_int, Builtins.le_int, Builtins.compare_int; simpl.
  destruct min as [lo|], max as [hi|]; simpl;
    repeat match goal with
           | |- context [?a ?= ?b] => destruct (Z.compare_spec a b)
           | |- context [?a <? ?b] => destruct (Z.ltb_spec a b)
           end; try reflexivity; try lia.
Qed.

Lemma range_int_ok min max z x :
  Vol.Range min max (VInt z) = Ok x <-> x = VInt z /\ in_range min max z.
Proof.
  rewrite range_int. unfold in_range.
  destruct min as [lo|], max as [hi|];
    repeat match goal with
           | |- context [?a <? ?b] => destruct (Z.ltb_spec a b)
           end;
    (split; [ intros Hx; try discriminate; injection Hx as <-; repeat split; auto; lia
            | intros (-> & ? & ?); try reflexivity; lia ]).
Qed.

(** A pipeline [All(Coerce(int), Range(min, max))] returns exactly the
    integers [int] gives that lie in the range *)
Lemma int_range_ok min max v x :
  Vol.All [Vol.Coerce Vol.int_type; Vol.Range min max] v = Ok x <->
  exists z, x = VInt z /\ Builtins.int v = Ok z /\ in_range min max z.
Proof.
  simpl. destruct (Vol.Coerce Vol.int_type v) as [y | errs | e] eqn:E; simpl.
  - apply coerce_int_ok in E. destruct E as (z & -> & E).
    destruct (Vol.Range min max (VInt z)) as [y | errs | e] eqn:R; simpl.
    + apply range_int_ok in R. destruct R as (-> & R).
      split; [intros [= <-]; eauto | intros (z' & -> & E' & _); congruence].
    + split; [discriminate|]. intros (z' & -> & E' & R').
      assert (z' = z) by congruence. subst z'.
      assert (Vol.Range min max (VInt z) = Ok (VInt z)) by (apply range_int_ok; auto).
      congruence.
    + split; [discriminate|]. intros (z' & -> & E' & R').
      assert (z' = z) by congruence. subst z'.
      assert (Vol.Range min max (VInt z) = Ok (VInt z)) by (apply range_int_ok; auto).
      congruence.
  - split; [discriminate|]. intros (z & -> & E' & _).
    assert (Vol.Coerce Vol.int_type v = Ok (VInt z)) by (apply coerce_int_ok; eauto).
    congruence.
  - split; [discriminate|]. intros (z & -> & E' & _).
    assert (Vol.Coerce Vol.int_type v = Ok (VInt z)) by (apply coerce_int_ok; eauto).
    congruence.
Qed.

End PipelineFacts.

(** ** Dictionary schemas with a fixed set of keys *)

Module SchemaFacts.
Local Close Scope Z_scope.
Import Schema.

Lemma has_key_filter (P : string -> bool) name d :
  P name = true ->
  has_key name (List.filter (fun kv => P (fst kv)) d) = has_key name d.
Proof.
  intros HP. unfold has_key. induction d as [|[k v] d IH]; simpl; auto.
  destruct (P k) eqn:E; simpl.
  - rewrite IH. reflexivity.
  - rewrite IH. destruct (String.eqb_spec k name); [congruence | reflexivity].
Qed.

Lemma set_filter (P : string -> bool) name v d :
  P name = true ->
  set name v (List.filter (fun kv => P (fst kv)) d)
  = List.filter (fun kv => P (fst kv)) (set name v d).
Proof.
  intros HP. induction d as [|[k x] d IH]; simpl.
  - rewrite HP. reflexivity.
  - destruct (String.eqb_spec k name) as [->|N].
    + rewrite HP. simpl. rewrite String.eqb_refl, HP. reflexivity.
    + destruct (P k) eqn:E; simpl; rewrite ?E.
      * destruct (String.eqb_spec k name); [congruence|]. rewrite IH. reflexivity.
      * exact IH.
Qed.

(** Defaults do not look at keys outside the schema *)
Lemma insert_defaults_filter (P : string -> bool) es :
  (forall e name, In e es -> literal (fst e) = Some name -> P name = true) ->
  forall d w,
    insert_defaults es (List.filter (fun kv => P (fst kv)) d) w
    = (List.filter (fun kv => P (fst kv)) (fst (insert_defaults es d w)),
       snd (insert_defaults es d w)).
Proof.
  induction es as [|[k f] es IH]; intros HP d w; simpl.
  - reflexivity.
  - assert (HP' : forall e name, In e es -> literal (fst e) = Some name -> P name = true).
    { intros e name Hin. apply HP. right. exact Hin. }
    destruct (literal k) as [name|] eqn:L; [|apply IH; auto].
    destruct (default_of k) as [default|]; [|apply IH; auto].
    assert (Pn : P name = true) by (apply (HP (k, f)); simpl; auto).
    rewrite has_key_filter by exact Pn.
    destruct (has_key name d); [apply IH; auto|].
    unfold mbind. destruct (default w) as [v w1].
    rewrite set_filter by exact Pn. apply IH; auto.
Qed.

Lemma declared_literal s e name :
  In e (entries s) -> literal (fst e) = Some name -> declared s name = true.
Proof.
  intros Hin L. unfold declared. apply existsb_exists. exists e. split; auto.
  rewrite L. apply String.eqb_refl.
Qed.

Lemma no_candidate s k :
  fixed s = true -> declared s k = false -> relevant_candidates (entries s) k = [].
Proof.
  unfold fixed, declared, relevant_candidates.
  induction (entries s) as [|[key f] es IH]; simpl; auto.
  intros F D. apply andb_true_iff in F. destruct F as [F1 F2].
  apply orb_false_iff in D. destruct D as [D1 D2].
  destruct (literal key) as [name|]; [|discriminate].
  rewrite D1. apply IH; auto.
Qed.

(** Keys outside a fixed schema leave the loop as it was *)
Lemma validate_items_filter s :
  fixed s = true -> extra s = REMOVE_EXTRA ->
  forall items p w,
    validate_items s (List.filter (keep s) items) p w = validate_items s items p w.
Proof.
  intros F X. induction items as [|[k v] items IH]; intros p w; simpl; auto.
  unfold keep at 1. simpl. destruct (declared s k) eqn:D.
  - simpl. unfold mbind.
    destruct (select (relevant_candidates (entries s) k) k v w) as [r w1].
    destruct r as [[|skey new_key [c|errs|e]]|errs|e];
      try reflexivity; try apply IH.
    rewrite X. apply IH.
  - rewrite (no_candidate s k F D). simpl. unfold mbind, ret. simpl.
    rewrite X. apply IH.
Qed.

Theorem validate_filter s d w :
  fixed s = true -> extra s = REMOVE_EXTRA ->
  validate s (VDict (List.filter (keep s) d)) w = validate s (VDict d) w.
Proof.
  intros F X. unfold validate, mbind.
  unfold keep. rewrite (insert_defaults_filter (declared s)).
  - destruct (insert_defaults (entries s) d w) as [kvm w1]. simpl.
    change (fun kv : string * value => declared s (fst kv)) with (keep s).
    rewrite validate_items_filter by assumption. reflexivity.
  - intros e name. apply declared_literal.
Qed.

Lemma has_key_set k k' c d :
  has_key k (set k' c d) = (String.eqb k' k || has_key k d)%bool.
Proof.
  unfold has_key. induction d as [|[k0 v0] d IH]; simpl.
  - rewrite orb_false_r. reflexivity.
  - destruct (String.eqb_spec k0 k') as [->|N]; simpl.
    + destruct (String.eqb k' k); reflexivity.
    + rewrite IH. destruct (String.eqb k0 k), (String.eqb k' k); reflexivity.
Qed.

Lemma get_set k k' c d :
  get k (set k' c d) = if String.eqb k' k then Some c else get k d.
Proof.
  induction d as [|[k0 v0] d IH]; simpl.
  - reflexivity.
  - destruct (String.eqb_spec k0 k') as [->|N]; simpl.
    + destruct (String.eqb k' k); reflexivity.
    + rewrite IH. destruct (String.eqb_spec k0 k) as [->|N'].
      * destruct (String.eqb_spec k' k); [congruence | reflexivity].
      * reflexivity.
Qed.

Lemma relevant_fixed s k :
  fixed s = true ->
  relevant_candidates (entries s) k
  = List.filter (fun e => match literal (fst e) with
                          | Some name => String.eqb name k
                          | None => false
                          end) (entries s).
Proof.
  unfold fixed, relevant_candidates.
  induction (entries s) as [|[key f] es IH]; simpl; auto.
  intros F. apply andb_true_iff in F. destruct F as [F1 F2].
  destruct (literal key) as [name|]; [|discriminate].
  destruct (String.eqb name k); simpl; rewrite IH by assumption; reflexivity.
Qed.

Lemma field_declared s k :
  fixed s = true -> (declared s k = true <-> field s k <> None).
Proof.
  intros F. unfold field. rewrite (relevant_fixed s k F). unfold declared.
  induction (entries s) as [|[key f] es IH]; simpl.
  - split; [discriminate | congruence].
  - destruct key as [name d|name d|g]; simpl.
    + destruct (String.eqb name k); simpl; [split; [discriminate | auto] | exact IH].
    + destruct (String.eqb name k); simpl; [split; [discriminate | auto] | exact IH].
    + exact IH.
Qed.

Lemma field_in s k f :
  fixed s = true -> field s k = Some f ->
  exists key, In (key, f) (entries s) /\ literal key = Some k.
Proof.
  intros F. unfold field. rewrite (relevant_fixed s k F).
  induction (entries s) as [|[key g] es IH]; simpl; [discriminate|].
  destruct key as [name d|name d|h]; simpl.
  - destruct (String.eqb_spec name k) as [->|N].
    + intros [= ->]. exists (Optional k d). auto.
    + intros H. destruct (IH H) as (key & Hin & L). eauto.
  - destruct (String.eqb_spec name k) as [->|N].
    + intros [= ->]. exists (Required k d). auto.
    + intros H. destruct (IH H) as (key & Hin & L). eauto.
  - intros H. destruct (IH H) as (key & Hin & L). eauto.
Qed.

(** One turn of the loop of a fixed schema that removes extra keys *)
Lemma step_fixed s k v items p w :
  fixed s = true -> extra s = REMOVE_EXTRA ->
  validate_items s ((k, v) :: items) p w =
  match field s k with
  | None => validate_items s items p w
  | Some f =>
      let (cval, w1) := f v w in
      match cval with
      | Ok c =>
          validate_items s items (MkProgress (set k c (out p)) (errors p) (k :: found p)) w1
      | Invalid errs =>
          validate_items s items
            (MkProgress (out p) (errors p ++ List.map (qualify "dictionary value" k) errs)
                        (k :: found p)) w1
      | Raise e => (Raise e, w1)
      end
  end.
Proof.
  intros F X. simpl. unfold field, mbind. rewrite (relevant_fixed s k F).
  induction (entries s) as [|[key f] es IH]; simpl.
  - rewrite X. reflexivity.
  - destruct key as [name d|name d|g]; simpl.
    + destruct (String.eqb_spec name k) as [->|N]; [|exact IH].
      simpl. unfold mbind, ret. destruct (f v w) as [[c|errs|e] w1]; reflexivity.
    + destruct (String.eqb_spec name k) as [->|N]; [|exact IH].
      simpl. unfold mbind, ret. destruct (f v w) as [[c|errs|e] w1]; reflexivity.
    + exact IH.
Qed.

Lemma set_absent name v d :
  has_key name d = false -> set name v d = (d ++ [(name, v)])%list.
Proof.
  unfold has_key. induction d as [|[k x] d IH]; simpl; auto.
  intros H. apply orb_false_iff in H. destruct H as [H1 H2].
  rewrite H1, (IH H2). reflexivity.
Qed.

Lemma has_key_in k d : has_key k d = true <-> In k (List.map fst d).
Proof.
  unfold has_key. rewrite existsb_exists, in_map_iff. split.
  - intros (kv & Hin & E). apply String.eqb_eq in E. eauto.
  - intros (kv & E & Hin). exists kv. split; auto. apply String.eqb_eq. exact E.
Qed.

(** Defaults come after the data, under keys the data lacks *)
Lemma insert_defaults_app es : forall d w,
  exists added,
    fst (insert_defaults es d w) = (d ++ added)%list
    /\ forall k, In k (List.map fst d) -> ~ In k (List.map fst added).
Proof.
  induction es as [|[key f] es IH]; intros d w; simpl.
  - exists []. rewrite app_nil_r. auto.
  - destruct (literal key) as [name|]; [|apply IH].
    destruct (default_of key) as [default|]; [|apply IH].
    destruct (has_key name d) eqn:K; [apply IH|].
    unfold mbind. destruct (default w) as [v w1].
    rewrite set_absent by exact K.
    destruct (IH (d ++ [(name, v)])%list w1) as (added & E & N).
    exists ((name, v) :: added). split.
    + rewrite E, <- app_assoc. reflexivity.
    + intros k Hk [Hn | Hin].
      * simpl in Hn. subst k. apply has_key_in in Hk. congruence.
      * apply (N k); auto. rewrite map_app, in_app_iff. auto.
Qed.

(** Calling a schema on a dictionary, step by step *)
Lemma validate_dict s d w :
  validate s (VDict d) w =
  let (kvm, w1) := insert_defaults (entries s) d w in
  let (r, w2) := validate_items s kvm (MkProgress [] [] []) w1 in
  (match r with
   | Ok p =>
       match (errors p ++ missing_required (entries s) (found p))%list with
       | [] => Ok (VDict (out p))
       | e :: errs => Invalid (e :: errs)
       end
   | Invalid errs => Invalid errs
   | Raise e => Raise e
   end, w2).
Proof.
  unfold validate, mbind, ret.
  destruct (insert_defaults (entries s) d w) as [kvm w1].
  destruct (validate_items s kvm (MkProgress [] [] []) w1) as [[p|errs|e] w2];
    try reflexivity.
  destruct (errors p ++ missing_required (entries s) (found p))%list; reflexivity.
Qed.

Section Invariants.
Variable s : schema.
Hypothesis F : fixed s = true.
Hypothesis X : extra s = REMOVE_EXTRA.

(** Errors are never taken back *)
Lemma errors_grow items : forall p w p' w',
  validate_items s items p w = (Ok p', w') ->
  exists more, errors p' = (errors p ++ more)%list.
Proof.
  induction items as [|[k v] items IH]; intros p w p' w' H.
  - injection H as <- <-. exists []. rewrite app_nil_r. reflexivity.
  - rewrite step_fixed in H by assumption.
    destruct (field s k) as [f|]; [|eauto].
    destruct (f v w) as [[c|errs|e] w1]; [| |discriminate].
    + apply IH in H. exact H.
    + apply IH in H. destruct H as (more & ->). simpl.
      rewrite <- app_assoc. eauto.
Qed.

(** The output holds declared keys only *)
Lemma out_declared items : forall p w p' w' k,
  validate_items s items p w = (Ok p', w') ->
  has_key k (out p') = true ->
  has_key k (out p) = true \/ declared s k = true.
Proof.
  induction items as [|[k0 v] items IH]; intros p w p' w' k H K.
  - injection H as <- <-. auto.
  - rewrite step_fixed in H by assumption.
    destruct (field s k0) as [f|] eqn:E; [|eauto].
    destruct (f v w) as [[c|errs|e] w1]; [| |discriminate].
    + destruct (IH _ _ _ _ _ H K) as [K'|K']; auto.
      simpl in K'. rewrite has_key_set in K'. apply orb_true_iff in K'.
      destruct K' as [K'|K']; auto.
      apply String.eqb_eq in K'. subst k0. right.
      apply field_declared; auto. congruence.
    + destruct (IH _ _ _ _ _ H K) as [K'|K']; auto.
Qed.

(** What was put in the output stays there *)
Lemma out_kept items : forall p w p' w' k,
  validate_items s items p w = (Ok p', w') ->
  has_key k (out p) = true -> has_key k (out p') = true.
Proof.
  induction items as [|[k0 v] items IH]; intros p w p' w' k H K.
  - injection H as <- <-. auto.
  - rewrite step_fixed in H by assumption.
    destruct (field s k0) as [f|] eqn:E; [|eauto].
    destruct (f v w) as [[c|errs|e] w1]; [| |discriminate].
    + apply (IH _ _ _ _ _ H). simpl. rewrite has_key_set, K. apply orb_true_r.
    + apply (IH _ _ _ _ _ H). exact K.
Qed.

(** Keys that the data lacks keep their place in the output *)
Lemma get_frame items : forall p w p' w' k,
  validate_items s items p w = (Ok p', w') ->
  ~ In k (List.map fst items) ->
  get k (out p') = get k (out p).
Proof.
  induction items as [|[k0 v] items IH]; intros p w p' w' k H N.
  - injection H as <- <-. reflexivity.
  - rewrite step_fixed in H by assumption. simpl in N.
    assert (N0 : k0 <> k) by tauto. assert (N1 : ~ In k (List.map fst items)) by tauto.
    destruct (field s k0) as [f|] eqn:E; [|eauto].
    destruct (f v w) as [[c|errs|e] w1]; [| |discriminate].
    + rewrite (IH _ _ _ _ _ H N1). simpl. rewrite get_set.
      destruct (String.eqb_spec k0 k); [congruence | reflexivity].
    + rewrite (IH _ _ _ _ _ H N1). reflexivity.
Qed.
End Invariants.

End SchemaFacts.

(** ** Hexadecimal formatting *)

Module FormatFacts.
Import Format StrFacts.

Lemma hex_digit_cases d :
  0 <= d < 16 ->
  Validate.lower_hex (hex_digit d) = true /\ Ipaddress.hex_value (hex_digit d) = d.
Proof.
  intros H.
  assert (C : d = 0 \/ d = 1 \/ d = 2 \/ d = 3 \/ d = 4 \/ d = 5 \/ d = 6 \/ d = 7
              \/ d = 8 \/ d = 9 \/ d = 10 \/ d = 11 \/ d = 12 \/ d = 13 \/ d = 14 \/ d = 15)
    by lia.
  repeat (destruct C as [-> | C]; [split; reflexivity|]). subst. split; reflexivity.
Qed.

Lemma hex_digits_acc fuel : forall z acc,
  hex_digits fuel z acc = hex_digits fuel z "" ++ acc.
Proof.
  induction fuel as [|fuel IH]; intros z acc; simpl; auto.
  destruct (z <? 16); auto.
  rewrite (IH _ (String _ acc)), (IH _ (String _ "")), str_app_assoc. reflexivity.
Qed.

Lemma hex_digits_length fuel : forall z n,
  0 <= z < 16 ^ Z.of_nat n -> (1 <= n)%nat ->
  (String.length (hex_digits fuel z "") <= n)%nat.
Proof.
  induction fuel as [|fuel IH]; intros z n Hz Hn; simpl; [lia|].
  destruct (Z.ltb_spec z 16); simpl; [lia|].
  rewrite hex_digits_acc, str_length_app. simpl.
  destruct n as [|[|n]]; [lia | simpl in Hz; lia |].
  assert (String.length (hex_digits fuel (z / 16) "") <= S n)%nat; [|lia].
  apply IH; [|lia]. split; [apply Z.div_pos; lia|].
  apply Z.div_lt_upper_bound; [lia|].
  replace (Z.of_nat (S (S n))) with (Z.succ (Z.of_nat (S n))) in Hz by lia.
  rewrite Z.pow_succ_r in Hz by lia. lia.
Qed.

Lemma hex_digits_lower fuel : forall z,
  0 <= z -> Str.forallb Validate.lower_hex (hex_digits fuel z "") = true.
Proof.
  induction fuel as [|fuel IH]; intros z Hz; simpl; auto.
  assert (D : Validate.lower_hex (hex_digit (z mod 16)) = true).
  { apply hex_digit_cases. apply Z.mod_pos_bound. lia. }
  destruct (z <? 16); simpl.
  - rewrite D. reflexivity.
  - rewrite hex_digits_acc, forallb_app. simpl. rewrite D, IH; auto.
    apply Z.div_pos; lia.
Qed.

Lemma int16_app a : forall b acc,
  Ipaddress.int16 (a ++ b) acc = Ipaddress.int16 b (Ipaddress.int16 a acc).
Proof. induction a as [|c a IH]; simpl; auto. Qed.

Lemma hex_digits_value fuel : forall z,
  0 <= z < 16 ^ Z.of_nat fuel -> Ipaddress.int16 (hex_digits fuel z "") 0 = z.
Proof.
  induction fuel as [|fuel IH]; intros z Hz.
  - simpl in *. lia.
  - simpl hex_digits.
    assert (D : Ipaddress.hex_value (hex_digit (z mod 16)) = z mod 16).
    { apply hex_digit_cases. apply Z.mod_pos_bound. lia. }
    destruct (Z.ltb_spec z 16).
    + cbn [Ipaddress.int16]. rewrite D. rewrite Z.mod_small; lia.
    + rewrite hex_digits_acc, int16_app. cbn [Ipaddress.int16]. rewrite D, IH.
      * pose proof (Z.div_mod z 16 ltac:(lia)). lia.
      * split; [apply Z.div_pos; lia|]. apply Z.div_lt_upper_bound; [lia|].
        replace (Z.of_nat (S fuel)) with (Z.succ (Z.of_nat fuel)) in Hz by lia.
        rewrite Z.pow_succ_r in Hz by lia. lia.
Qed.

Lemma fuel_enough z :
  0 <= z -> z < 16 ^ Z.of_nat (S (Z.to_nat (Z.log2 z))).
Proof.
  intros Hz.
  replace (Z.of_nat (S (Z.to_nat (Z.log2 z)))) with (Z.succ (Z.log2 z))
    by (pose proof (Z.log2_nonneg z); lia).
  destruct (Z.eq_dec z 0) as [->|N].
  - simpl. lia.
  - pose proof (Z.log2_spec z). 
    assert (2 ^ Z.succ (Z.log2 z) <= 16 ^ Z.succ (Z.log2 z)).
    { apply Z.pow_le_mono_l. lia. }
    lia.
Qed.

Lemma format_x_nonneg z :
  0 <= z -> format_x z = hex_digits (S (Z.to_nat (Z.log2 z))) z "".
Proof.
  intros Hz. unfold format_x. rewrite Z.abs_eq by lia.
  destruct (Z.ltb_spec z 0); [lia | reflexivity].
Qed.

Lemma zeros_length n : String.length (zeros n) = n.
Proof. induction n; simpl; auto. Qed.

Lemma zeros_lower n : Str.forallb Validate.lower_hex (zeros n) = true.
Proof. induction n; simpl; auto. Qed.

Lemma zeros_value n : Ipaddress.int16 (zeros n) 0 = 0.
Proof. induction n; simpl; auto. Qed.

(** ['%032x' % z] is 32 lower-case hexadecimal digits that spell [z] *)
Theorem format_032x_spec z :
  0 <= z < 2 ^ 128 ->
  String.length (format_032x z) = 32%nat
  /\ Str.forallb Validate.lower_hex (format_032x z) = true
  /\ Ipaddress.int16 (format_032x z) 0 = z.
Proof.
  intros Hz. unfold format_032x. rewrite format_x_nonneg by lia.
  set (digits := hex_digits _ z "").
  assert (L : (String.length digits <= 32)%nat).
  { apply hex_digits_length; [|lia]. change (16 ^ Z.of_nat 32) with (2 ^ 128). exact Hz. }
  repeat split.
  - rewrite str_length_app, zeros_length. lia.
  - rewrite forallb_app, zeros_lower. apply hex_digits_lower. lia.
  - rewrite int16_app, zeros_value. apply hex_digits_value.
    split; [lia|]. apply fuel_enough. lia.
Qed.

End FormatFacts.

(** ** The integer of a version 4 UUID *)

Module UuidFacts.
Import Uuid.

Lemma fits_iff n x : 0 <= n -> (fits n x <-> 0 <= x < 2 ^ n).
Proof.
  intros Hn. unfold fits. rewrite Z.land_ones by exact Hn. split.
  - intros <-. apply Z.mod_pos_bound. apply Z.pow_pos_nonneg; lia.
  - intros H. apply Z.mod_small. exact H.
Qed.

Lemma fits_lor n a b : fits n a -> fits n b -> fits n (Z.lor a b).
Proof. unfold fits. intros Ha Hb. rewrite Z.land_lor_distr_l, Ha, Hb. reflexivity. Qed.

Lemma fits_land n a b : fits n a -> fits n (Z.land a b).
Proof.
  unfold fits. intros Ha.
  rewrite <- Z.land_assoc, (Z.land_comm b), Z.land_assoc, Ha. reflexivity.
Qed.

Lemma int_from_bytes_fits bytes : forall acc n,
  0 <= n -> fits n acc ->
  fits (n + 8 * Z.of_nat (List.length bytes))
       (List.fold_left (fun acc b => Z.lor (Z.shiftl acc 8) (Z.of_N (Byte.to_N b))) bytes acc).
Proof.
  induction bytes as [|b bytes IH]; intros acc n Hn Hacc; cbn [List.fold_left].
  - cbn [List.length Z.of_nat]. rewrite Z.mul_0_r, Z.add_0_r. exact Hacc.
  - replace (n + 8 * Z.of_nat (List.length (b :: bytes)))
      with ((n + 8) + 8 * Z.of_nat (List.length bytes)) by (cbn [List.length]; lia).
    apply IH; [lia|]. apply fits_lor.
    + apply fits_iff in Hacc; [|lia]. apply fits_iff; [lia|].
      rewrite Z.shiftl_mul_pow2 by lia. rewrite Z.pow_add_r by lia. nia.
    + apply fits_iff; [lia|]. pose proof (Byte.to_N_bounded b).
      assert (2 ^ 8 <= 2 ^ (n + 8)) by (apply Z.pow_le_mono_r; lia).
      change (2 ^ 8) with 256 in *. lia.
Qed.

Theorem UUID_int_range bytes :
  List.length bytes = 16%nat -> 0 <= UUID_int bytes 4 < 2 ^ 128.
Proof.
  intros L. apply fits_iff; [lia|]. unfold UUID_int.
  apply fits_lor; [apply fits_land, fits_lor; [apply fits_land|]|]; try reflexivity.
  unfold int_from_bytes.
  replace 128 with (0 + 8 * Z.of_nat (List.length bytes)) by (rewrite L; reflexivity).
  apply int_from_bytes_fits; [lia | reflexivity].
Qed.

Lemma os_urandom_length n w : List.length (fst (Os.os_urandom n w)) = n.
Proof. unfold Os.os_urandom. simpl. rewrite List.length_map, List.length_seq. reflexivity. Qed.

End UuidFacts.

(** ** Hexadecimal patterns *)

Module HexFacts.
Local Close Scope Z_scope.
Import Re ReSpec ReFacts StrFacts Validate.

(** A string of [lo] to [hi] lower-case hexadecimal digits matches
    [^[0-9a-f]{lo,hi}$] *)
Lemma hex_pattern_complete lo hi s :
  (lo <= String.length s <= hi)%nat -> Str.forallb lower_hex s = true ->
  Vol.Match (Cat Bol (Cat (Repeat lower_hex lo (Some hi)) Eol)) (VStr s) = Ok (VStr s).
Proof.
  intros L H. apply ImageFacts.match_ok. apply match_iff.
  exists (String.length s), "", []. cbn [matches within].
  exists O, s, []. split; [auto|].
  exists (String.length s), "", []. split.
  - exists (String.length s). 
    rewrite take_all, drop_all. repeat split; auto; lia.
  - repeat split; auto.
Qed.

Lemma uuid_match_hex s :
  String.length s = 32%nat -> Str.forallb lower_hex s = true ->
  uuid_match (VStr s) = Ok (VStr s).
Proof.
  intros L H. unfold uuid_match, Re.exactly. apply hex_pattern_complete; auto. lia.
Qed.

End HexFacts.

(** ** What validation does to the world *)

Module SchemaEffects.
Local Close Scope Z_scope.
Import Schema SchemaFacts.

Lemma validate_items_app s l1 : forall l2 p w,
  validate_items s (l1 ++ l2) p w =
  match validate_items s l1 p w with
  | (Ok p1, w1) => validate_items s l2 p1 w1
  | (Invalid errs, w1) => (Invalid errs, w1)
  | (Raise e, w1) => (Raise e, w1)
  end.
Proof.
  induction l1 as [|[k v] l1 IH]; intros l2 p w; simpl; auto.
  unfold mbind.
  destruct (select (relevant_candidates (entries s) k) k v w) as [[r|errs|e] w1]; auto.
  destruct r as [|skey new_key [c|errs|e]]; auto.
  destruct (extra s); auto.
Qed.

Lemma pure_quiet f : quiet (pure f).
Proof. intros v w. reflexivity. Qed.

Lemma validate_items_quiet s :
  fixed s = true -> extra s = REMOVE_EXTRA ->
  (forall e, In e (entries s) -> quiet (snd e)) ->
  forall items p w, snd (validate_items s items p w) = w.
Proof.
  intros F X Q. induction items as [|[k v] items IH]; intros p w; auto.
  rewrite step_fixed by assumption.
  destruct (field s k) as [f|] eqn:E; [|apply IH].
  assert (Qf : quiet f).
  { destruct (field_in s k F E) as (key & Hin & _). exact (Q _ Hin). }
  specialize (Qf v w). destruct (f v w) as [[c|errs|e] w1]; simpl in Qf; subst w1;
    try apply IH. reflexivity.
Qed.

(** Defaults that are plain values leave the world alone *)
Lemma insert_defaults_quiet es :
  (forall e default, In e es -> default_of (fst e) = Some default ->
                     forall w, snd (default w) = w) ->
  forall d w, snd (insert_defaults es d w) = w.
Proof.
  induction es as [|[key f] es IH]; intros Q d w; simpl; auto.
  assert (Q' : forall e default, In e es -> default_of (fst e) = Some default ->
                                 forall w, snd (default w) = w).
  { intros e default Hin. apply Q. right. exact Hin. }
  destruct (literal key) as [name|]; [|apply IH; auto].
  destruct (default_of key) as [default|] eqn:D; [|apply IH; auto].
  destruct (has_key name d); [apply IH; auto|].
  unfold mbind. pose proof (Q (key, f) default (or_introl eq_refl) D w) as Hw.
  destruct (default w) as [v w1]. simpl in Hw. subst w1. apply IH; auto.
Qed.

End SchemaEffects.

(** ** The Home Assistant schema and its generated [uuid] *)

Module HassFacts.
Local Close Scope Z_scope.
Import Schema SchemaFacts SchemaEffects Validate Const.

Lemma validate_world s d w :
  fixed s = true -> extra s = REMOVE_EXTRA ->
  (forall e, In e (entries s) -> quiet (snd e)) ->
  snd (validate s (VDict d) w) = snd (insert_defaults (entries s) d w).
Proof.
  intros F X Q. unfold validate, mbind.
  destruct (insert_defaults (entries s) d w) as [kvm w1].
  pose proof (@validate_items_quiet s F X Q kvm (MkProgress [] [] []) w1) as Hw.
  destruct (validate_items s kvm (MkProgress [] [] []) w1) as [[p|errs|e] w2];
    simpl in Hw; subst w2; try reflexivity.
  destruct (errors p ++ missing_required (entries s) (found p))%list; reflexivity.
Qed.

Lemma insert_defaults_cons_absent key f es name default d w :
  literal key = Some name -> default_of key = Some default ->
  has_key name d = false ->
  insert_defaults ((key, f) :: es) d w
  = insert_defaults es (d ++ [(name, fst (default w))])%list (snd (default w)).
Proof.
  intros L D K. simpl. rewrite L, D, K. unfold mbind.
  destruct (default w) as [v w1]. simpl. rewrite set_absent by exact K. reflexivity.
Qed.

Section Hass.
Variable rt : runtime.
Lemma hass_fixed : fixed (SCHEMA_HASS_CONFIG rt) = true.
Proof. reflexivity. Qed.

Lemma hass_extra : extra (SCHEMA_HASS_CONFIG rt) = REMOVE_EXTRA.
Proof. reflexivity. Qed.

Lemma hass_quiet : forall e, In e (entries (SCHEMA_HASS_CONFIG rt)) -> quiet (snd e).
Proof.
  intros e Hin. simpl in Hin.
  repeat (destruct Hin as [<- | Hin]; [apply pure_quiet|]). destruct Hin.
Qed.

Lemma hass_field_uuid : field (SCHEMA_HASS_CONFIG rt) ATTR_UUID = Some (pure uuid_match).
Proof. reflexivity. Qed.

Lemma uuid4_hex_reads w :
  Uuid.uuid4_hex w
  = (Uuid.hex (Uuid.UUID_int (fst (Os.os_urandom 16 w)) 4),
     MkWorld (urandom w) (consumed w + 16)).
Proof. reflexivity. Qed.

Lemma uuid_hex_accepted bytes :
  List.length bytes = 16 ->
  uuid_match (VStr (Uuid.hex (Uuid.UUID_int bytes 4)))
  = Ok (VStr (Uuid.hex (Uuid.UUID_int bytes 4))).
Proof.
  intros L.
  destruct (FormatFacts.format_032x_spec (UuidFacts.UUID_int_range bytes L))
    as (Hlen & Hhex & _).
  apply HexFacts.uuid_match_hex; assumption.
Qed.

Lemma fresh_uuid_eq w id w1 :
  Uuid.uuid4_hex w = (id, w1) -> fresh_uuid w = (VStr id, w1).
Proof. intros U. unfold fresh_uuid, mbind, ret. rewrite U. reflexivity. Qed.

Lemma rest_quiet :
  forall e default, In e (List.tl (entries (SCHEMA_HASS_CONFIG rt))) -> default_of (fst e) = Some default ->
                    forall w, snd (default w) = w.
Proof.
  intros e default Hin D. cbn [SCHEMA_HASS_CONFIG entries List.tl In] in Hin.
  repeat (destruct Hin as [<- | Hin];
          [cbn [default_of fst eager] in D; try discriminate; injection D as <-; reflexivity|]).
  destruct Hin.
Qed.

Lemma hass_defaults_inserted d w id w1 :
  Uuid.uuid4_hex w = (id, w1) -> has_key ATTR_UUID d = false ->
  exists added,
    insert_defaults (entries (SCHEMA_HASS_CONFIG rt)) d w = ((d ++ (ATTR_UUID, VStr id) :: added)%list, w1)
    /\ ~ In ATTR_UUID (List.map fst added).
Proof.
  intros U K.
  change (entries (SCHEMA_HASS_CONFIG rt)) with ((Optional ATTR_UUID (Some fresh_uuid), pure uuid_match)
                             :: List.tl (entries (SCHEMA_HASS_CONFIG rt))).
  rewrite insert_defaults_cons_absent with (name := ATTR_UUID) (default := fresh_uuid);
    [| reflexivity | reflexivity | exact K].
  rewrite (fresh_uuid_eq U). cbn [fst snd].
  destruct (insert_defaults_app (List.tl (entries (SCHEMA_HASS_CONFIG rt))) (d ++ [(ATTR_UUID, VStr id)])%list w1)
    as (added & Ea & Na).
  pose proof (@insert_defaults_quiet (List.tl (entries (SCHEMA_HASS_CONFIG rt))) rest_quiet
                (d ++ [(ATTR_UUID, VStr id)])%list w1) as Ew.
  destruct (insert_defaults (List.tl (entries (SCHEMA_HASS_CONFIG rt))) (d ++ [(ATTR_UUID, VStr id)])%list w1)
    as [kvm w2].
  cbn [fst snd] in Ea, Ew. subst kvm w2.
  exists added. split.
  - rewrite <- app_assoc. reflexivity.
  - apply Na. rewrite map_app, in_app_iff. right. left. reflexivity.
Qed.

Lemma hass_call_from d w id w1 :
  Uuid.uuid4_hex w = (id, w1) -> uuid_match (VStr id) = Ok (VStr id) ->
  has_key ATTR_UUID d = false ->
  snd (validate (SCHEMA_HASS_CONFIG rt) (VDict d) w) = w1
  /\ forall out, fst (validate (SCHEMA_HASS_CONFIG rt) (VDict d) w) = Ok (VDict out) ->
                 get ATTR_UUID out = Some (VStr id).
Proof.
  intros U A K.
  destruct (hass_defaults_inserted d U K) as (added & Ed & Na). split.
  - rewrite validate_world; [rewrite Ed; reflexivity | apply hass_fixed
                            | apply hass_extra | apply hass_quiet].
  - intros out H. rewrite validate_dict, Ed in H.
    rewrite validate_items_app in H.
    destruct (validate_items (SCHEMA_HASS_CONFIG rt) d (MkProgress [] [] []) w1) as [[p1|errs|e] w2];
      [|discriminate..].
    rewrite step_fixed in H by reflexivity. rewrite hass_field_uuid in H.
    unfold pure, ret in H. rewrite A in H.
    destruct (validate_items (SCHEMA_HASS_CONFIG rt) added _ w2) as [[p|errs|e] w3] eqn:V; [|discriminate..].
    destruct (errors p ++ missing_required (entries (SCHEMA_HASS_CONFIG rt)) (found p))%list; [|discriminate].
    cbn [fst] in H. injection H as <-.
    rewrite (@get_frame (SCHEMA_HASS_CONFIG rt) hass_fixed hass_extra _ _ _ _ _ ATTR_UUID V Na).
    cbn [out]. rewrite get_set, String.eqb_refl. reflexivity.
Qed.

(** One call on data without [uuid]: the factory runs once, and what it
    returned is the [uuid] of the output *)
Lemma hass_call d w :
  has_key ATTR_UUID d = false ->
  snd (validate (SCHEMA_HASS_CONFIG rt) (VDict d) w) = MkWorld (urandom w) (consumed w + 16)
  /\ forall out, fst (validate (SCHEMA_HASS_CONFIG rt) (VDict d) w) = Ok (VDict out) ->
                 get ATTR_UUID out
                 = Some (VStr (Uuid.hex (Uuid.UUID_int (fst (Os.os_urandom 16 w)) 4))).
Proof.
  apply hass_call_from.
  - apply uuid4_hex_reads.
  - apply uuid_hex_accepted. apply UuidFacts.os_urandom_length.
Qed.

(** With a [uuid] in the data the factory does not run *)
Lemma hass_call_present d w :
  has_key ATTR_UUID d = true -> snd (validate (SCHEMA_HASS_CONFIG rt) (VDict d) w) = w.
Proof.
  intros K. rewrite validate_world; [| apply hass_fixed | apply hass_extra | apply hass_quiet].
  change (entries (SCHEMA_HASS_CONFIG rt)) with ((Optional ATTR_UUID (Some fresh_uuid), pure uuid_match)
                             :: List.tl (entries (SCHEMA_HASS_CONFIG rt))).
  cbn [insert_defaults literal default_of fst]. rewrite K.
  apply insert_defaults_quiet. exact rest_quiet.
Qed.

End Hass.
End HassFacts.

(** ** Required keys and their defaults *)

Module RequiredFacts.
Local Close Scope Z_scope.
Import Schema SchemaFacts.

Lemma select_origin cands k v : forall w skey new_key cval w',
  select cands k v w = (Ok (Selected skey new_key cval), w') ->
  exists f, List.In (skey, f) cands /\ cval = fst (f v w).
Proof.
  induction cands as [|[key f] cands IH]; intros w skey new_key cval w' H; simpl in H.
  - discriminate.
  - destruct key as [name d|name d|ckey].
    + unfold mbind, ret in H. destruct (f v w) as [c w1] eqn:E.
      injection H as <- <- <- <-. exists f. rewrite E. simpl. auto.
    + unfold mbind, ret in H. destruct (f v w) as [c w1] eqn:E.
      injection H as <- <- <- <-. exists f. rewrite E. simpl. auto.
    + destruct (ckey (VStr k)) as [[| | | | nk | |]|errs|e]; try discriminate.
      * unfold mbind, ret in H. destruct (f v w) as [c w1] eqn:E.
        injection H as <- <- <- <-. exists f. rewrite E. simpl. auto.
      * destruct (IH _ _ _ _ _ H) as (g & Hin & Hc). exists g. simpl. auto.
Qed.

Lemma relevant_subset es k e : List.In e (relevant_candidates es k) -> List.In e es.
Proof.
  unfold relevant_candidates. rewrite in_app_iff, !filter_In. tauto.
Qed.

Lemma qualify_kind msg k e : kind (qualify msg k e) = kind e.
Proof. reflexivity. Qed.

(** The loop adds no error about a missing key *)
Lemma items_never_missing s :
  (forall e, List.In e (entries s) -> never_missing (snd e)) ->
  forall items p w p' w',
    validate_items s items p w = (Ok p', w') ->
    (forall e, List.In e (errors p) -> kind e <> RequiredFieldInvalid) ->
    forall e, List.In e (errors p') -> kind e <> RequiredFieldInvalid.
Proof.
  intros N. induction items as [|[k v] items IH]; intros p w p' w' H Hp.
  - injection H as <- <-. exact Hp.
  - simpl in H. unfold mbind in H.
    destruct (select (relevant_candidates (entries s) k) k v w) as [[r|errs|e0] w1] eqn:Sel;
      [| discriminate..].
    destruct r as [|skey new_key [c|errs|e0]].
    + destruct (extra s); apply (IH _ _ _ _ H); auto.
      cbn [errors]. intros e Hin. apply in_app_iff in Hin.
      destruct Hin as [Hin | [<- | []]]; [auto | discriminate].
    + apply (IH _ _ _ _ H). exact Hp.
    + apply (IH _ _ _ _ H). cbn [errors]. intros e Hin. apply in_app_iff in Hin.
      destruct Hin as [Hin | Hin]; [auto|].
      apply in_map_iff in Hin. destruct Hin as (e1 & <- & Hin).
      rewrite qualify_kind.
      destruct (select_origin _ _ _ _ Sel) as (f & Hf & Hc).
      apply relevant_subset in Hf.
      apply (N _ Hf v w errs e1); [symmetry; exact Hc | exact Hin].
    + discriminate.
Qed.

(** A schema whose validators never report a missing key, and whose
    required keys are all found, never reports one *)
Lemma validate_never_missing s :
  (forall e, List.In e (entries s) -> never_missing (snd e)) ->
  (forall d w p w',
      validate_items s (fst (insert_defaults (entries s) d w)) (MkProgress [] [] [])
                     (snd (insert_defaults (entries s) d w)) = (Ok p, w') ->
      missing_required (entries s) (found p) = []) ->
  never_missing (validate s).
Proof.
  intros N R v w errs e H Hin. unfold validate in H.
  destruct v as [| | | | | |d]; try (injection H as <-; destruct Hin as [<- | []]; discriminate).
  unfold mbind in H. specialize (R d w).
  destruct (insert_defaults (entries s) d w) as [kvm w1]. cbn [fst snd] in R.
  destruct (validate_items s kvm (MkProgress [] [] []) w1) as [[p|errs0|e0] w2] eqn:V.
  - rewrite (R p w2 eq_refl), app_nil_r in H.
    pose proof (items_never_missing s N _ _ _ V) as K. cbn [errors] in K.
    destruct (errors p) as [|e1 es]; [discriminate|].
    injection H as <-. apply K; [intros ? [] | exact Hin].
  - (* the loop itself raises no Invalid *)
    exfalso. clear - V. revert V. generalize (MkProgress [] [] []).
    revert w1. induction kvm as [|[k x] kvm IH]; intros w1 p V; simpl in V.
    + discriminate.
    + unfold mbind in V.
      destruct (select (relevant_candidates (entries s) k) k x w1) as [[r|errs|e1] w3] eqn:Sel.
      * destruct r as [|skey new_key [c|errs|e1]]; try (destruct (extra s)); eauto; discriminate.
      * clear - Sel. revert Sel. generalize (relevant_candidates (entries s) k).
        intros cands. revert w1. induction cands as [|[key f] cands IHc]; intros w1 Sel; simpl in Sel.
        -- discriminate.
        -- destruct key as [name d|name d|ckey];
             try (unfold mbind, ret in Sel; destruct (f x w1); discriminate).
           destruct (ckey (VStr k)) as [[| | | | nk | |]|errs'|e']; try discriminate; eauto.
           unfold mbind, ret in Sel; destruct (f x w1); discriminate.
      * discriminate.
  - discriminate.
Qed.

Lemma has_key_kept es : forall d w name,
  has_key name d = true -> has_key name (fst (insert_defaults es d w)) = true.
Proof.
  induction es as [|[key f] es IH]; intros d w name K; simpl; auto.
  destruct (literal key) as [n|]; [|auto].
  destruct (default_of key) as [default|]; [|auto].
  destruct (has_key n d); [auto|].
  unfold mbind. destruct (default w) as [v w1]. apply IH.
  rewrite has_key_set, K. apply orb_true_r.
Qed.

(** After the defaults, a key with a default is in the data *)
Lemma default_inserted es : forall d w key f name,
  List.In (key, f) es -> literal key = Some name -> default_of key <> None ->
  has_key name (fst (insert_defaults es d w)) = true.
Proof.
  induction es as [|[key0 f0] es IH]; intros d w key f name Hin L D; [destruct Hin|].
  destruct Hin as [E | Hin].
  - injection E as -> ->. simpl. rewrite L.
    destruct (default_of key) as [default|]; [|congruence].
    destruct (has_key name d) eqn:K; [apply has_key_kept; exact K|].
    unfold mbind. destruct (default w) as [v w1]. apply has_key_kept.
    rewrite has_key_set, String.eqb_refl. reflexivity.
  - simpl. destruct (literal key0) as [n|]; [|eapply IH; eauto].
    destruct (default_of key0) as [default|]; [|eapply IH; eauto].
    destruct (has_key n d); [eapply IH; eauto|].
    unfold mbind. destruct (default w) as [v w1]. eapply IH; eauto.
Qed.

(** The loop of a fixed schema finds every declared key of the data *)
Lemma found_complete s :
  fixed s = true -> extra s = REMOVE_EXTRA ->
  forall items p w p' w' k,
    validate_items s items p w = (Ok p', w') ->
    (List.In k (found p) \/ (List.In k (List.map fst items) /\ declared s k = true)) ->
    List.In k (found p').
Proof.
  intros F X. induction items as [|[k0 v] items IH]; intros p w p' w' k H K.
  - injection H as <- <-. destruct K as [K | [[] _]]. exact K.
  - rewrite step_fixed in H by assumption.
    destruct (field s k0) as [f|] eqn:E.
    + destruct (f v w) as [[c|errs|e] w1]; [| |discriminate];
        apply (IH _ _ _ _ k H); cbn [found];
        (destruct K as [K | [[K | K] D]]; [left; right; exact K | left; left; exact K | right; auto]).
    + apply (IH _ _ _ _ k H).
      destruct K as [K | [[K | K] D]]; [left; exact K | | right; auto].
      simpl in K. subst k0. apply field_declared in D; auto. congruence.
Qed.

(** A required key that has a default is never reported missing *)
Theorem required_with_default_found s :
  fixed s = true -> extra s = REMOVE_EXTRA ->
  (forall key f name, List.In (key, f) (entries s) -> literal key = Some name ->
                      default_of key <> None) ->
  forall d w p w',
    validate_items s (fst (insert_defaults (entries s) d w)) (MkProgress [] [] [])
                   (snd (insert_defaults (entries s) d w)) = (Ok p, w') ->
    missing_required (entries s) (found p) = [].
Proof.
  intros F X D d w p w' V. unfold missing_required.
  assert (G : forall key f name, List.In (key, f) (entries s) -> literal key = Some name ->
                                 List.existsb (String.eqb name) (found p) = true).
  { intros key f name Hin L. apply existsb_exists. exists name.
    split; [|apply String.eqb_refl].
    apply (found_complete s F X _ _ _ name V). right. split.
    - apply has_key_in. eapply default_inserted; eauto.
    - eapply declared_literal; eauto. }
  revert G. generalize (entries s). intros es. induction es as [|[key f] es IH]; intros G.
  - reflexivity.
  - simpl. rewrite IH by (intros; eapply G; eauto; right; eassumption).
    destruct key as [name d0|name d0|g]; try reflexivity.
    rewrite (G (Required name d0) f name (or_introl eq_refl) eq_refl). reflexivity.
Qed.

End RequiredFacts.

(** ** The ingress schema *)

Module IngressFacts.
Local Close Scope Z_scope.
Import Schema SchemaFacts RequiredFacts Validate Const.

Lemma pure_never_missing (f : validator) :
  (forall v errs e, f v = Invalid errs -> List.In e errs -> kind e <> RequiredFieldInvalid) ->
  never_missing (pure f).
Proof. intros H v w errs e. apply H. Qed.

Lemma coerce_kinds type v errs e :
  (forall errs', Vol.construct type v <> Invalid errs') ->
  Vol.Coerce type v = Invalid errs -> List.In e errs -> kind e = CoerceInvalid.
Proof.
  unfold Vol.Coerce. intros N.
  destruct (Vol.construct type v) as [x|errs'|[| | |]] eqn:E; try discriminate.
  - exfalso. apply (N errs'). reflexivity.
  - intros [= <-] [<- | []]. reflexivity.
  - intros [= <-] [<- | []]. reflexivity.
Qed.

Lemma network_port_kinds v errs e :
  network_port v = Invalid errs -> List.In e errs -> kind e <> RequiredFieldInvalid.
Proof.
  unfold network_port. rewrite PipelineFacts.all_two.
  destruct (Vol.Coerce Vol.int_type v) as [y|errs'|e'] eqn:E; cbv beta iota delta [bind].
  - apply PipelineFacts.coerce_int_ok in E. destruct E as (z & -> & _).
    rewrite PipelineFacts.range_int.
    destruct (Z.ltb z 1); [intros [= <-] [<- | []]; discriminate|].
    destruct (Z.ltb 65535 z); [intros [= <-] [<- | []]; discriminate | discriminate].
  - intros [= <-] Hin.
    rewrite (@coerce_kinds Vol.int_type v errs' e); [discriminate | | exact E | exact Hin].
    intros errs'' C. simpl in C.
    destruct (Builtins.int v) eqn:I; try discriminate.
    eapply PipelineFacts.int_not_invalid; eassumption.
  - discriminate.
Qed.

Section Ingress.
Variable rt : runtime.

Lemma coerce_float_kinds v errs e :
  Vol.Coerce (float_type rt) v = Invalid errs -> List.In e errs ->
  kind e <> RequiredFieldInvalid.
Proof.
  intros H Hin. rewrite (@coerce_kinds (float_type rt) v errs e); [discriminate | | exact H | exact Hin].
  intros errs'. simpl. destruct (py_float rt v); discriminate.
Qed.

Lemma session_never_missing :
  never_missing
    (validate (MkSchema [(KeyFun token, pure (Vol.Coerce (float_type rt)))] PREVENT_EXTRA)).
Proof.
  apply validate_never_missing.
  - intros e [<- | []]. apply pure_never_missing, coerce_float_kinds.
  - reflexivity.
Qed.

Lemma ports_never_missing :
  never_missing
    (validate (MkSchema [(KeyFun (Vol.Coerce (str_type rt)), pure network_port)] PREVENT_EXTRA)).
Proof.
  apply validate_never_missing.
  - intros e [<- | []]. apply pure_never_missing, network_port_kinds.
  - reflexivity.
Qed.

Lemma ingress_never_missing : never_missing (validate (SCHEMA_INGRESS_CONFIG rt)).
Proof.
  apply validate_never_missing.
  - intros e [<- | [<- | []]]; [apply session_never_missing | apply ports_never_missing].
  - apply required_with_default_found; try reflexivity.
    intros key f name [E | [E | []]] _; injection E as <- _; discriminate.
Qed.

End Ingress.
End IngressFacts.

(** ** Character classes of the patterns and of the specification *)

Module ClassFacts.
Import Validate Spec.

Lemma forallb_ext (p q : ascii -> bool) s :
  (forall c, p c = q c) -> Str.forallb p s = Str.forallb q s.
Proof. intros E. induction s as [|c s IH]; simpl; [|rewrite E, IH]; reflexivity. Qed.

Lemma namespace_class_plain c : namespace_class c = plain_segment_char c.
Proof.
  unfold namespace_class, plain_segment_char, Chars.word, braces, brace, Re.union.
  destruct (Chars.isalnum c), (Chars.is_char "_" c),
    (Chars.is_char "{" c), (Chars.is_char "}" c); reflexivity.
Qed.

Lemma name_class_segment c : name_class c = segment_char c.
Proof.
  unfold name_class, segment_char, Chars.word, braces, brace, hyphen, Re.union.
  destruct (Chars.isalnum c), (Chars.is_char "_" c), (Chars.is_char "-" c),
    (Chars.is_char "{" c), (Chars.is_char "}" c); reflexivity.
Qed.

Lemma match_returns_input pattern v x : Vol.Match pattern v = Ok x -> x = v.
Proof.
  unfold Vol.Match. destruct v; try discriminate.
  destruct (Re.match_ pattern s); [intros [= <-]; reflexivity | discriminate].
Qed.

End ClassFacts.

Module DnsFacts.
Import Validate Spec.

Lemma dns_scheme_iff url :
  Str.startswith "dns://" (Str.lower url) = true <-> dns_scheme url.
Proof. unfold Str.startswith, Str.lower, dns_scheme. apply (AddressFacts.prefix_map Chars.to_lower "dns://" url). Qed.

End DnsFacts.

(** ** List schemas of one validator *)

Module SequenceFacts.
Import Spec Validate.

Lemma validate_sequence_plain (f : validator) l : forall i out errors,
  (forall v, List.In v l -> plain_on f v) ->
  Vol.validate_sequence [f] l i out errors
  = match (errors ++ element_errors f l i)%list with
    | [] => Ok (VList (out ++ l))
    | errs => Invalid errs
    end.
Proof.
  induction l as [|v l IH]; intros i out errors P.
  - simpl. rewrite !app_nil_r. destruct errors; reflexivity.
  - assert (P' : forall v', List.In v' l -> plain_on f v') by (intros; apply P; right; assumption).
    cbn [Vol.validate_sequence Vol.validate_element element_errors].
    destruct (P v (or_introl eq_refl)) as [E | (k & msg & E)]; rewrite E.
    + rewrite IH by exact P'. cbn [app]. rewrite <- app_assoc. reflexivity.
    + unfold raise_invalid. cbn [Vol.deeper mk_invalid path].
      rewrite IH by exact P'. rewrite <- app_assoc. destruct errors; reflexivity.
Qed.

Lemma sequence_plain (f : validator) l :
  (forall v, List.In v l -> plain_on f v) ->
  Vol.Sequence [f] (VList l)
  = match element_errors f l 0 with
    | [] => Ok (VList l)
    | errs => Invalid errs
    end.
Proof.
  intros P. unfold Vol.Sequence. rewrite validate_sequence_plain by exact P.
  destruct l; reflexivity.
Qed.

Lemma element_errors_nil (f : validator) l : forall i,
  (forall v, List.In v l -> plain_on f v) ->
  (element_errors f l i = [] <-> Forall (fun v => f v = Ok v) l).
Proof.
  induction l as [|v l IH]; intros i P; simpl.
  - split; auto.
  - assert (P' : forall v', List.In v' l -> plain_on f v') by (intros; apply P; right; assumption).
    destruct (P v (or_introl eq_refl)) as [E | (k & msg & E)]; rewrite E.
    + simpl. rewrite (IH (S i) P'). split.
      * intros H. constructor; assumption.
      * intros H. inversion H; assumption.
    + split; [discriminate|]. intros H. inversion H; subst. unfold raise_invalid in E. congruence.
Qed.

Lemma strings_plain (f : validator) (l : list string) :
  (forall s, plain_on f (VStr s)) -> forall v, List.In v (List.map VStr l) -> plain_on f v.
Proof. intros P v Hin. apply in_map_iff in Hin. destruct Hin as (s & <- & _). apply P. Qed.

Lemma forall_strings (f : validator) (l : list string) :
  Forall (fun v => f v = Ok v) (List.map VStr l)
  <-> Forall (fun s => f (VStr s) = Ok (VStr s)) l.
Proof. rewrite Forall_map. reflexivity. Qed.

Lemma url_plain v : plain_on Vol.Url v.
Proof.
  unfold plain_on, Vol.Url. destruct v; eauto.
  destruct (Urllib.urlsplit s) as [parsed|]; eauto.
  destruct (_ || _)%bool; eauto.
Qed.

Lemma validate_repository_plain s : plain_on validate_repository (VStr s).
Proof.
  unfold plain_on, validate_repository.
  destruct (Re.match_ RE_REPOSITORY s) as [data|]; eauto.
  destruct (url_plain (group_value data "url")) as [E | (k & msg & E)]; rewrite E.
  - left. reflexivity.
  - right. exists k, msg. reflexivity.
Qed.

Lemma dns_url_plain s : plain_on dns_url (VStr s).
Proof.
  unfold plain_on, dns_url.
  destruct (negb _); eauto. destruct (Ipaddress.ip_address _); eauto.
Qed.

Lemma strings_hashable l : List.forallb Vol.hashable (List.map VStr l) = true.
Proof. induction l; simpl; auto. Qed.

Lemma strings_member s l :
  List.existsb (Vol.py_eqb (VStr s)) (List.map VStr l) = List.existsb (String.eqb s) l.
Proof. induction l as [|t l IH]; simpl; [|rewrite IH]; reflexivity. Qed.

Lemma strings_duplicates l : Vol.has_duplicates (List.map VStr l) = has_repeat l.
Proof.
  induction l as [|s l IH]; simpl; auto. rewrite IH, strings_member. reflexivity.
Qed.

Lemma has_repeat_nodup l : has_repeat l = false <-> NoDup l.
Proof.
  induction l as [|s l IH]; simpl.
  - split; [constructor | reflexivity].
  - rewrite orb_false_iff, IH. split.
    + intros [H1 H2]. constructor; [|assumption].
      intros Hin. assert (X : List.existsb (String.eqb s) l = true); [|congruence].
      apply existsb_exists. exists s. split; [assumption | apply String.eqb_refl].
    + intros H. inversion H as [|? ? Hn Hd]; subst. split; [|assumption].
      destruct (List.existsb (String.eqb s) l) eqn:E; [|reflexivity].
      apply existsb_exists in E. destruct E as (t & Hin & E).
      apply String.eqb_eq in E. subst t. contradiction.
Qed.

Lemma unique_strings l :
  Vol.Unique (VList (List.map VStr l))
  = if has_repeat l then raise_invalid InvalidBase "contains duplicate items: {0}"
    else Ok (VList (List.map VStr l)).
Proof.
  unfold Vol.Unique. rewrite strings_hashable, strings_duplicates. reflexivity.
Qed.

End SequenceFacts.

(** ** The repository pattern *)

Module RepositoryFacts.
Local Close Scope Z_scope.
Import Re ReSpec ReFacts StrFacts Validate Spec.

Lemma contains_app c a b :
  Str.contains c (a ++ b) = (Str.contains c a || Str.contains c b)%bool.
Proof.
  unfold Str.contains. induction a as [|d a IH]; simpl; auto.
  rewrite IH, orb_assoc. reflexivity.
Qed.

Lemma not_hash_iff u : Str.forallb not_hash u = true <-> Str.contains "#" u = false.
Proof.
  unfold Str.contains, not_hash, Re.none_of, Chars.is_char.
  induction u as [|c u IH]; simpl; [split; auto|].
  rewrite andb_true_iff, orb_false_iff, IH, negb_true_iff. reflexivity.
Qed.

Lemma contains_cons c d a :
  Str.contains c (String d a) = (Ascii.eqb c d || Str.contains c a)%bool.
Proof. reflexivity. Qed.

(** A string splits at its first [#] in one way only *)
Lemma hash_split_unique u : forall u' b b',
  Str.contains "#" u = false -> Str.contains "#" u' = false ->
  u ++ String "#" b = u' ++ String "#" b' -> u = u' /\ b = b'.
Proof.
  induction u as [|c u IH]; intros [|c' u'] b b' H H' E; cbn [append] in E.
  - injection E as ->. auto.
  - injection E as E _. subst c'. rewrite contains_cons, Ascii.eqb_refl in H'. discriminate.
  - injection E as E _. subst c. rewrite contains_cons, Ascii.eqb_refl in H. discriminate.
  - injection E as -> E. rewrite contains_cons in H, H'. apply orb_false_iff in H, H'.
    destruct (IH u' b b' (proj2 H) (proj2 H') E) as [-> ->]. auto.
Qed.

Lemma ends_in_newline a : Str.last (a ++ Demo.nl) = Some Chars.newline.
Proof. apply last_app_char. Qed.

(** The ways [RE_REPOSITORY] matches: the url group is a non-empty prefix
    without [#], followed by the end of the line or by [#], a branch and
    the end of the line *)
Lemma repository_match_shape s e s' g :
  matches RE_REPOSITORY 0 s [] e s' g ->
  exists url rest,
    s = url ++ rest /\ url <> "" /\ Str.contains "#" url = false
    /\ lookup "url" g = Some (O, String.length url)
    /\ (at_eol rest = true
        \/ exists branch tail,
            rest = String "#" (branch ++ tail) /\ branch <> ""
            /\ Str.forallb branch_char branch = true /\ at_eol tail = true).
Proof.
  unfold RE_REPOSITORY, Re.plus, Re.lit. cbn [matches within].
  intros (i1 & s1 & g1 & (_ & -> & -> & ->) & i2 & s2 & g2
          & (g0 & (n & Hn & _ & Hlen & Hall & -> & -> & ->) & ->) & i3 & s3 & g3
          & Hopt & Heol & _ & -> & ->).
  exists (Str.take n s), (Str.drop n s).
  rewrite take_drop, length_take by exact Hlen.
  split; [reflexivity|]. split; [apply take_nonempty; assumption|].
  split; [apply not_hash_iff; exact Hall|].
  destruct Hopt as [(i4 & s4 & g4 & (a & Hs & Ha & -> & ->)
                     & g5 & (m & Hm & _ & Hlen' & Hall' & -> & -> & ->) & ->)
                   | (-> & -> & ->)].
  - split; [reflexivity|]. right.
    apply Ascii.eqb_eq in Ha. subst a.
    exists (Str.take m s4), (Str.drop m s4). rewrite take_drop.
    repeat split; auto. apply take_nonempty; assumption.
  - split; [reflexivity|]. left. exact Heol.
Qed.

Lemma group_url data s n :
  subject data = s -> lookup "url" (spans data) = Some (O, n) ->
  group_value data "url" = VStr (Str.take n s).
Proof.
  intros <- L. unfold group_value, group. rewrite L. rewrite Nat.sub_0_r. reflexivity.
Qed.

(** A reference [url#branch] is matched by the pattern *)
Lemma reference_matches url rest :
  url <> "" -> Str.contains "#" url = false ->
  (rest = "" \/ exists branch, branch <> "" /\ Str.forallb branch_char branch = true
                              /\ rest = String "#" branch) ->
  match_ RE_REPOSITORY (url ++ rest) <> None.
Proof.
  intros Hu Hc Hr. apply match_iff.
  unfold RE_REPOSITORY, Re.plus, Re.lit. cbn [matches within].
  assert (Hurl : exists n, (1 <= n)%nat /\ True /\ (n <= String.length (url ++ rest))%nat
                          /\ Str.forallb (none_of (Chars.is_char "#")) (Str.take n (url ++ rest)) = true
                          /\ String.length url = (0 + n)%nat /\ rest = Str.drop n (url ++ rest)
                          /\ @nil (string * (nat * nat)) = []).
  { exists (String.length url). rewrite take_app, drop_app, str_length_app.
    repeat split; auto; try lia; [apply nonempty_length; assumption|].
    apply not_hash_iff. exact Hc. }
  destruct Hr as [-> | (branch & Hb & Hall & ->)].
  - exists (String.length url), "", [("url", (O, String.length url))].
    exists O, (url ++ ""), []. split; [auto|].
    exists (String.length url), "", [("url", (O, String.length url))]. split.
    { exists []. split; [exact Hurl | reflexivity]. }
    exists (String.length url), "", [("url", (O, String.length url))]. split; auto.
  - exists (S (String.length url) + String.length branch)%nat, "",
      [("branch", (S (String.length url), (S (String.length url) + String.length branch)%nat));
       ("url", (O, String.length url))].
    exists O, (url ++ String "#" branch), []. split; [auto|].
    exists (String.length url), (String "#" branch), [("url", (O, String.length url))]. split.
    { exists []. split; [exact Hurl | reflexivity]. }
    eexists _, "", _. split; [|repeat split; reflexivity].
    left. exists (S (String.length url)), branch, [("url", (O, String.length url))]. split.
    { exists "#"%char. repeat split; auto. }
    exists [("url", (O, String.length url))]. split; [|reflexivity].
    exists (String.length branch). rewrite take_all, drop_all.
    repeat split; auto; try lia. apply nonempty_length; assumption.
Qed.

End RepositoryFacts.

Module RepositoryTheorems.
Local Close Scope Z_scope.
Import Re ReSpec ReFacts StrFacts Validate Spec RepositoryFacts.

Lemma eol_without_newline s a rest :
  Str.last s <> Some Chars.newline -> s = a ++ rest -> at_eol rest = true -> rest = "".
Proof.
  intros L -> H. apply at_eol_iff in H. destruct H as [-> | ->]; [reflexivity|].
  exfalso. apply L. apply last_app_char.
Qed.

(** What a successful match of [RE_REPOSITORY] says about a string that
    does not end in a newline *)
Lemma match_reference s data :
  Str.last s <> Some Chars.newline ->
  match_ RE_REPOSITORY s = Some data ->
  exists url,
    group_value data "url" = VStr url /\ url <> "" /\ Str.contains "#" url = false
    /\ (s = url \/ exists branch, branch <> "" /\ Str.forallb branch_char branch = true
                                 /\ s = url ++ "#" ++ branch).
Proof.
  intros L M. apply match_sound in M. destruct M as (Hs & s' & M).
  apply repository_match_shape in M.
  destruct M as (url & rest & E & Hu & Hc & Hl & Hr).
  exists url. split; [|split; [assumption | split; [assumption|]]].
  - rewrite (@group_url data s _ Hs Hl), E. f_equal. apply take_app.
  - destruct Hr as [Heol | (branch & tail & -> & Hb & Hall & Heol)].
    + left. rewrite (@eol_without_newline s url rest L E Heol) in E.
      rewrite str_app_empty_r in E. exact E.
    + right. exists branch. repeat split; auto.
      assert (T : tail = "").
      { apply (@eol_without_newline s (url ++ String "#" branch) tail L); [|exact Heol].
        rewrite E, str_app_assoc. reflexivity. }
      subst tail. rewrite str_app_empty_r in E. exact E.
Qed.

(** The url of a reference is the part before the first [#] *)
Lemma reference_url_unique s url url' :
  Str.contains "#" url = false -> Str.contains "#" url' = false ->
  (s = url \/ exists branch, s = url ++ "#" ++ branch) ->
  (s = url' \/ exists branch, s = url' ++ "#" ++ branch) ->
  url = url'.
Proof.
  intros Hc Hc' [-> | (b & ->)] [E | (b' & E)].
  - exact E.
  - rewrite E, contains_app in Hc. cbn [append] in Hc.
    rewrite contains_cons, Ascii.eqb_refl, orb_true_r in Hc. discriminate.
  - rewrite <- E, contains_app in Hc'. cbn [append] in Hc'.
    rewrite contains_cons, Ascii.eqb_refl, orb_true_r in Hc'. discriminate.
  - cbn [append] in E. apply (@hash_split_unique url url' b b' Hc Hc') in E. apply E.
Qed.

End RepositoryTheorems.

(** ** The generated [uuid] *)

Module UuidDefault.
Local Close Scope Z_scope.
Import Schema SchemaFacts SchemaEffects HassFacts Validate Const.

(** Two different UUIDs are written differently *)
Lemma hex_injective b1 b2 :
  List.length b1 = 16%nat -> List.length b2 = 16%nat ->
  Uuid.hex (Uuid.UUID_int b1 4) = Uuid.hex (Uuid.UUID_int b2 4) ->
  Uuid.UUID_int b1 4 = Uuid.UUID_int b2 4.
Proof.
  intros L1 L2 E. unfold Uuid.hex in E.
  destruct (FormatFacts.format_032x_spec (UuidFacts.UUID_int_range b1 L1)) as (_ & _ & V1).
  destruct (FormatFacts.format_032x_spec (UuidFacts.UUID_int_range b2 L2)) as (_ & _ & V2).
  rewrite <- V1, <- V2, E. reflexivity.
Qed.

(** The empty configuration validates: every default passes its validator *)
Lemma hass_empty_config rt w :
  fst (validate (SCHEMA_HASS_CONFIG rt) (VDict []) w)
  = Ok (VDict [(ATTR_UUID, VStr (Uuid.hex (Uuid.UUID_int (fst (Os.os_urandom 16 w)) 4)));
               (ATTR_BOOT, VBool true); (ATTR_PORT, VInt 8123);
               (ATTR_SSL, VBool false); (ATTR_WATCHDOG, VBool true);
               (ATTR_WAIT_BOOT, VInt 600);
               (ATTR_AUDIO_OUTPUT, VNone); (ATTR_AUDIO_INPUT, VNone)]).
Proof.
  pose proof (@uuid_hex_accepted _ (UuidFacts.os_urandom_length 16 w)) as A.
  pose proof (uuid4_hex_reads w) as U. revert A U.
  generalize (Uuid.hex (Uuid.UUID_int (fst (Os.os_urandom 16 w)) 4)).
  generalize (MkWorld (urandom w) (consumed w + 16)).
  intros w1 id A U.
  rewrite validate_dict.
  change (entries (SCHEMA_HASS_CONFIG rt))
    with ((Optional ATTR_UUID (Some fresh_uuid), pure uuid_match)
            :: List.tl (entries (SCHEMA_HASS_CONFIG rt))) at 1.
  rewrite insert_defaults_cons_absent with (name := ATTR_UUID) (default := fresh_uuid);
    [| reflexivity | reflexivity | reflexivity].
  rewrite (fresh_uuid_eq U). cbn [fst snd app].
  change (insert_defaults (List.tl (entries (SCHEMA_HASS_CONFIG rt))) [(ATTR_UUID, VStr id)] w1)
    with ([(ATTR_UUID, VStr id); (ATTR_BOOT, VBool true); (ATTR_PORT, VInt 8123);
           (ATTR_SSL, VBool false); (ATTR_WATCHDOG, VBool true);
           (ATTR_WAIT_BOOT, VInt 600);
           (ATTR_AUDIO_OUTPUT, VNone); (ATTR_AUDIO_INPUT, VNone)], w1).
  cbv beta iota.
  rewrite step_fixed by reflexivity. rewrite hass_field_uuid.
  unfold pure at 1. unfold ret at 1. rewrite A.
  reflexivity.
Qed.

End UuidDefault.

(** ** The fields named [wait_boot] *)

Section WaitBoot.
Import Validate Const PipelineFacts.

Lemma supervisor_wait_boot_field rt v w :
  Schema.field_result (SCHEMA_SUPERVISOR_CONFIG rt) ATTR_WAIT_BOOT v w
  = Some (wait_boot v).
Proof. reflexivity. Qed.

Lemma hass_wait_boot_field rt v w :
  Schema.field_result (SCHEMA_HASS_CONFIG rt) ATTR_WAIT_BOOT v w
  = Some (Vol.All [Vol.Coerce Vol.int_type; Vol.Range (Some 60) None] v).
Proof. reflexivity. Qed.

Lemma some_inj (A : Type) (a b : A) : Some a = Some b <-> a = b.
Proof. split; [intros [= ->] | intros ->]; reflexivity. Qed.

End WaitBoot.

(** ** Dictionary schemas of one validated key *)

Module DynamicFacts.
Local Close Scope Z_scope.
Import Schema SchemaFacts Shape.

(** Errors are never taken back, whatever the schema *)
Lemma errors_extend s items : forall p w p' w',
  validate_items s items p w = (Ok p', w') ->
  exists more, errors p' = (errors p ++ more)%list.
Proof.
  induction items as [|[k v] items IH]; intros p w p' w' H.
  - injection H as <- <-. exists []. rewrite app_nil_r. reflexivity.
  - simpl in H. unfold mbind in H.
    destruct (select (relevant_candidates (entries s) k) k v w) as [r w1].
    destruct r as [[|skey new_key [c|errs|e]]|errs|e]; try discriminate.
    + destruct (extra s).
      * apply IH in H. destruct H as (more & ->). simpl. rewrite <- app_assoc. eauto.
      * apply IH in H. exact H.
      * apply IH in H. exact H.
    + apply IH in H. exact H.
    + apply IH in H. destruct H as (more & ->). simpl. rewrite <- app_assoc. eauto.
Qed.

Section Dynamic.
Variables kf vf : validator.
Local Notation "'dyn'" := (MkSchema [(KeyFun kf, pure vf)] PREVENT_EXTRA).

(** One turn of the loop of a schema of one validated key *)
Lemma dyn_step k v items p w :
  validate_items dyn ((k, v) :: items) p w =
  match kf (VStr k) with
  | Ok (VStr new_key) =>
      match vf v with
      | Ok c =>
          validate_items dyn items (MkProgress (set new_key c (out p)) (errors p) (found p)) w
      | Invalid errs =>
          validate_items dyn items
            (MkProgress (out p) (errors p ++ List.map (qualify "dictionary value" k) errs)
                        (found p)) w
      | Raise e => (Raise e, w)
      end
  | Ok _ => (Raise TypeError, w)
  | Invalid _ =>
      validate_items dyn items (MkProgress (out p) (errors p ++ [extra_key k]) (found p)) w
  | Raise e => (Raise e, w)
  end.
Proof.
  cbn [validate_items relevant_candidates entries List.filter literal fst app select].
  unfold mbind, ret, pure.
  destruct (kf (VStr k)) as [[| | | |nk| |]|errs|e]; try reflexivity.
  destruct (vf v) as [c|errs|e]; reflexivity.
Qed.

Lemma dyn_validate d w :
  validate dyn (VDict d) w =
  match validate_items dyn d (MkProgress [] [] []) w with
  | (Ok p, w') =>
      (match errors p with [] => Ok (VDict (out p)) | errs => Invalid errs end, w')
  | (Invalid errs, w') => (Invalid errs, w')
  | (Raise e, w') => (Raise e, w')
  end.
Proof.
  rewrite validate_dict. cbn [insert_defaults entries literal default_of]. unfold ret.
  destruct (validate_items dyn d (MkProgress [] [] []) w) as [[p|errs|e] w'];
    try reflexivity.
  cbn [missing_required entries List.flat_map fst app]. rewrite app_nil_r.
  destruct (errors p); reflexivity.
Qed.


Lemma dyn_items_accept items : forall p w outl,
  NoDup (List.map fst items) ->
  (forall k, In k (List.map fst items) -> has_key k (out p) = false) ->
  Forall2 (item_ok kf vf) items outl ->
  validate_items dyn items p w
  = (Ok (MkProgress (out p ++ outl) (errors p) (found p)), w).
Proof.
  induction items as [|[k v] items IH]; intros p w outl ND Hfresh HF.
  - inversion HF; subst. simpl. rewrite app_nil_r. destruct p; reflexivity.
  - inversion HF as [|kv kv' l l' [E1 [E2 E3]] HF']; subst. destruct kv' as [k' c].
    simpl in E1, E2, E3. subst k'.
    rewrite dyn_step, E2, E3.
    inversion ND as [|? ? Hnotin ND']; subst.
    rewrite set_absent by (apply Hfresh; left; reflexivity).
    rewrite (IH _ w l'); auto.
    + cbn [out errors found]. rewrite <- app_assoc. reflexivity.
    + intros k0 Hin. cbn [out]. unfold has_key. rewrite existsb_app.
      fold (has_key k0 (out p)). rewrite Hfresh by (right; exact Hin).
      simpl. rewrite orb_false_r. apply String.eqb_neq. intros ->. contradiction.
Qed.

Lemma dyn_items_accepted items : forall p w p' w',
  keeps_strings kf -> reports vf ->
  NoDup (List.map fst items) ->
  (forall k, In k (List.map fst items) -> has_key k (out p) = false) ->
  validate_items dyn items p w = (Ok p', w') -> errors p' = errors p ->
  exists outl, Forall2 (item_ok kf vf) items outl /\ out p' = (out p ++ outl)%list.
Proof.
  induction items as [|[k v] items IH]; intros p w p' w' K R ND Hfresh H E.
  - injection H as <- <-. exists []. rewrite app_nil_r. auto.
  - rewrite dyn_step in H.
    inversion ND as [|? ? Hnotin ND']; subst.
    destruct (kf (VStr k)) as [x|errs|e] eqn:Ek; [| |discriminate].
    + pose proof (K _ _ Ek) as ->.
      destruct (vf v) as [c|errs|e] eqn:Ev; [| |discriminate].
      * rewrite set_absent in H by (apply Hfresh; left; reflexivity).
        apply IH in H; auto.
        -- destruct H as (outl & HF & Eo). cbn [out] in Eo.
           exists ((k, c) :: outl). split.
           ++ constructor; auto. repeat split; auto.
           ++ rewrite Eo, <- app_assoc. reflexivity.
        -- intros k0 Hin. cbn [out]. unfold has_key. rewrite existsb_app.
           fold (has_key k0 (out p)). rewrite Hfresh by (right; exact Hin).
           simpl. rewrite orb_false_r. apply String.eqb_neq. intros ->. contradiction.
      * exfalso. destruct (errors_extend _ _ _ _ H) as (more & Em). cbn [errors] in Em.
        rewrite E, <- app_assoc in Em.
        apply (f_equal (@List.length invalid)) in Em.
        rewrite !length_app, length_map in Em.
        destruct errs; [exact (R v Ev) | simpl in Em; lia].
    + exfalso. destruct (errors_extend _ _ _ _ H) as (more & Em). cbn [errors] in Em.
      rewrite E, <- app_assoc in Em.
      apply (f_equal (@List.length invalid)) in Em.
      rewrite !length_app in Em. simpl in Em. lia.
Qed.

(** A dictionary of distinct keys is accepted exactly when every key and
    every value is, and it comes back item by item *)
Lemma dyn_accepts d w out :
  keeps_strings kf -> reports vf -> NoDup (List.map fst d) ->
  (fst (validate dyn (VDict d) w) = Ok (VDict out) <-> Forall2 (item_ok kf vf) d out).
Proof.
  intros K R ND. rewrite dyn_validate. split.
  - destruct (validate_items dyn d (MkProgress [] [] []) w) as [[p|errs|e] w'] eqn:V;
      try discriminate.
    destruct (errors p) eqn:E; [|discriminate]. cbn [fst]. intros [= <-].
    destruct (@dyn_items_accepted d (MkProgress [] [] []) w p w' K R ND
                (fun _ _ => eq_refl) V E)
      as (outl & HF & Eo).
    rewrite Eo. exact HF.
  - intros HF.
    rewrite (@dyn_items_accept d (MkProgress [] [] []) w out ND (fun _ _ => eq_refl) HF).
    reflexivity.
Qed.







End Dynamic.
End DynamicFacts.

(** ** The hexadecimal and port patterns, character by character *)

Module HexShape.
Local Close Scope Z_scope.
Import Re ReSpec ReFacts StrFacts Validate Shape.

Lemma hex_pattern_iff lo hi s :
  Re.match_ (Cat Bol (Cat (Repeat lower_hex lo (Some hi)) Eol)) s <> None <->
  up_to_newline (hex_string lo hi) s.
Proof.
  rewrite match_iff. unfold up_to_newline, hex_string. cbn [matches within]. split.
  - intros (e & s' & g & i1 & s1 & g1 & (_ & -> & -> & ->) & i2 & s2 & g2
            & (n & Hn & Hhi & Hlen & Hall & -> & -> & ->) & Heol & _).
    exists (Str.take n s), (Str.drop n s). rewrite length_take by exact Hlen.
    repeat split; auto.
    + symmetry. apply take_drop.
    + apply at_eol_iff. exact Heol.
  - intros (h & tail & -> & ([Hlo Hhi] & Hall) & Htail).
    exists (String.length h), tail, [].
    exists O, (h ++ tail), []. split; [auto|].
    exists (String.length h), tail, []. split.
    { exists (String.length h). rewrite take_app, drop_app, str_length_app.
      repeat split; auto; try lia. }
    repeat split; auto. apply at_eol_iff. exact Htail.
Qed.

Lemma match_accepts pattern s x :
  Vol.Match pattern (VStr s) = Ok x <-> x = VStr s /\ Re.match_ pattern s <> None.
Proof.
  unfold Vol.Match. destruct (Re.match_ pattern s); split.
  - intros [= <-]. split; [reflexivity | discriminate].
  - intros [-> _]. reflexivity.
  - discriminate.
  - intros [_ H]. congruence.
Qed.

Lemma hex_match lo hi s x :
  Vol.Match (Cat Bol (Cat (Repeat lower_hex lo (Some hi)) Eol)) (VStr s) = Ok x
  <-> x = VStr s /\ up_to_newline (hex_string lo hi) s.
Proof. rewrite match_accepts, hex_pattern_iff. reflexivity. Qed.

Lemma match_not_string pattern v :
  (forall s, v <> VStr s) ->
  Vol.Match pattern v = raise_invalid MatchInvalid "expected string or buffer".
Proof. intros H. destruct v; try reflexivity. exfalso. exact (H s eq_refl). Qed.

Lemma port_key_pattern_iff s :
  Re.match_ port_key_pattern s <> None <-> up_to_newline port_spec s.
Proof.
  rewrite match_iff.
  unfold up_to_newline, port_spec, port_key_pattern, slash_tcp, slash_udp, Re.plus, Re.lit.
  cbn [matches within]. split.
  - intros (e & s' & g & i1 & s1 & g1 & (_ & -> & -> & ->) & i2 & s2 & g2
            & (n & Hn & _ & Hlen & Hall & -> & -> & ->) & i3 & s3 & g3 & Hopt & Heol & _).
    assert (Hsuffix : exists suffix, Str.drop n s = suffix ++ s3
                        /\ (suffix = "" \/ suffix = "/tcp" \/ suffix = "/udp")).
    { destruct Hopt as [[H|H]|H].
      - destruct H as (j1 & t1 & h1 & (a & E1 & A1 & _ & _) & j2 & t2 & h2
                       & (b & E2 & A2 & _ & _) & j3 & t3 & h3
                       & (c & E3 & A3 & _ & _) & (d & E4 & A4 & _ & _)).
        apply Ascii.eqb_eq in A1, A2, A3, A4. subst a b c d.
        exists "/tcp". rewrite E1, E2, E3, E4. auto.
      - destruct H as (j1 & t1 & h1 & (a & E1 & A1 & _ & _) & j2 & t2 & h2
                       & (b & E2 & A2 & _ & _) & j3 & t3 & h3
                       & (c & E3 & A3 & _ & _) & (d & E4 & A4 & _ & _)).
        apply Ascii.eqb_eq in A1, A2, A3, A4. subst a b c d.
        exists "/udp". rewrite E1, E2, E3, E4. auto.
      - destruct H as (_ & -> & _). exists "". auto. }
    destruct Hsuffix as (suffix & Es & Hs).
    exists (Str.take n s ++ suffix), s3. split; [|split].
    + rewrite str_app_assoc, <- Es. symmetry. apply take_drop.
    + exists (Str.take n s), suffix. repeat split; auto. apply take_nonempty; auto.
    + apply at_eol_iff. exact Heol.
  - intros (h & tail & -> & (digits & suffix & -> & Hd & Hall & Hs) & Htail).
    rewrite str_app_assoc.
    exists (String.length digits + String.length suffix)%nat, tail, [].
    exists O, (digits ++ suffix ++ tail), []. split; [auto|].
    exists (String.length digits), (suffix ++ tail), []. split.
    { exists (String.length digits). rewrite take_app, drop_app, str_length_app.
      repeat split; auto; try lia. apply nonempty_length; auto. }
    exists (String.length digits + String.length suffix)%nat, tail, []. split.
    { set (n := String.length digits).
      destruct Hs as [-> | [-> | ->]].
      - right. simpl. rewrite Nat.add_0_r. auto.
      - left. left. simpl.
        exists (S n), ("tcp" ++ tail), []. split; [exists "/"%char; auto|].
        exists (S (S n)), ("cp" ++ tail), []. split; [exists "t"%char; auto|].
        exists (S (S (S n))), ("p" ++ tail), []. split; [exists "c"%char; auto|].
        exists "p"%char. repeat split; auto. lia.
      - left. right. simpl.
        exists (S n), ("udp" ++ tail), []. split; [exists "/"%char; auto|].
        exists (S (S n)), ("dp" ++ tail), []. split; [exists "u"%char; auto|].
        exists (S (S (S n))), ("p" ++ tail), []. split; [exists "d"%char; auto|].
        exists "p"%char. repeat split; auto. lia. }
    repeat split; auto. apply at_eol_iff. exact Htail.
Qed.

End HexShape.

(** ** Port maps *)

Module PortMapFacts.
Import Schema SchemaFacts Shape DynamicFacts HexShape Validate.

Lemma forall2_equiv (A B : Type) (R R' : A -> B -> Prop) l l' :
  (forall a b, R a b <-> R' a b) -> (Forall2 R l l' <-> Forall2 R' l l').
Proof.
  intros H. split; intros HF; induction HF; constructor; auto; apply H; auto.
Qed.

Lemma value_none_dec (v : value) : v = VNone \/ v <> VNone.
Proof. destruct v; auto; right; discriminate. Qed.

Lemma coerce_str_string rt s : Vol.Coerce (str_type rt) (VStr s) = Ok (VStr s).
Proof. reflexivity. Qed.

Lemma coerce_str_ok rt v x :
  Vol.Coerce (str_type rt) v = Ok x <-> Vol.construct (str_type rt) v = Ok x.
Proof. unfold Vol.Coerce. cbn [str_type Vol.construct]. reflexivity. Qed.

Lemma coerce_str_total rt v : exists s, Vol.Coerce (str_type rt) v = Ok (VStr s).
Proof. unfold Vol.Coerce. cbn [str_type Vol.construct]. eauto. Qed.

Lemma port_key_string rt k :
  port_key rt (VStr k) = Vol.Match port_key_pattern (VStr k).
Proof.
  unfold port_key. rewrite PipelineFacts.all_two, coerce_str_string.
  cbv beta iota delta [bind]. destruct (Vol.Match port_key_pattern (VStr k)); reflexivity.
Qed.

Lemma port_key_accepts rt k x :
  port_key rt (VStr k) = Ok x <-> x = VStr k /\ up_to_newline port_spec k.
Proof. rewrite port_key_string, match_accepts, port_key_pattern_iff. reflexivity. Qed.

Lemma port_key_keeps rt : keeps_strings (port_key rt).
Proof. intros s x H. apply port_key_accepts in H. tauto. Qed.


Lemma match_keeps pattern : keeps_strings (Vol.Match pattern).
Proof. intros s x H. apply match_accepts in H. tauto. Qed.

Lemma match_reports pattern : reports (Vol.Match pattern).
Proof. intros v. unfold Vol.Match. destruct v; try discriminate. destruct (Re.match_ pattern s); discriminate. Qed.

Lemma coerce_str_reports rt : reports (Vol.Coerce (str_type rt)).
Proof. intros v. destruct (coerce_str_total rt v) as (s & ->). discriminate. Qed.

(** What [network_port] raises when it fails: one error about the value *)
Lemma network_port_invalid v errs :
  network_port v = Invalid errs -> exists k msg, errs = [mk_invalid k msg].
Proof.
  unfold network_port. rewrite PipelineFacts.all_two. unfold Vol.Coerce.
  cbn [Vol.int_type Vol.construct].
  destruct (Builtins.int v) as [z|errs0|e] eqn:E; cbv beta iota delta [bind].
  - rewrite PipelineFacts.range_int.
    destruct (z <? 1); [intros [= <-]; eauto|].
    destruct (65535 <? z); [intros [= <-]; eauto | discriminate].
  - exfalso. exact (PipelineFacts.int_not_invalid _ E).
  - destruct e; try discriminate; intros [= <-]; eauto.
Qed.

Lemma maybe_not_none (f : validator) v :
  v <> VNone ->
  Vol.Maybe f v = match f v with
                  | Invalid (e :: errs) =>
                      match path e with
                      | [] => raise_invalid ScalarInvalid "not a valid value"
                      | _ => Invalid (e :: errs)
                      end
                  | o => o
                  end.
Proof. intros N. destruct v; try reflexivity. congruence. Qed.

Lemma maybe_ok (f : validator) v c :
  Vol.Maybe f v = Ok c <-> (v = VNone /\ c = VNone) \/ (v <> VNone /\ f v = Ok c).
Proof.
  destruct (value_none_dec v) as [->|N].
  - simpl. split.
    + intros [= <-]. auto.
    + intros [[_ ->]|[N _]]; congruence.
  - rewrite maybe_not_none by exact N. split.
    + intros H. right. split; [exact N|].
      destruct (f v) as [y|[|e errs]|e]; try discriminate; [exact H|].
      destruct (path e); discriminate.
    + intros [[-> _]|[_ ->]]; congruence.
Qed.

Lemma maybe_port v c : Vol.Maybe network_port v = Ok c <-> optional_port v c.
Proof.
  rewrite maybe_ok. unfold optional_port. split.
  - intros [H | [N H]]; [left; exact H | right].
    apply PipelineFacts.int_range_ok in H. destruct H as (z & -> & Ez & [R1 R2]).
    exists z. cbn in R1, R2. auto.
  - intros [H | (z & Ez & R & ->)]; [left; exact H | right]. split.
    + intros ->. discriminate Ez.
    + apply PipelineFacts.int_range_ok. exists z. repeat split; auto; cbn; lia.
Qed.


Lemma maybe_port_reports : reports (Vol.Maybe network_port).
Proof.
  intros v. destruct (value_none_dec v) as [->|N]; [discriminate|].
  rewrite maybe_not_none by exact N.
  destruct (network_port v) as [y|[|e errs]|e] eqn:E; try discriminate.
  - apply network_port_invalid in E. destruct E as (? & ? & E). discriminate.
  - destruct (path e); discriminate.
Qed.

Lemma forall2_same (A : Type) (P : A -> Prop) l l' :
  Forall2 (fun a b => b = a /\ P a) l l' <-> l' = l /\ Forall P l.
Proof.
  split.
  - intros HF. induction HF as [|a b l l' [-> Pa] HF [-> IH]]; auto.
  - intros [-> HF]. induction HF; constructor; auto.
Qed.

Lemma sha256_accepts v c :
  sha256 v = Ok c
  <-> c = v /\ exists s, v = VStr s /\ up_to_newline (hex_string 64 64) s.
Proof.
  destruct v; try (split; [discriminate | intros [_ (t & E & _)]; discriminate]).
  unfold sha256, Re.exactly. rewrite hex_match. split.
  - intros [-> H]. split; [reflexivity | eauto].
  - intros [-> (t & [= <-] & H)]. auto.
Qed.


End PortMapFacts.

(** ** The keys of the output of a fixed schema *)

Module FixedFacts.
Local Close Scope Z_scope.
Import Schema SchemaFacts Shape.

Lemma defaulted_iff s k :
  defaulted s k = true
  <-> exists e, In e (entries s) /\ literal (fst e) = Some k /\ default_of (fst e) <> None.
Proof.
  unfold defaulted. rewrite existsb_exists. split.
  - intros (e & Hin & H). exists e. split; [exact Hin|].
    destruct (literal (fst e)) as [name|]; [|discriminate].
    destruct (default_of (fst e)); [|discriminate].
    apply String.eqb_eq in H. subst. split; [reflexivity | discriminate].
  - intros (e & Hin & L & D). exists e. split; [exact Hin|].
    rewrite L. destruct (default_of (fst e)); [apply String.eqb_refl | congruence].
Qed.

(** Only keys that have a default are inserted *)
Lemma inserted_keys es : forall d w k,
  has_key k (fst (insert_defaults es d w)) = true ->
  has_key k d = true
  \/ exists e, In e es /\ literal (fst e) = Some k /\ default_of (fst e) <> None.
Proof.
  induction es as [|[key f] es IH]; intros d w k H; simpl in H.
  - auto.
  - assert (Hsame : has_key k (fst (insert_defaults es d w)) = true ->
                    has_key k d = true
                    \/ exists e, In e ((key, f) :: es) /\ literal (fst e) = Some k
                                 /\ default_of (fst e) <> None).
    { intros H'. destruct (IH _ _ _ H') as [K | (e & Hin & L & D)]; auto.
      right. exists e. simpl. auto. }
    destruct (literal key) as [name|] eqn:L; [|auto].
    destruct (default_of key) as [default|] eqn:D; [|auto].
    destruct (has_key name d) eqn:K; [auto|].
    unfold mbind in H. destruct (default w) as [v w1].
    destruct (IH _ _ _ H) as [K' | (e & Hin & L' & D')].
    + rewrite has_key_set in K'. apply orb_true_iff in K'. destruct K' as [K'|K']; auto.
      apply String.eqb_eq in K'. subst name. right. exists (key, f). simpl.
      repeat split; auto. congruence.
    + right. exists e. simpl. auto.
Qed.

Section Fixed.
Variable s : schema.
Hypothesis F : fixed s = true.
Hypothesis X : extra s = REMOVE_EXTRA.

(** Every key of the output comes from an item *)
Lemma out_source items : forall p w p' w' k,
  validate_items s items p w = (Ok p', w') ->
  has_key k (out p') = true ->
  has_key k (out p) = true \/ In k (List.map fst items).
Proof.
  induction items as [|[k0 v] items IH]; intros p w p' w' k H K.
  - injection H as <- <-. auto.
  - rewrite step_fixed in H by assumption.
    destruct (field s k0) as [f|] eqn:E.
    + destruct (f v w) as [[c|errs|e] w1]; [| |discriminate].
      * destruct (IH _ _ _ _ _ H K) as [K'|K']; [|simpl; auto].
        cbn [out] in K'. rewrite has_key_set in K'. apply orb_true_iff in K'.
        destruct K' as [K'|K']; auto.
        apply String.eqb_eq in K'. subst k0. simpl. auto.
      * destruct (IH _ _ _ _ _ H K) as [K'|K']; simpl; auto.
    + destruct (IH _ _ _ _ _ H K) as [K'|K']; simpl; auto.
Qed.

(** When nothing was reported, every declared key of the items is in the
    output *)
Lemma out_complete items : forall p w p' w' k,
  fields_report s ->
  validate_items s items p w = (Ok p', w') -> errors p' = errors p ->
  In k (List.map fst items) -> declared s k = true ->
  has_key k (out p') = true.
Proof.
  induction items as [|[k0 v] items IH]; intros p w p' w' k R H E Hin D; [contradiction|].
  rewrite step_fixed in H by assumption.
  destruct (field s k0) as [f|] eqn:Ef.
  - destruct (field_in s k0 F Ef) as (key & Hf & L).
    destruct (f v w) as [[c|errs|e] w1] eqn:Ev; [| |discriminate].
    + destruct (String.eqb_spec k0 k) as [->|N].
      * eapply out_kept; [exact F | exact X | exact H |].
        cbn [out]. rewrite has_key_set, String.eqb_refl. reflexivity.
      * apply (IH _ _ _ _ _ R H E); auto. destruct Hin as [Hin|Hin]; [contradiction | exact Hin].
    + exfalso. destruct (@errors_grow s F X _ _ _ _ _ H) as (more & Em). cbn [errors] in Em.
      rewrite E, <- app_assoc in Em.
      apply (f_equal (@List.length invalid)) in Em.
      rewrite !length_app, length_map in Em.
      destruct errs; [|simpl in Em; lia].
      apply (R (key, f) v w Hf). cbn [snd]. rewrite Ev. reflexivity.
  - destruct (String.eqb_spec k0 k) as [->|N].
    + exfalso. apply (field_declared s k F) in D. contradiction.
    + apply (IH _ _ _ _ _ R H E); auto. destruct Hin as [Hin|Hin]; [contradiction | exact Hin].
Qed.

(** The keys of the output of a successful validation: the declared keys
    that the data holds or that have a default *)
Theorem output_keys d w out w' k :
  fields_report s ->
  validate s (VDict d) w = (Ok (VDict out), w') ->
  (has_key k out = true
   <-> declared s k = true /\ (has_key k d = true \/ defaulted s k = true)).
Proof.
  intros R H. rewrite validate_dict in H.
  destruct (insert_defaults (entries s) d w) as [kvm w1] eqn:I.
  destruct (validate_items s kvm (MkProgress [] [] []) w1) as [[p|errs|e] w2] eqn:V;
    [|discriminate..].
  destruct (errors p ++ missing_required (entries s) (found p))%list eqn:E; [|discriminate].
  injection H as <- <-. apply app_eq_nil in E. destruct E as [E _].
  split.
  - intros K. split.
    + destruct (@out_declared s F X _ _ _ _ _ k V K) as [K'|K']; [discriminate | exact K'].
    + destruct (@out_source _ _ _ _ _ k V K) as [K'|K']; [discriminate|].
      apply has_key_in in K'.
      assert (K2 : has_key k (fst (insert_defaults (entries s) d w)) = true)
        by (rewrite I; exact K').
      destruct (@inserted_keys _ _ _ _ K2) as [Kd | Hd]; [auto|].
      right. apply defaulted_iff. exact Hd.
  - intros [D Hk]. apply (@out_complete _ _ _ _ _ k R V E); [|exact D].
    apply has_key_in.
    change kvm with (fst (kvm, w1)). rewrite <- I.
    destruct Hk as [Kd | Kd].
    + apply RequiredFacts.has_key_kept. exact Kd.
    + apply defaulted_iff in Kd. destruct Kd as ([key f] & Hin & L & Dn).
      apply (@RequiredFacts.default_inserted (entries s) d w key f k); auto.
Qed.

End Fixed.
End FixedFacts.

(** ** Validating again *)

Module RevalidateFacts.
Local Close Scope Z_scope.
Import Schema SchemaFacts Shape FixedFacts.

Lemma set_in k c d : forall k' c',
  In (k', c') (set k c d) -> (k', c') = (k, c) \/ In (k', c') d.
Proof.
  induction d as [|[k0 v0] d IH]; intros k' c' H; simpl in H.
  - destruct H as [H|[]]. auto.
  - destruct (String.eqb k0 k).
    + destruct H as [H|H]; [auto | right; right; exact H].
    + destruct H as [H|H]; [right; left; exact H|].
      destruct (IH _ _ H); [auto | right; right; assumption].
Qed.

Lemma set_nodup k c d : NoDup (List.map fst d) -> NoDup (List.map fst (set k c d)).
Proof.
  induction d as [|[k0 v0] d IH]; intros ND; simpl.
  - constructor; [intros [] | constructor].
  - inversion ND as [|? ? Hnotin ND']; subst.
    destruct (String.eqb_spec k0 k) as [->|N]; simpl.
    + constructor; assumption.
    + constructor; [|auto].
      intros Hin. apply has_key_in in Hin. rewrite has_key_set in Hin.
      apply orb_true_iff in Hin. destruct Hin as [Hin|Hin].
      * apply String.eqb_eq in Hin. congruence.
      * apply has_key_in in Hin. contradiction.
Qed.

(** Defaults are not looked at when the data has their keys *)
Lemma insert_defaults_none es : forall d w,
  (forall e name default, In e es -> literal (fst e) = Some name ->
                          default_of (fst e) = Some default -> has_key name d = true) ->
  insert_defaults es d w = (d, w).
Proof.
  induction es as [|[key f] es IH]; intros d w H; simpl.
  - reflexivity.
  - assert (H' : forall e name default, In e es -> literal (fst e) = Some name ->
                   default_of (fst e) = Some default -> has_key name d = true).
    { intros e name default Hin. apply H. right. exact Hin. }
    destruct (literal key) as [name|] eqn:L; [|auto].
    destruct (default_of key) as [default|] eqn:D; [|auto].
    rewrite (H (key, f) name default); auto. left. reflexivity.
Qed.

(** No key is missing exactly when every required key was found *)
Lemma missing_nil es found :
  missing_required es found = []
  <-> forall e name default, In e es -> fst e = Required name default -> In name found.
Proof.
  unfold missing_required. induction es as [|[sk f] es IH]; simpl.
  - split; [intros _ e name default [] | reflexivity].
  - split.
    + intros H. apply app_eq_nil in H. destruct H as [H1 H2].
      intros e name default [<-|Hin] E.
      * simpl in E. subst sk.
        destruct (existsb (String.eqb name) found) eqn:Ex; [|discriminate].
        apply existsb_exists in Ex. destruct Ex as (x & Hx & Ex).
        apply String.eqb_eq in Ex. subst x. exact Hx.
      * apply (proj1 IH H2 e name default Hin E).
    + intros H. rewrite (proj2 IH).
      * rewrite app_nil_r. destruct sk as [name d|name d|g]; try reflexivity.
        assert (Hn : In name found) by (apply (H (Required name d, f) name d); auto).
        assert (Ex : existsb (String.eqb name) found = true).
        { apply existsb_exists. exists name. split; [exact Hn | apply String.eqb_refl]. }
        rewrite Ex. reflexivity.
      * intros e name default Hin. apply (H e name default). right. exact Hin.
Qed.

Section Revalidate.
Variable s : schema.
Hypothesis F : fixed s = true.
Hypothesis X : extra s = REMOVE_EXTRA.
Hypothesis S : fields_settled s.

Lemma settled_report : fields_report s.
Proof.
  intros e v w Hin. destruct (S e Hin) as (g & -> & _ & R). exact (R v).
Qed.

(** What the field of a key is *)
Lemma settled_field k f :
  field s k = Some f -> exists g, f = pure g /\ settled g /\ reports g.
Proof.
  intros Ef. destruct (field_in s k F Ef) as (key & Hin & _).
  exact (S (key, f) Hin).
Qed.

Lemma out_returned items : forall p w p' w',
  validate_items s items p w = (Ok p', w') ->
  Forall (returned s) (out p) -> Forall (returned s) (out p').
Proof.
  induction items as [|[k0 v] items IH]; intros p w p' w' H Q.
  - injection H as <- <-. exact Q.
  - rewrite step_fixed in H by assumption.
    destruct (field s k0) as [f|] eqn:Ef; [|eauto].
    destruct (@settled_field k0 f Ef) as (g & -> & Sg & _).
    unfold pure, ret in H. destruct (g v) as [c|errs|e] eqn:Ev; [| |discriminate].
    + apply (IH _ _ _ _ H). cbn [out]. apply Forall_forall. intros [k' c'] Hin.
      apply set_in in Hin. destruct Hin as [[= -> ->]|Hin].
      * exists g. cbn [fst snd]. split; [exact Ef | exact (Sg _ _ Ev)].
      * rewrite Forall_forall in Q. exact (Q _ Hin).
    + apply (IH _ _ _ _ H). exact Q.
Qed.

Lemma out_nodup items : forall p w p' w',
  validate_items s items p w = (Ok p', w') ->
  NoDup (List.map fst (out p)) -> NoDup (List.map fst (out p')).
Proof.
  induction items as [|[k0 v] items IH]; intros p w p' w' H Q.
  - injection H as <- <-. exact Q.
  - rewrite step_fixed in H by assumption.
    destruct (field s k0) as [f|] eqn:Ef; [|eauto].
    destruct (f v w) as [[c|errs|e] w1]; [| |discriminate].
    + apply (IH _ _ _ _ H). cbn [out]. apply set_nodup. exact Q.
    + apply (IH _ _ _ _ H). exact Q.
Qed.

(** The keys that were found are declared keys of the items *)
Lemma found_source items : forall p w p' w' k,
  validate_items s items p w = (Ok p', w') ->
  In k (found p') ->
  In k (found p) \/ (In k (List.map fst items) /\ declared s k = true).
Proof.
  induction items as [|[k0 v] items IH]; intros p w p' w' k H K.
  - injection H as <- <-. auto.
  - rewrite step_fixed in H by assumption.
    destruct (field s k0) as [f|] eqn:Ef.
    + assert (D : declared s k0 = true) by (apply field_declared; [exact F | congruence]).
      destruct (f v w) as [[c|errs|e] w1]; [| |discriminate];
        (destruct (IH _ _ _ _ _ H K) as [[K'|K']|[K' D']];
         [subst k0; right; simpl; auto | auto | right; simpl; auto]).
    + destruct (IH _ _ _ _ _ H K) as [K'|[K' D']]; [auto | right; simpl; auto].
Qed.

(** Validating again what validation returned *)
Lemma replay items : forall p w,
  NoDup (List.map fst items) ->
  (forall k, In k (List.map fst items) -> has_key k (out p) = false) ->
  Forall (returned s) items ->
  validate_items s items p w
  = (Ok (MkProgress (out p ++ items) (errors p) (List.rev (List.map fst items) ++ found p)), w).
Proof.
  induction items as [|[k c] items IH]; intros p w ND Hfresh Q.
  - simpl. rewrite app_nil_r. destruct p; reflexivity.
  - rewrite step_fixed by assumption.
    inversion Q as [|? ? (g & Ef & Eg) Q']; subst. cbn [fst snd] in Ef, Eg.
    inversion ND as [|? ? Hnotin ND']; subst.
    rewrite Ef. unfold pure, ret. rewrite Eg.
    rewrite set_absent by (apply Hfresh; left; reflexivity).
    rewrite IH; auto.
    + cbn [out errors found List.map fst List.rev]. rewrite <- !app_assoc. reflexivity.
    + intros k0 Hin. cbn [out]. unfold has_key. rewrite existsb_app.
      fold (has_key k0 (out p)). rewrite Hfresh by (right; exact Hin).
      simpl. rewrite orb_false_r. apply String.eqb_neq. intros ->. contradiction.
Qed.

(** What a schema of settled fields returns, it accepts and returns as it
    is, without looking at a default *)
Theorem revalidate d w out w' :
  validate s (VDict d) w = (Ok (VDict out), w') ->
  forall w2, validate s (VDict out) w2 = (Ok (VDict out), w2).
Proof.
  intros H w2.
  pose proof (fun k => @output_keys s F X d w out w' k settled_report H) as Keys.
  rewrite validate_dict in H.
  destruct (insert_defaults (entries s) d w) as [kvm w1] eqn:I.
  destruct (validate_items s kvm (MkProgress [] [] []) w1) as [[p|errs|e] w3] eqn:V;
    [|discriminate..].
  destruct (errors p ++ missing_required (entries s) (found p))%list eqn:E; [|discriminate].
  injection H as <- <-. apply app_eq_nil in E. destruct E as [E M].
  assert (ND : NoDup (List.map fst (out p))).
  { apply (out_nodup _ _ _ V). constructor. }
  assert (Q : Forall (returned s) (out p)).
  { apply (out_returned _ _ _ V). constructor. }
  rewrite validate_dict.
  rewrite insert_defaults_none.
  - rewrite (replay (MkProgress [] [] []) w2 ND (fun _ _ => eq_refl) Q).
    cbn [out errors found app]. rewrite app_nil_r.
    assert (M2 : missing_required (entries s) (List.rev (List.map fst (out p))) = []).
    { apply missing_nil. intros e name default Hin En. apply in_rev. rewrite rev_involutive.
      apply has_key_in. apply Keys.
      pose proof (proj1 (missing_nil _ _) M e name default Hin En) as Hf.
      destruct (@found_source _ _ _ _ _ name V Hf) as [[]|[Hk D]].
      split; [exact D|].
      assert (K : has_key name (out p) = true).
      { apply (@out_complete s F X kvm (MkProgress [] [] []) w1 p w3 name settled_report V E Hk D). }
      apply Keys in K. tauto. }
    rewrite M2. reflexivity.
  - intros e name default Hin L D. apply Keys. split.
    + apply (@declared_literal s e name Hin L).
    + right. apply defaulted_iff. exists e. repeat split; auto. congruence.
Qed.

End Revalidate.
End RevalidateFacts.

(** ** The fields of the configuration schemas *)

Module SettledFacts.
Import Schema SchemaFacts Shape Validate Const PortMapFacts.

(** A validator that returns its input when it accepts it is settled *)
Lemma same_settled (g : validator) : (forall v c, g v = Ok c -> c = v) -> settled g.
Proof. intros H v c E. pose proof (H _ _ E). subst c. exact E. Qed.

Lemma match_settled pattern : settled (Vol.Match pattern).
Proof. apply same_settled. intros v c. apply ClassFacts.match_returns_input. Qed.

Lemma in_same container v c : Vol.In container v = Ok c -> c = v.
Proof.
  unfold Vol.In. destruct v; try discriminate.
  destruct (existsb (String.eqb s) container); [congruence | discriminate].
Qed.

Lemma in_reports container : reports (Vol.In container).
Proof.
  intros v. unfold Vol.In. destruct v; try discriminate.
  destruct (existsb (String.eqb s) container); discriminate.
Qed.

Lemma boolean_settled : settled Vol.Boolean.
Proof.
  intros v c H.
  assert (E : exists b, c = VBool b).
  { unfold Vol.Boolean in H. destruct v; try (injection H as <-; eauto).
    destruct (existsb _ _); [injection H as <-; eauto|].
    destruct (existsb _ _); [injection H as <-; eauto | discriminate]. }
  destruct E as (b & ->). reflexivity.
Qed.

Lemma boolean_reports : reports Vol.Boolean.
Proof.
  intros v. unfold Vol.Boolean. destruct v; try discriminate.
  destruct (existsb _ _); [discriminate|]. destruct (existsb _ _); discriminate.
Qed.

(** What an integer pipeline raises when it fails: one error about the
    value *)
Lemma int_range_invalid min max v errs :
  Vol.All [Vol.Coerce Vol.int_type; Vol.Range min max] v = Invalid errs ->
  exists k msg, errs = [mk_invalid k msg].
Proof.
  rewrite PipelineFacts.all_two. unfold Vol.Coerce.
  cbn [Vol.int_type Vol.construct].
  destruct (Builtins.int v) as [z|errs0|e] eqn:E; cbv beta iota delta [bind].
  - rewrite PipelineFacts.range_int.
    destruct min as [lo|], max as [hi|];
      repeat match goal with
             | |- context [if ?b then _ else _] => destruct b
             end; try discriminate; intros [= <-]; eauto.
  - exfalso. exact (PipelineFacts.int_not_invalid _ E).
  - destruct e; try discriminate; intros [= <-]; eauto.
Qed.

Lemma int_range_reports min max :
  reports (Vol.All [Vol.Coerce Vol.int_type; Vol.Range min max]).
Proof. intros v H. apply int_range_invalid in H. destruct H as (? & ? & H). discriminate. Qed.

Lemma int_range_settled min max :
  settled (Vol.All [Vol.Coerce Vol.int_type; Vol.Range min max]).
Proof.
  intros v c H. apply PipelineFacts.int_range_ok in H. destruct H as (z & -> & _ & R).
  apply PipelineFacts.int_range_ok. exists z. auto.
Qed.

Lemma coerce_str_settled rt : settled (Vol.Coerce (str_type rt)).
Proof.
  intros v c H. assert (E : exists s, c = VStr s).
  { destruct (coerce_str_total rt v) as (s & E). rewrite E in H. injection H as <-. eauto. }
  destruct E as (s & ->). reflexivity.
Qed.

Lemma maybe_str_settled rt : settled (Vol.Maybe (Vol.Coerce (str_type rt))).
Proof.
  intros v c H. apply maybe_ok in H. destruct H as [[_ ->] | [_ H]]; [reflexivity|].
  assert (E : exists s, c = VStr s).
  { destruct (coerce_str_total rt v) as (s & E). rewrite E in H. injection H as <-. eauto. }
  destruct E as (s & ->). reflexivity.
Qed.

Lemma maybe_str_reports rt : reports (Vol.Maybe (Vol.Coerce (str_type rt))).
Proof.
  intros v. destruct (value_none_dec v) as [->|N]; [discriminate|].
  rewrite maybe_not_none by exact N.
  destruct (coerce_str_total rt v) as (s & ->). discriminate.
Qed.

Lemma timezone_same rt v c : validate_timezone rt v = Ok c -> c = v.
Proof.
  unfold validate_timezone. destruct v; try discriminate.
  destruct (known_timezone rt s); [congruence | discriminate].
Qed.

Lemma timezone_reports rt : reports (validate_timezone rt).
Proof.
  intros v. unfold validate_timezone. destruct v; try discriminate.
  destruct (known_timezone rt s); discriminate.
Qed.

Lemma url_same v c : Vol.Url v = Ok c -> c = v.
Proof.
  unfold Vol.Url. destruct v; try discriminate.
  destruct (Urllib.urlsplit s); [|discriminate].
  destruct (_ || _)%bool; [discriminate | congruence].
Qed.

Lemma repository_same v c : validate_repository v = Ok c -> c = v.
Proof.
  unfold validate_repository. destruct v; try discriminate.
  destruct (Re.match_ RE_REPOSITORY s); [|discriminate].
  destruct (Vol.Url _); simpl; [congruence | discriminate..].
Qed.

Lemma repository_reports : reports validate_repository.
Proof.
  intros v. unfold validate_repository. destruct v; try discriminate.
  destruct (Re.match_ RE_REPOSITORY s) as [data|]; [|discriminate].
  destruct (SequenceFacts.url_plain (group_value data "url")) as [E | (k & msg & E)];
    rewrite E; discriminate.
Qed.

Lemma unique_same v c : Vol.Unique v = Ok c -> c = v.
Proof.
  unfold Vol.Unique. destruct v; try discriminate; try congruence.
  - destruct (negb _); [discriminate|]. destruct (Vol.has_duplicates _); [discriminate | congruence].
  - destruct (negb _); [discriminate|]. destruct (Vol.has_duplicates _); [discriminate | congruence].
Qed.

Lemma unique_reports : reports Vol.Unique.
Proof.
  intros v. unfold Vol.Unique. destruct v; try discriminate.
  - destruct (negb _); [discriminate|]. destruct (Vol.has_duplicates _); discriminate.
  - destruct (negb _); [discriminate|]. destruct (Vol.has_duplicates _); discriminate.
Qed.

(** An element is given up at once only for an error from deeper inside *)
Lemma element_abort (f : validator) item errs :
  Vol.validate_element [f] item [] = Vol.Abort errs -> errs <> [].
Proof.
  simpl. destruct (f item) as [c|es|e]; try discriminate.
  destruct (Vol.deeper es) eqn:D; [|discriminate].
  intros [= <-]. destruct es; [discriminate D | discriminate].
Qed.

Lemma sequence_reports (f : validator) l : forall i out errors,
  Vol.validate_sequence [f] l i out errors <> Invalid [].
Proof.
  induction l as [|item l IH]; intros i out errors.
  - simpl. destruct errors; discriminate.
  - cbn [Vol.validate_sequence].
    destruct (Vol.validate_element [f] item []) as [c|es|es|e] eqn:E; try apply IH.
    + apply element_abort in E. destruct es; [congruence | discriminate].
    + discriminate.
Qed.

(** A list schema of one validator that returns its input returns the
    list as it is *)
Lemma sequence_same (f : validator) l :
  (forall v c, f v = Ok c -> c = v) -> reports f ->
  forall i out errors c,
    Vol.validate_sequence [f] l i out errors = Ok c ->
    errors = [] /\ c = VList (out ++ l).
Proof.
  intros Hsame R. induction l as [|item l IH]; intros i out errors c H.
  - simpl in H. destruct errors; [|discriminate]. injection H as <-.
    rewrite app_nil_r. auto.
  - cbn [Vol.validate_sequence Vol.validate_element] in H.
    destruct (f item) as [cval|es|e] eqn:E.
    + apply IH in H. destruct H as [-> ->]. rewrite (Hsame _ _ E), <- app_assoc. auto.
    + destruct (Vol.deeper es); [discriminate|].
      apply IH in H. destruct H as [H _]. apply app_eq_nil in H. destruct H as [_ H].
      destruct es; [exfalso; exact (R _ E) | discriminate].
    + discriminate.
Qed.

Lemma repositories_same v c : repositories v = Ok c -> c = v.
Proof.
  unfold repositories. rewrite PipelineFacts.all_two.
  destruct (Vol.Sequence [validate_repository] v) as [y|errs|e] eqn:E; try discriminate.
  cbv beta iota delta [bind].
  destruct (Vol.Unique y) as [x|errs|e] eqn:U; try discriminate.
  intros [= <-]. apply unique_same in U. subst x.
  unfold Vol.Sequence in E. destruct v; try discriminate.
  destruct l as [|item l].
  - simpl in E. congruence.
  - apply (@sequence_same _ _ repository_same repository_reports) in E.
    destruct E as [_ ->]. reflexivity.
Qed.

Lemma repositories_reports : reports repositories.
Proof.
  intros v. unfold repositories. rewrite PipelineFacts.all_two.
  destruct (Vol.Sequence [validate_repository] v) as [y|errs|e] eqn:E;
    cbv beta iota delta [bind].
  - destruct (Vol.Unique y) as [x|errs|e] eqn:U; try discriminate.
    rewrite <- U. apply unique_reports.
  - rewrite <- E. unfold Vol.Sequence. destruct v; try discriminate.
    destruct l; [discriminate | apply sequence_reports].
  - discriminate.
Qed.

Ltac settle :=
  eexists; split; [reflexivity | split];
  first [ apply match_settled | apply match_reports
        | apply maybe_str_settled | apply maybe_str_reports
        | apply boolean_settled | apply boolean_reports
        | apply int_range_settled | apply int_range_reports
        | apply coerce_str_settled | apply coerce_str_reports
        | apply same_settled; first [ apply timezone_same | apply repositories_same
                                     | apply in_same ]
        | apply timezone_reports | apply repositories_reports | apply in_reports ].

Lemma hass_fields_settled rt : fields_settled (SCHEMA_HASS_CONFIG rt).
Proof.
  intros e Hin. unfold SCHEMA_HASS_CONFIG in Hin. cbn [entries List.In] in Hin.
  repeat (destruct Hin as [<- | Hin]; [settle|]). destruct Hin.
Qed.

Lemma supervisor_fields_settled rt : fields_settled (SCHEMA_SUPERVISOR_CONFIG rt).
Proof.
  intros e Hin. unfold SCHEMA_SUPERVISOR_CONFIG in Hin. cbn [entries List.In] in Hin.
  repeat (destruct Hin as [<- | Hin]; [settle|]). destruct Hin.
Qed.

End SettledFacts.

(** ** Collected errors *)

Module ReportFacts.
Local Close Scope Z_scope.
Import Schema SchemaFacts Shape FixedFacts DynamicFacts.

Lemma declared_keys_iff s k : declared s k = true <-> In k (declared_keys s).
Proof.
  unfold declared, declared_keys. rewrite existsb_exists, in_flat_map. split.
  - intros (e & Hin & H). exists e. split; [exact Hin|].
    destruct (literal (fst e)); [|discriminate].
    apply String.eqb_eq in H. subst. left. reflexivity.
  - intros (e & Hin & H). exists e. split; [exact Hin|].
    destruct (literal (fst e)); [|destruct H].
    destruct H as [->|[]]. apply String.eqb_refl.
Qed.

Lemma default_keys_iff s k : defaulted s k = true <-> In k (default_keys s).
Proof.
  unfold defaulted, default_keys. rewrite existsb_exists, in_flat_map. split.
  - intros (e & Hin & H). exists e. split; [exact Hin|].
    destruct (literal (fst e)); [|discriminate].
    destruct (default_of (fst e)); [|discriminate].
    apply String.eqb_eq in H. subst. left. reflexivity.
  - intros (e & Hin & H). exists e. split; [exact Hin|].
    destruct (literal (fst e)); [|destruct H].
    destruct (default_of (fst e)); [|destruct H].
    destruct H as [->|[]]. apply String.eqb_refl.
Qed.

Lemma default_keys_declared s k : In k (default_keys s) -> In k (declared_keys s).
Proof.
  unfold default_keys, declared_keys. rewrite !in_flat_map.
  intros (e & Hin & H). exists e. split; [exact Hin|].
  destruct (literal (fst e)); [|destruct H].
  destruct (default_of (fst e)); [exact H | destruct H].
Qed.

(** The loop never stops on [Invalid]: errors are collected *)
Lemma select_not_invalid cands k v : forall w errs,
  fst (select cands k v w) <> Invalid errs.
Proof.
  induction cands as [|[skey cvalue] cands IH]; intros w errs; simpl.
  - discriminate.
  - destruct skey as [name d|name d|ckey]; unfold mbind, ret;
      try (destruct (cvalue v w); discriminate).
    destruct (ckey (VStr k)) as [[| | | |nk| |]|es|e]; try discriminate; try apply IH.
    destruct (cvalue v w); discriminate.
Qed.

Lemma items_not_invalid s items : forall p w errs,
  fst (validate_items s items p w) <> Invalid errs.
Proof.
  induction items as [|[k v] items IH]; intros p w errs.
  - discriminate.
  - simpl. unfold mbind.
    pose proof (@select_not_invalid (relevant_candidates (entries s) k) k v w) as NI.
    destruct (select (relevant_candidates (entries s) k) k v w) as [r w1].
    destruct r as [[|skey new_key [c|es|e]]|es|e]; try apply IH; try discriminate.
    + destruct (extra s); apply IH.
    + exfalso. exact (NI es eq_refl).
Qed.

(** A validation error of a schema carries an error *)
Lemma validate_reports s v w : fst (validate s v w) <> Invalid [].
Proof.
  destruct v; try discriminate. rewrite validate_dict.
  destruct (insert_defaults (entries s) d w) as [kvm w1].
  pose proof (@items_not_invalid s kvm (MkProgress [] [] []) w1) as NI.
  destruct (validate_items s kvm (MkProgress [] [] []) w1) as [[p|errs|e] w2].
  - destruct (errors p ++ missing_required (entries s) (found p))%list; discriminate.
  - exfalso. exact (NI errs eq_refl).
  - discriminate.
Qed.

Section Collected.
Variable s : schema.
Hypothesis F : fixed s = true.
Hypothesis X : extra s = REMOVE_EXTRA.

(** When the loop ends, every steady field of the items has returned or
    its errors are among those collected, under its key *)
Lemma errors_collected items : forall p w p' w' k v f,
  validate_items s items p w = (Ok p', w') ->
  In (k, v) items -> field s k = Some f -> steady f ->
  forall w0,
    match fst (f v w0) with
    | Ok _ => True
    | Invalid es => forall e, In e es -> In (qualify "dictionary value" k e) (errors p')
    | Raise _ => False
    end.
Proof.
  induction items as [|[k0 v0] items IH]; intros p w p' w' k v f H Hin Ef St w0;
    [contradiction|].
  rewrite step_fixed in H by assumption. destruct Hin as [[= -> ->]|Hin].
  - rewrite Ef in H. rewrite (St v w w0) in H.
    destruct (fst (f v w0)) as [c|es|e]; [exact I| |discriminate].
    intros e He. destruct (@errors_grow s F X _ _ _ _ _ H) as (more & ->).
    cbn [errors]. apply in_or_app. left. apply in_or_app. right.
    apply in_map. exact He.
  - destruct (field s k0) as [f0|]; [|eapply IH; eauto].
    destruct (f0 v0 w) as [[c|es|e] w1]; [| |discriminate]; eapply IH; eauto.
Qed.

(** The same for a whole validation: a steady field of the data has
    returned when validation succeeds, and its errors are among those of
    a validation that fails *)
Lemma validate_collected d w k v f :
  In (k, v) d -> field s k = Some f -> steady f ->
  forall w0,
    fst (f v w0) <> Invalid [] ->
    match fst (validate s (VDict d) w) with
    | Ok _ => exists c, fst (f v w0) = Ok c
    | Invalid errs =>
        match fst (f v w0) with
        | Ok _ => True
        | Invalid es => forall e, In e es -> In (qualify "dictionary value" k e) errs
        | Raise _ => False
        end
    | Raise _ => True
    end.
Proof.
  intros Hin Ef St w0 NE. rewrite validate_dict.
  destruct (insert_defaults_app (entries s) d w) as (added & Ea & _).
  destruct (insert_defaults (entries s) d w) as [kvm w1]. cbn [fst] in Ea. subst kvm.
  pose proof (@items_not_invalid s (d ++ added) (MkProgress [] [] []) w1) as NI.
  destruct (validate_items s (d ++ added) (MkProgress [] [] []) w1) as [[p|errs|e] w2] eqn:V.
  - assert (Hin' : In (k, v) (d ++ added)) by (apply in_or_app; auto).
    pose proof (@errors_collected _ _ _ _ _ k v f V Hin' Ef St w0) as C.
    destruct (errors p ++ missing_required (entries s) (found p))%list as [|e0 l] eqn:E;
      cbn [fst].
    + apply app_eq_nil in E. destruct E as [E _]. rewrite E in C.
      destruct (fst (f v w0)) as [c|es|e]; [eauto | | destruct C].
      destruct es as [|e es]; [congruence | destruct (C e (or_introl eq_refl))].
    + destruct (fst (f v w0)) as [c|es|e]; [exact I | | exact C].
      intros e He. rewrite <- E. apply in_or_app. left. exact (C e He).
  - exfalso. exact (NI errs eq_refl).
  - exact I.
Qed.

End Collected.

Lemma pure_steady g : steady (pure g).
Proof. intros v w w0. reflexivity. Qed.


End ReportFacts.

(** ** Nested dictionaries *)

Module NestedFacts.
Import Schema SchemaFacts Shape FixedFacts DynamicFacts ReportFacts Validate Const.



End NestedFacts.

(** ** Exceptions that are not [Invalid] *)

Module CrashFacts.
Import Shape Validate.

(** [int] overflows on an infinite float only, and raises no
    [AttributeError] *)
Lemma int_raises v e :
  Builtins.int v = Raise e ->
  (e = OverflowError /\ exists neg, v = VFloat (S754_infinity neg))
  \/ e = TypeError \/ e = ValueError.
Proof.
  destruct v as [| b | z | f | s | l | d]; simpl; try discriminate; try (intros [= <-]; auto).
  - destruct f; simpl; try discriminate; intros [= <-]; eauto.
  - destruct (Builtins.int_of_string s); [discriminate | intros [= <-]; auto].
Qed.

Lemma int_infinity neg : Builtins.int (VFloat (S754_infinity neg)) = Raise OverflowError.
Proof. reflexivity. Qed.

(** An integer pipeline lets one exception through: the overflow of an
    infinite float *)
Lemma int_range_raises min max v e :
  Vol.All [Vol.Coerce Vol.int_type; Vol.Range min max] v = Raise e
  <-> e = OverflowError /\ exists neg, v = VFloat (S754_infinity neg).
Proof.
  rewrite PipelineFacts.all_two. unfold Vol.Coerce. cbn [Vol.int_type Vol.construct].
  split.
  - destruct (Builtins.int v) as [z|errs0|e0] eqn:E; cbv beta iota delta [bind].
    + rewrite PipelineFacts.range_int.
      destruct min as [lo|], max as [hi|];
        repeat match goal with
               | |- context [if ?b then _ else _] => destruct b
               end; discriminate.
    + discriminate.
    + destruct (int_raises _ E) as [[-> H] | [-> | ->]]; try discriminate.
      intros [= <-]. auto.
  - intros [-> (neg & ->)]. reflexivity.
Qed.

(** The three errors of an integer pipeline *)
Lemma int_range_errors min max v errs :
  Vol.All [Vol.Coerce Vol.int_type; Vol.Range min max] v = Invalid errs ->
  errs = [mk_invalid CoerceInvalid "expected %s"]
  \/ errs = [mk_invalid RangeInvalid "value must be at least %s"]
  \/ errs = [mk_invalid RangeInvalid "value must be at most %s"].
Proof.
  rewrite PipelineFacts.all_two. unfold Vol.Coerce. cbn [Vol.int_type Vol.construct].
  destruct (Builtins.int v) as [z|errs0|e0] eqn:E; cbv beta iota delta [bind].
  - rewrite PipelineFacts.range_int.
    destruct min as [lo|], max as [hi|];
      repeat match goal with
             | |- context [if ?b then _ else _] => destruct b
             end; try discriminate; intros [= <-]; auto.
  - exfalso. exact (PipelineFacts.int_not_invalid _ E).
  - destruct e0; try discriminate; intros [= <-]; auto.
Qed.

(** A list schema of one validator stops at the first element on which
    the validator raises something else than [Invalid] *)
Lemma sequence_crash (f : validator) e l :
  (forall s, Spec.plain_on f (VStr s)) ->
  (forall v, (forall s, v <> VStr s) -> f v = Raise e) ->
  (exists v, In v l /\ forall s, v <> VStr s) ->
  forall i out errors, Vol.validate_sequence [f] l i out errors = Raise e.
Proof.
  intros P C. induction l as [|item l IH]; intros (v & Hin & Hv) i out errors.
  - destruct Hin.
  - cbn [Vol.validate_sequence Vol.validate_element].
    assert (D : (exists s, item = VStr s) \/ forall s, item <> VStr s).
    { destruct item; try (right; discriminate). left. eauto. }
    destruct D as [(s & ->) | D].
    + assert (T : exists v, In v l /\ forall s, v <> VStr s).
      { destruct Hin as [<- | Hin]; [exfalso; exact (Hv s eq_refl) | eauto]. }
      destruct (P s) as [E | (k & msg & E)]; rewrite E.
      * apply IH. exact T.
      * cbn. apply IH. exact T.
    + rewrite (C _ D). reflexivity.
Qed.

End CrashFacts.

(** ** What [Url()] accepts *)

Module UrlFacts.
Local Close Scope Z_scope.
Import Urllib StrFacts Shape.

Lemma find_split c s : forall i,
  Str.find c s = Some i -> s = Str.take i s ++ String c (Str.drop (S i) s).
Proof.
  induction s as [|a s IH]; intros i H; simpl in H; [discriminate|].
  destruct (Ascii.eqb_spec a c) as [->|N].
  - injection H as <-. reflexivity.
  - destruct (Str.find c s) as [j|]; [|discriminate]. injection H as <-.
    simpl. f_equal. apply IH. reflexivity.
Qed.

Lemma find_length c s i : Str.find c s = Some i -> i < String.length s.
Proof.
  revert i. induction s as [|a s IH]; intros i H; simpl in H; [discriminate|].
  destruct (Ascii.eqb a c).
  - injection H as <-. simpl. lia.
  - destruct (Str.find c s) as [j|]; [|discriminate]. injection H as <-.
    simpl. specialize (IH j eq_refl). lia.
Qed.

Lemma find_app c a b :
  Str.contains c a = false -> Str.find c (a ++ String c b) = Some (String.length a).
Proof.
  unfold Str.contains. induction a as [|x a IH]; simpl; intros H.
  - rewrite Ascii.eqb_refl. reflexivity.
  - apply orb_false_iff in H. destruct H as [H1 H2].
    rewrite Ascii.eqb_sym in H1. rewrite H1, (IH H2). reflexivity.
Qed.

Lemma scheme_without_colon a :
  Str.forallb scheme_char a = true -> Str.contains ":" a = false.
Proof.
  unfold Str.contains. induction a as [|x a IH]; cbn [Str.existsb Str.forallb]; intros H;
    [reflexivity|].
  apply andb_true_iff in H. destruct H as [H1 H2]. rewrite (IH H2), orb_false_r.
  destruct (Ascii.eqb_spec ":"%char x) as [<-|N]; [discriminate H1 | reflexivity].
Qed.

Lemma span_take p s : Str.existsb p (Str.take (span_until p s) s) = false.
Proof.
  induction s as [|a s IH]; simpl; [reflexivity|].
  destruct (p a) eqn:E; simpl; [reflexivity|]. rewrite E, IH. reflexivity.
Qed.

Lemma span_drop p s :
  match Str.drop (span_until p s) s with
  | EmptyString => True
  | String c _ => p c = true
  end.
Proof.
  induction s as [|a s IH]; simpl; [exact I|].
  destruct (p a) eqn:E; simpl; [exact E | exact IH].
Qed.

Lemma span_app p a b :
  Str.existsb p a = false ->
  match b with EmptyString => True | String c _ => p c = true end ->
  span_until p (a ++ b) = String.length a.
Proof.
  induction a as [|x a IH]; simpl; intros Ha Hb.
  - destruct b as [|c b]; simpl; [reflexivity | rewrite Hb; reflexivity].
  - apply orb_false_iff in Ha. destruct Ha as [H1 H2]. rewrite H1, (IH H2 Hb). reflexivity.
Qed.

Lemma startswith_slashes r :
  Str.startswith "//" r = true <-> r = "//" ++ Str.drop 2 r.
Proof.
  unfold Str.startswith. destruct r as [|a [|b r]]; cbn [String.prefix Str.drop append].
  - split; discriminate.
  - destruct (ascii_dec "/" a) as [<-|N]; split; discriminate.
  - destruct (ascii_dec "/" a) as [<-|N].
    + destruct (ascii_dec "/" b) as [<-|N].
      * destruct r; split; reflexivity.
      * split; [discriminate | intros [= E]; congruence].
    + split; [discriminate | intros [= E]; congruence].
Qed.

Lemma lower_nonempty s : s <> "" -> Str.lower s <> "".
Proof. destruct s; [congruence | discriminate]. Qed.

Lemma eqb_empty s : String.eqb s "" = false <-> s <> "".
Proof. destruct s; simpl; split; congruence. Qed.

(** What [split_rest] returns: the scheme it was given, and the network
    location after two slashes *)
Lemma split_rest_some the_scheme url parsed :
  split_rest the_scheme url = Some parsed ->
  scheme parsed = the_scheme
  /\ netloc parsed
     = (if Str.startswith "//" url
        then Str.take (span_until netloc_delim (Str.drop 2 url)) (Str.drop 2 url)
        else "")
  /\ Str.contains "[" (netloc parsed) = Str.contains "]" (netloc parsed).
Proof.
  unfold split_rest, splitnetloc.
  destruct (Str.startswith "//" url).
  - set (nl := Str.take _ _). set (rest := Str.drop (span_until _ _) _).
    destruct (Str.contains "[" nl) eqn:O, (Str.contains "]" nl) eqn:C; simpl;
      try discriminate;
      destruct (split_once "#" rest) as [u1 fr]; destruct (split_once "?" u1) as [u2 q];
      intros [= <-]; simpl; rewrite ?O, ?C; auto.
  - simpl. destruct (split_once "#" url) as [u1 fr]. destruct (split_once "?" u1) as [u2 q].
    intros [= <-]. simpl. auto.
Qed.

Lemma split_rest_host the_scheme host rest :
  Str.existsb netloc_delim host = false ->
  Str.contains "[" host = Str.contains "]" host ->
  match rest with EmptyString => True | String c _ => netloc_delim c = true end ->
  exists parsed,
    split_rest the_scheme ("//" ++ host ++ rest) = Some parsed
    /\ scheme parsed = the_scheme /\ netloc parsed = host.
Proof.
  intros Hd Hb Hr. unfold split_rest, splitnetloc.
  rewrite (proj2 (startswith_slashes ("//" ++ host ++ rest)) eq_refl).
  change (Str.drop 2 ("//" ++ host ++ rest)) with (host ++ rest).
  rewrite (@span_app netloc_delim host rest Hd Hr), take_app, drop_app, Hb.
  destruct (Str.contains "]" host); simpl;
    destruct (split_once "#" rest) as [u1 fr]; destruct (split_once "?" u1) as [u2 q];
    eexists; repeat split.
Qed.

(** The scheme and the network location that [urlsplit] finds *)
Lemma urlsplit_shape u parsed :
  urlsplit u = Some parsed -> scheme parsed <> "" -> netloc parsed <> "" -> url_shape u.
Proof.
  unfold urlsplit. intros H Hs Hn.
  destruct (Str.find ":" u) as [[|i]|] eqn:Ef;
    try (apply split_rest_some in H; destruct H as (E & _); congruence).
  set (head := Str.take (S i) u) in *. set (rest := Str.drop (S (S i)) u) in *.
  assert (Eu : u = head ++ String ":" rest) by (apply find_split; exact Ef).
  assert (Hne : head <> "").
  { apply take_nonempty; [lia|]. apply find_length in Ef. lia. }
  assert (Main : split_rest (Str.lower head) rest = Some parsed ->
                 Str.forallb scheme_char head = true -> url_shape u).
  { intros H' Hc. apply split_rest_some in H'. destruct H' as (_ & En & Eb).
    destruct (Str.startswith "//" rest) eqn:Ep; [|congruence].
    apply startswith_slashes in Ep.
    exists head, (netloc parsed), (Str.drop (span_until netloc_delim (Str.drop 2 rest))
                                            (Str.drop 2 rest)).
    split; [|split; [exact Hne | split; [exact Hc | split; [exact Hn | split; [|split]]]]].
    - rewrite Eu at 1. rewrite Ep at 1. rewrite En, take_drop. reflexivity.
    - rewrite En. apply span_take.
    - exact Eb.
    - apply span_drop. }
  destruct (String.eqb_spec head "http") as [Eh|Nh].
  - apply Main; [exact H | rewrite Eh; reflexivity].
  - destruct (Str.forallb scheme_char head) eqn:Ec.
    + destruct rest as [|c rest'] eqn:Er.
      * apply split_rest_some in H. destruct H as (_ & En & _). simpl in En. congruence.
      * rewrite <- Er in *. destruct (Str.forallb Chars.isdecimal rest).
        -- apply split_rest_some in H. destruct H as (E & _). congruence.
        -- apply Main; auto.
    + apply split_rest_some in H. destruct H as (E & _). congruence.
Qed.

Lemma drop_colon sch t : Str.drop (S (String.length sch)) (sch ++ String ":" t) = t.
Proof. induction sch as [|c sch IH]; simpl; auto. Qed.

Lemma shape_urlsplit u :
  url_shape u ->
  exists parsed, urlsplit u = Some parsed /\ scheme parsed <> "" /\ netloc parsed <> "".
Proof.
  intros (sch & host & rest & -> & Hne & Hc & Hh & Hd & Hb & Hr).
  destruct (@split_rest_host (Str.lower sch) host rest Hd Hb Hr) as (parsed & E & Es & En).
  assert (G : exists parsed, split_rest (Str.lower sch) ("//" ++ host ++ rest) = Some parsed
                             /\ scheme parsed <> "" /\ netloc parsed <> "").
  { exists parsed. rewrite Es, En. repeat split; auto. apply lower_nonempty. exact Hne. }
  clear parsed E Es En.
  unfold urlsplit.
  change (sch ++ "://" ++ host ++ rest) with (sch ++ String ":" ("//" ++ host ++ rest)).
  rewrite (@find_app ":" sch ("//" ++ host ++ rest) (@scheme_without_colon sch Hc)).
  destruct sch as [|c sch']; [congruence|].
  set (sch := String c sch') in *.
  change (String.length sch) with (S (String.length sch')). cbv beta iota.
  change (S (String.length sch')) with (String.length sch).
  rewrite drop_colon, take_app, Hc.
  destruct (String.eqb sch "http"); [exact G|]. exact G.
Qed.

(** [Url()] accepts a string exactly when it has a scheme and a host *)
Lemma url_accepts u x : Vol.Url (VStr u) = Ok x <-> x = VStr u /\ url_shape u.
Proof.
  unfold Vol.Url. split.
  - destruct (urlsplit u) as [parsed|] eqn:E; [|discriminate].
    destruct (String.eqb (scheme parsed) "") eqn:Es; [discriminate|].
    destruct (String.eqb (netloc parsed) "") eqn:En; [discriminate|]. simpl.
    intros [= <-]. split; [reflexivity|].
    apply (@urlsplit_shape u parsed E); apply eqb_empty; assumption.
  - intros [-> H]. destruct (@shape_urlsplit u H) as (parsed & -> & Hs & Hn).
    apply eqb_empty in Hs, Hn. rewrite Hs, Hn. reflexivity.
Qed.

End UrlFacts.

(** ** The digits of a hexadecimal numeral *)

Module VersionFacts.
Import Format StrFacts FormatFacts.

(** A lower-case hexadecimal digit is the digit of its value *)
Lemma lower_hex_digit c :
  Validate.lower_hex c = true ->
  0 <= Ipaddress.hex_value c < 16 /\ c = hex_digit (Ipaddress.hex_value c).
Proof.
  destruct c as [[] [] [] [] [] [] [] []]; intros H; try discriminate H;
    (split; [split; vm_compute; congruence | reflexivity]).
Qed.

Lemma int16_shift b : forall acc,
  Ipaddress.int16 b acc = acc * 16 ^ Z.of_nat (String.length b) + Ipaddress.int16 b 0.
Proof.
  induction b as [|c b IH]; intros acc.
  - simpl. lia.
  - cbn [Ipaddress.int16 String.length]. rewrite IH, (IH (16 * 0 + _)).
    rewrite Nat2Z.inj_succ, Z.pow_succ_r by lia. lia.
Qed.

Lemma int16_bound b :
  Str.forallb Validate.lower_hex b = true ->
  0 <= Ipaddress.int16 b 0 < 16 ^ Z.of_nat (String.length b).
Proof.
  induction b as [|c b IH]; intros H.
  - simpl. lia.
  - cbn [Str.forallb] in H. apply andb_true_iff in H. destruct H as [Hc Hb].
    cbn [Ipaddress.int16 String.length]. rewrite int16_shift.
    destruct (lower_hex_digit _ Hc) as [R _]. specialize (IH Hb).
    rewrite Nat2Z.inj_succ, Z.pow_succ_r by lia. nia.
Qed.

Lemma get_split s : forall i c,
  String.get i s = Some c -> s = Str.take i s ++ String c (Str.drop (S i) s).
Proof.
  induction s as [|a s IH]; intros i c H; [destruct i; discriminate|].
  destruct i as [|i]; simpl in H.
  - injection H as <-. reflexivity.
  - simpl. f_equal. apply IH. exact H.
Qed.

Lemma get_length s : forall i c, String.get i s = Some c -> (i < String.length s)%nat.
Proof.
  induction s as [|a s IH]; intros i c H; [destruct i; discriminate|].
  destruct i as [|i]; simpl in *; [lia|]. specialize (IH _ _ H). lia.
Qed.

Lemma get_some s : forall i, (i < String.length s)%nat -> exists c, String.get i s = Some c.
Proof.
  induction s as [|a s IH]; intros i H; simpl in H; [lia|].
  destruct i as [|i]; simpl; [eauto|]. apply IH. lia.
Qed.

(** The digit at a place of a hexadecimal numeral is the digit of that
    place of the number *)
Lemma digit_at s i c :
  Str.forallb Validate.lower_hex s = true -> String.get i s = Some c ->
  c = hex_digit ((Ipaddress.int16 s 0 / 16 ^ Z.of_nat (String.length s - 1 - i)) mod 16).
Proof.
  intros H G. pose proof (get_length _ _ G) as L.
  pose proof (get_split _ _ G) as E.
  set (a := Str.take i s) in *. set (b := Str.drop (S i) s) in *.
  assert (Lb : (String.length s - 1 - i)%nat = String.length b).
  { rewrite E at 1. rewrite str_length_app. unfold a. rewrite length_take by lia.
    simpl. lia. }
  rewrite Lb, E. clear Lb L G. rewrite E in H. clear E. clearbody a b.
  rewrite forallb_app in H. apply andb_true_iff in H. destruct H as [Ha H].
  cbn [Str.forallb] in H. apply andb_true_iff in H. destruct H as [Hc Hb].
  rewrite int16_app. cbn [Ipaddress.int16]. rewrite int16_shift.
  destruct (lower_hex_digit _ Hc) as [R Ec].
  pose proof (int16_bound _ Hb) as Bb.
  rewrite Ec at 1. f_equal.
  rewrite Z.div_add_l by lia. rewrite Z.div_small by lia. rewrite Z.add_0_r.
  rewrite Z.add_comm, Z.mul_comm, Z.mod_add by lia. symmetry. apply Z.mod_small. exact R.
Qed.

Lemma nibble_bits a n :
  0 <= n ->
  (a / 2 ^ n) mod 16
  = Z.b2z (Z.testbit a n) + 2 * Z.b2z (Z.testbit a (n + 1))
    + 4 * Z.b2z (Z.testbit a (n + 2)) + 8 * Z.b2z (Z.testbit a (n + 3)).
Proof.
  intros Hn. rewrite <- Z.shiftr_div_pow2 by lia.
  set (x := Z.shiftr a n).
  assert (T : forall k, 0 <= k -> Z.testbit a (n + k) = Z.testbit x k).
  { intros k Hk. unfold x. rewrite Z.shiftr_spec by lia. f_equal. lia. }
  replace n with (n + 0) at 1 by lia. rewrite !T by lia. clear T. clearbody x.
  rewrite (Z.testbit_spec' x 0), (Z.testbit_spec' x 1), (Z.testbit_spec' x 2),
    (Z.testbit_spec' x 3) by lia.
  change (2 ^ 0) with 1. change (2 ^ 1) with 2. change (2 ^ 2) with 4. change (2 ^ 3) with 8.
  rewrite Z.div_1_r.
  pose proof (Z.mod_pos_bound x 2 ltac:(lia)).
  pose proof (Z.mod_pos_bound (x / 2) 2 ltac:(lia)).
  pose proof (Z.mod_pos_bound (x / 4) 2 ltac:(lia)).
  pose proof (Z.mod_pos_bound (x / 8) 2 ltac:(lia)).
  pose proof (Z.mod_pos_bound x 16 ltac:(lia)).
  pose proof (Z.div_mod x 2 ltac:(lia)).
  pose proof (Z.div_mod (x / 2) 2 ltac:(lia)).
  pose proof (Z.div_mod (x / 4) 2 ltac:(lia)).
  pose proof (Z.div_mod x 16 ltac:(lia)).
  rewrite Z.div_div in * by lia.
  pose proof (Z.div_mod (x / 8) 2 ltac:(lia)).
  rewrite Z.div_div in * by lia.
  change (2 * 2) with 4 in *. change (4 * 2) with 8 in *. change (8 * 2) with 16 in *.
  lia.
Qed.

End VersionFacts.

(** ** The version and variant of a generated UUID *)

Module VersionBits.
Import Format StrFacts FormatFacts VersionFacts.

(** The version and the variant of a version 4 UUID *)
Lemma uuid4_nibbles bytes :
  (Uuid.UUID_int bytes 4 / 2 ^ 76) mod 16 = 4
  /\ 8 <= (Uuid.UUID_int bytes 4 / 2 ^ 60) mod 16 <= 11.
Proof.
  rewrite !nibble_bits by lia. unfold Uuid.UUID_int.
  set (x := Uuid.int_from_bytes bytes). clearbody x.
  repeat rewrite ?Z.lor_spec, ?Z.land_spec.
  set (b60 := Z.testbit x 60). set (b61 := Z.testbit x (60 + 1)).
  set (b62 := Z.testbit x (60 + 2)). set (b63 := Z.testbit x (60 + 3)).
  set (b76 := Z.testbit x 76). set (b77 := Z.testbit x (76 + 1)).
  set (b78 := Z.testbit x (76 + 2)). set (b79 := Z.testbit x (76 + 3)).
  clearbody b60 b61 b62 b63 b76 b77 b78 b79. clear x.
  destruct b60, b61, b62, b63, b76, b77, b78, b79; vm_compute; intuition congruence.
Qed.

Lemma digit_values c :
  Validate.lower_hex c = true ->
  (Ipaddress.hex_value c = 4 -> c = "4"%char)
  /\ (8 <= Ipaddress.hex_value c <= 11 ->
      c = "8"%char \/ c = "9"%char \/ c = "a"%char \/ c = "b"%char).
Proof.
  destruct c as [[] [] [] [] [] [] [] []]; intros H; try discriminate H;
    (split; [vm_compute; intros E; try discriminate E; reflexivity
            | vm_compute; intros [E1 E2]; auto;
              first [exfalso; apply E1; reflexivity | exfalso; apply E2; reflexivity]]).
Qed.

(** The hexadecimal form of a version 4 UUID *)
Lemma uuid4_hex_shape bytes :
  List.length bytes = 16%nat ->
  String.length (Uuid.hex (Uuid.UUID_int bytes 4)) = 32%nat
  /\ Str.forallb Validate.lower_hex (Uuid.hex (Uuid.UUID_int bytes 4)) = true
  /\ String.get 12 (Uuid.hex (Uuid.UUID_int bytes 4)) = Some "4"%char
  /\ exists c, String.get 16 (Uuid.hex (Uuid.UUID_int bytes 4)) = Some c
               /\ (c = "8"%char \/ c = "9"%char \/ c = "a"%char \/ c = "b"%char).
Proof.
  intros L. unfold Uuid.hex.
  destruct (format_032x_spec (UuidFacts.UUID_int_range bytes L)) as (Hl & Hh & Hv).
  destruct (uuid4_nibbles bytes) as [N4 N8].
  set (id := format_032x (Uuid.UUID_int bytes 4)) in *.
  split; [exact Hl|]. split; [exact Hh|].
  destruct (@get_some id 12 ltac:(lia)) as (c12 & G12).
  destruct (@get_some id 16 ltac:(lia)) as (c16 & G16).
  pose proof (digit_at id 12 Hh G12) as D12.
  pose proof (digit_at id 16 Hh G16) as D16.
  rewrite Hv, Hl in D12, D16.
  change (16 ^ Z.of_nat (32 - 1 - 12)) with (2 ^ 76) in D12.
  change (16 ^ Z.of_nat (32 - 1 - 16)) with (2 ^ 60) in D16.
  split.
  - rewrite G12, D12, N4. reflexivity.
  - exists c16. split; [exact G16|]. rewrite D16.
    assert (C : (Uuid.UUID_int bytes 4 / 2 ^ 60) mod 16 = 8
                \/ (Uuid.UUID_int bytes 4 / 2 ^ 60) mod 16 = 9
                \/ (Uuid.UUID_int bytes 4 / 2 ^ 60) mod 16 = 10
                \/ (Uuid.UUID_int bytes 4 / 2 ^ 60) mod 16 = 11) by lia.
    destruct C as [-> | [-> | [-> | ->]]]; vm_compute; auto.
Qed.

End VersionBits.

(** ** The values of the outputs *)

Module TypedFacts.
Local Close Scope Z_scope.
Import Schema SchemaFacts Shape RevalidateFacts.

Section Typed.
Variable s : schema.
Hypothesis F : fixed s = true.
Hypothesis X : extra s = REMOVE_EXTRA.

Lemma out_resulted items : forall p w p' w',
  validate_items s items p w = (Ok p', w') ->
  Forall (resulted s) (out p) -> Forall (resulted s) (out p').
Proof.
  induction items as [|[k0 v] items IH]; intros p w p' w' H Q.
  - injection H as <- <-. exact Q.
  - rewrite step_fixed in H by assumption.
    destruct (field s k0) as [f|] eqn:Ef; [|eauto].
    destruct (f v w) as [[c|errs|e] w1] eqn:Ev; [| |discriminate].
    + apply (IH _ _ _ _ H). cbn [out]. apply Forall_forall. intros [k' c'] Hin.
      apply set_in in Hin. destruct Hin as [[= -> ->]|Hin].
      * exists f, v, w. cbn [fst snd]. rewrite Ev. auto.
      * rewrite Forall_forall in Q. exact (Q _ Hin).
    + apply (IH _ _ _ _ H). exact Q.
Qed.

(** Every item of the output is what the field of its key returned *)
Lemma validate_resulted d w out w' :
  validate s (VDict d) w = (Ok (VDict out), w') -> Forall (resulted s) out.
Proof.
  intros H. rewrite validate_dict in H.
  destruct (insert_defaults (entries s) d w) as [kvm w1].
  destruct (validate_items s kvm (MkProgress [] [] []) w1) as [[p|errs|e] w2] eqn:V;
    [|discriminate..].
  destruct (errors p ++ missing_required (entries s) (found p))%list; [|discriminate].
  injection H as <- <-. apply (out_resulted _ _ _ V). constructor.
Qed.

(** The field of a key is one of the entries of the schema *)
Lemma resulted_entry kc :
  resulted s kc ->
  exists key f v w, In (key, f) (entries s) /\ literal key = Some (fst kc)
                    /\ fst (f v w) = Ok (snd kc).
Proof.
  intros (f & v & w & Ef & E). destruct (field_in s (fst kc) F Ef) as (key & Hin & L).
  exists key, f, v, w. auto.
Qed.

End Typed.
End TypedFacts.

Module ResultFacts.
Import Schema Shape Validate Const PortMapFacts HexShape.

Lemma pure_result (g : validator) v w : fst (pure g v w) = g v.
Proof. reflexivity. Qed.

Lemma match_string pattern v c :
  Vol.Match pattern v = Ok c -> exists s, v = VStr s /\ c = VStr s /\ Re.match_ pattern s <> None.
Proof.
  destruct v; try discriminate. intros H. apply match_accepts in H. destruct H as [-> H]. eauto.
Qed.

Lemma hex_result lo hi v c :
  Vol.Match (Re.Cat Re.Bol (Re.Cat (Re.Repeat lower_hex lo (Some hi)) Re.Eol)) v = Ok c ->
  exists s, c = VStr s /\ up_to_newline (hex_string lo hi) s.
Proof.
  intros H. apply match_string in H. destruct H as (s & _ & -> & H).
  apply hex_pattern_iff in H. eauto.
Qed.

Lemma image_result v c :
  docker_image v = Ok c ->
  exists s, c = VStr s
            /\ up_to_newline (Spec.image_reference Spec.plain_segment_char Spec.segment_char) s.
Proof.
  intros H. apply match_string in H. destruct H as (s & _ & -> & H).
  apply ImageFacts.docker_image_pattern_iff in H.
  destruct H as (ns & name & tail & -> & Hns & Hname & A1 & A2 & T).
  exists (ns ++ "/" ++ name ++ tail). split; [reflexivity|].
  exists (ns ++ "/" ++ name), tail. split.
  - rewrite !StrFacts.str_app_assoc. reflexivity.
  - split; [|exact T]. exists ns, name.
    rewrite <- (@ClassFacts.forallb_ext _ _ ns ClassFacts.namespace_class_plain).
    rewrite <- (@ClassFacts.forallb_ext _ _ name ClassFacts.name_class_segment). auto.
Qed.

Lemma maybe_str_result rt v c :
  Vol.Maybe (Vol.Coerce (str_type rt)) v = Ok c -> c = VNone \/ exists s, c = VStr s.
Proof.
  intros H. apply maybe_ok in H. destruct H as [[_ ->] | [_ H]]; [auto | right].
  destruct (coerce_str_total rt v) as (s & E). rewrite E in H. injection H as <-. eauto.
Qed.

Lemma coerce_str_result rt v c : Vol.Coerce (str_type rt) v = Ok c -> exists s, c = VStr s.
Proof.
  intros H. destruct (coerce_str_total rt v) as (s & E). rewrite E in H. injection H as <-. eauto.
Qed.

Lemma boolean_result v c : Vol.Boolean v = Ok c -> exists b, c = VBool b.
Proof.
  unfold Vol.Boolean. intros H. destruct v; try (injection H as <-; eauto).
  destruct (existsb _ _); [injection H as <-; eauto|].
  destruct (existsb _ _); [injection H as <-; eauto | discriminate].
Qed.

Lemma int_range_result min max v c :
  Vol.All [Vol.Coerce Vol.int_type; Vol.Range min max] v = Ok c ->
  exists z, c = VInt z /\ Spec.in_range min max z.
Proof.
  intros H. apply PipelineFacts.int_range_ok in H. destruct H as (z & -> & _ & R). eauto.
Qed.

Lemma timezone_result rt v c :
  validate_timezone rt v = Ok c -> exists s, c = VStr s /\ known_timezone rt s = true.
Proof.
  unfold validate_timezone. destruct v; try discriminate.
  destruct (known_timezone rt s) eqn:E; [|discriminate]. intros [= <-]. eauto.
Qed.

Lemma log_level_result v c :
  log_level v = Ok c ->
  exists s, c = VStr s /\ List.In s ["debug"; "info"; "warning"; "error"; "critical"].
Proof.
  unfold log_level, Vol.In. destruct v; try discriminate.
  destruct (existsb (String.eqb s) _) eqn:E; [|discriminate]. intros [= <-].
  exists s. split; [reflexivity|]. apply existsb_exists in E. destruct E as (x & Hin & E).
  apply String.eqb_eq in E. subst x. exact Hin.
Qed.

(** A list schema that has collected an error does not return *)
Lemma sequence_clean (validators : list validator) l : forall i out errors c,
  Vol.validate_sequence validators l i out errors = Ok c -> errors = [].
Proof.
  induction l as [|item l IH]; intros i out errors c H.
  - simpl in H. destruct errors; [reflexivity | discriminate].
  - cbn [Vol.validate_sequence] in H.
    destruct (Vol.validate_element validators item []) as [cval|es|es|e]; try discriminate.
    + exact (IH _ _ _ _ H).
    + apply IH in H. apply app_eq_nil in H. tauto.
Qed.

(** The elements that a list schema of one validator accepts *)
Lemma sequence_accepted (f : validator) l :
  reports f ->
  forall i out errors c,
    Vol.validate_sequence [f] l i out errors = Ok c ->
    Forall (fun v => exists x, f v = Ok x) l.
Proof.
  intros R. induction l as [|item l IH]; intros i out errors c H; [constructor|].
  cbn [Vol.validate_sequence Vol.validate_element] in H.
  destruct (f item) as [cval|es|e] eqn:E.
  - constructor; [eauto | eapply IH; eauto].
  - destruct (Vol.deeper es); [discriminate|]. exfalso.
    apply sequence_clean in H. apply app_eq_nil in H. destruct H as [_ H].
    destruct es; [exact (R _ E) | discriminate].
  - discriminate.
Qed.

Lemma accepted_strings items :
  Forall (fun v => exists x, validate_repository v = Ok x) items ->
  exists l, items = List.map VStr l
            /\ Forall (fun s => validate_repository (VStr s) = Ok (VStr s)) l.
Proof.
  induction 1 as [|v items (x & E) _ (l & -> & IH)].
  - exists []. split; [reflexivity | constructor].
  - pose proof (SettledFacts.repository_same _ E) as ->.
    destruct v; try discriminate E.
    exists (s :: l). split; [reflexivity | constructor; assumption].
Qed.

(** What [repositories] returns: a list of distinct strings, each a
    repository that [validate_repository] accepts *)
Lemma repositories_result v c :
  repositories v = Ok c ->
  exists l, c = VList (List.map VStr l) /\ NoDup l
            /\ Forall (fun s => validate_repository (VStr s) = Ok (VStr s)) l.
Proof.
  intros H. pose proof (SettledFacts.repositories_same _ H) as ->.
  unfold repositories in H. rewrite PipelineFacts.all_two in H.
  destruct (Vol.Sequence [validate_repository] v) as [y|errs|e] eqn:E; try discriminate.
  cbv beta iota delta [bind] in H.
  destruct (Vol.Unique y) as [x|errs|e] eqn:U; try discriminate.
  unfold Vol.Sequence in E. destruct v as [| | | | |items|]; try discriminate.
  assert (A : Forall (fun v => exists x, validate_repository v = Ok x) items).
  { destruct items as [|item items]; [constructor|].
    exact (@sequence_accepted _ _ SettledFacts.repository_reports _ _ _ _ E). }
  destruct (accepted_strings A) as (l & -> & Hl).
  exists l. split; [reflexivity|]. split; [|exact Hl].
  assert (Ey : y = VList (List.map VStr l)).
  { destruct l as [|s l]; [cbn in E; injection E as <-; reflexivity|].
    destruct (@SettledFacts.sequence_same _ (List.map VStr (s :: l))
                SettledFacts.repository_same SettledFacts.repository_reports _ _ _ _ E)
      as [_ ->]. reflexivity. }
  subst y. rewrite SequenceFacts.unique_strings in U.
  apply SequenceFacts.has_repeat_nodup.
  destruct (Spec.has_repeat l); [discriminate | reflexivity].
Qed.

End ResultFacts.

Module UpdaterFacts.
Import Schema SchemaFacts Shape Validate Const PortMapFacts.

(** A schema returns a dictionary, and for a dictionary only *)
Lemma validate_ok_dict s v w c :
  fst (validate s v w) = Ok c ->
  exists d out, v = VDict d /\ c = VDict out
                /\ validate s (VDict d) w = (Ok (VDict out), snd (validate s (VDict d) w)).
Proof.
  destruct v as [| | | | | |d]; try discriminate. intros H.
  assert (E : exists out, c = VDict out).
  { rewrite validate_dict in H.
    destruct (insert_defaults (entries s) d w) as [kvm w1].
    destruct (validate_items s kvm (MkProgress [] [] []) w1) as [[p|errs|e] w2];
      try discriminate.
    destruct (errors p ++ missing_required (entries s) (found p))%list; [|discriminate].
    injection H as <-. eauto. }
  destruct E as (out & ->). exists d, out. repeat split.
  destruct (validate s (VDict d) w) as [r w2]. cbn [fst snd] in *. congruence.
Qed.

Lemma has_key_pair k d : has_key k d = true -> exists c, In (k, c) d.
Proof.
  unfold has_key. rewrite existsb_exists. intros ([k' c] & Hin & E).
  apply String.eqb_eq in E. cbn [fst] in E. subst k'. eauto.
Qed.

Lemma channel_result channels v c :
  Vol.Coerce (UpdateChannels channels) v = Ok c -> exists s, c = VStr s /\ In s channels.
Proof.
  unfold Vol.Coerce, UpdateChannels. cbn [Vol.construct].
  destruct v; try discriminate.
  destruct (existsb (String.eqb s) channels) eqn:E; [|discriminate].
  intros [= <-]. exists s. split; [reflexivity|].
  apply existsb_exists in E. destruct E as (x & Hin & E).
  apply String.eqb_eq in E. subst x. exact Hin.
Qed.

Lemma channel_reports channels : reports (Vol.Coerce (UpdateChannels channels)).
Proof.
  intros v. unfold Vol.Coerce, UpdateChannels. cbn [Vol.construct].
  destruct v; try discriminate.
  destruct (existsb (String.eqb s) channels); discriminate.
Qed.

Lemma updater_fields_report rt channels stable :
  fields_report (SCHEMA_UPDATER_CONFIG rt channels stable).
Proof.
  intros e v w Hin. unfold SCHEMA_UPDATER_CONFIG in Hin. cbn [entries List.In] in Hin.
  repeat (destruct Hin as [<- | Hin];
          [ cbn [snd];
            first [ apply ReportFacts.validate_reports
                  | rewrite ResultFacts.pure_result;
                    first [ apply channel_reports | apply coerce_str_reports ] ]
          | ]).
  destruct Hin.
Qed.

(** The items of the image dictionary of the updater configuration *)
Lemma image_items d out w w' :
  validate
    (MkSchema
       [ (Optional ATTR_HOMEASSISTANT None, pure docker_image);
         (Optional ATTR_SUPERVISOR None, pure docker_image);
         (Optional ATTR_CLI None, pure docker_image);
         (Optional ATTR_DNS None, pure docker_image);
         (Optional ATTR_AUDIO None, pure docker_image);
         (Optional ATTR_MULTICAST None, pure docker_image) ]
       REMOVE_EXTRA) (VDict d) w = (Ok (VDict out), w') ->
  forall k c,
    In (k, c) out ->
    In k [ATTR_HOMEASSISTANT; ATTR_SUPERVISOR; ATTR_CLI; ATTR_DNS; ATTR_AUDIO; ATTR_MULTICAST]
    /\ exists s, c = VStr s
                 /\ up_to_newline
                      (Spec.image_reference Spec.plain_segment_char Spec.segment_char) s.
Proof.
  set (s := MkSchema _ _). intros H k c Hin.
  pose proof (@TypedFacts.validate_resulted s eq_refl eq_refl d w out w' H) as Q.
  rewrite Forall_forall in Q.
  destruct (@TypedFacts.resulted_entry s eq_refl (k, c) (Q _ Hin))
    as (key & f & v & w0 & He & L & E). subst s.
  cbn [fst snd] in L, E. cbn [entries List.In] in He.
  repeat (destruct He as [He | He];
          [ apply pair_equal_spec in He; destruct He as [<- <-];
            cbn [literal] in L; injection L as <-;
            rewrite ResultFacts.pure_result in E;
            split; [cbn; tauto | exact (@ResultFacts.image_result _ _ E)]
          | ]).
  destruct He.
Qed.

End UpdaterFacts.

(** ** What [RE_REPOSITORY] matches, and the groups *)

Module RepositoryMatch.
Local Close Scope Z_scope.
Import Re ReSpec ReFacts StrFacts Validate Spec RepositoryFacts Shape.

(** A greedy repetition that can take all of [u] and go on from there
    does so *)
Lemma rep_first c u : forall rest lo i g k m,
  Str.forallb c u = true -> lo <= String.length u ->
  match rest with EmptyString => True | String a _ => c a = false end ->
  k (i + String.length u) rest g = Some m ->
  rep c lo None i (u ++ rest) g k = Some m.
Proof.
  induction u as [|a u IH]; intros rest lo i g k m Hall Hlo Hrest Hk.
  - cbn [String.length] in Hlo, Hk. assert (lo = 0) by lia. subst lo.
    rewrite Nat.add_0_r in Hk. cbn [append].
    destruct rest as [|b rest]; cbn [rep]; [exact Hk|].
    rewrite Hrest. cbn [andb]. exact Hk.
  - cbn [Str.forallb] in Hall. apply andb_true_iff in Hall. destruct Hall as [Ha Hall].
    cbn [append rep below dec option_map]. rewrite Ha. cbn [andb].
    rewrite (IH rest (Nat.pred lo) (S i) g k m); auto.
    + cbn [String.length] in Hlo. lia.
    + cbn [String.length] in Hk. replace (S i + String.length u) with (i + S (String.length u)) by lia.
      exact Hk.
Qed.

(** A string without [#] is matched whole, by the group [url] *)
Lemma match_without_hash s :
  s <> "" -> Str.contains "#" s = false ->
  match_ RE_REPOSITORY s = Some (MkMatch s (String.length s) [("url", (0, String.length s))]).
Proof.
  intros Hs Hc. unfold match_, RE_REPOSITORY, Re.plus. cbn [run Nat.eqb].
  rewrite <- (str_app_empty_r s) at 1.
  rewrite (@rep_first not_hash s "" 1 0 [] _ (String.length s, [("url", (0, String.length s))]));
    [reflexivity | apply not_hash_iff; exact Hc | apply nonempty_length; exact Hs | exact I |].
  reflexivity.
Qed.

Lemma branch_char_newline : branch_char Chars.newline = false.
Proof. reflexivity. Qed.

(** A url, [#], a branch and the end of the line are matched, by the two
    groups *)
Lemma match_with_branch url b tail :
  url <> "" -> Str.contains "#" url = false ->
  b <> "" -> Str.forallb branch_char b = true ->
  tail = "" \/ tail = Demo.nl ->
  match_ RE_REPOSITORY (url ++ "#" ++ b ++ tail)
  = Some (MkMatch (url ++ "#" ++ b ++ tail)
                  (S (String.length url) + String.length b)
                  [("branch", (S (String.length url), S (String.length url) + String.length b));
                   ("url", (0, String.length url))]).
Proof.
  intros Hu Hc Hb Hall Ht. unfold match_, RE_REPOSITORY, Re.plus, Re.lit. cbn [run Nat.eqb].
  rewrite (@rep_first not_hash url ("#" ++ b ++ tail) 1 0 [] _
             (S (String.length url) + String.length b,
              [("branch", (S (String.length url), S (String.length url) + String.length b));
               ("url", (0, String.length url))]));
    [reflexivity | apply not_hash_iff; exact Hc | apply nonempty_length; exact Hu
    | reflexivity |].
  cbn [append Nat.add]. change (Chars.is_char "#" "#") with true. cbv beta iota.
  rewrite (@rep_first (union Chars.word hyphen) b tail 1 (S (String.length url))
             [("url", (0, String.length url))] _
             (S (String.length url) + String.length b,
              [("branch", (S (String.length url), S (String.length url) + String.length b));
               ("url", (0, String.length url))]));
    [reflexivity | exact Hall | apply nonempty_length; exact Hb | |].
  - destruct Ht as [-> | ->]; [exact I | reflexivity].
  - destruct Ht as [-> | ->]; reflexivity.
Qed.

(** The ways [RE_REPOSITORY] matches, with the groups *)
Lemma repository_match_groups s e s' g :
  matches RE_REPOSITORY 0 s [] e s' g ->
  exists url rest,
    s = url ++ rest /\ url <> "" /\ Str.contains "#" url = false
    /\ ((at_eol rest = true /\ g = [("url", (0, String.length url))])
        \/ exists branch tail,
            rest = String "#" (branch ++ tail) /\ branch <> ""
            /\ Str.forallb branch_char branch = true /\ at_eol tail = true
            /\ g = [("branch", (S (String.length url),
                                S (String.length url) + String.length branch));
                    ("url", (0, String.length url))]).
Proof.
  unfold RE_REPOSITORY, Re.plus, Re.lit. cbn [matches within].
  intros (i1 & s1 & g1 & (_ & -> & -> & ->) & i2 & s2 & g2
          & (g0 & (n & Hn & _ & Hlen & Hall & -> & -> & ->) & ->) & i3 & s3 & g3
          & Hopt & Heol & _ & -> & ->).
  exists (Str.take n s), (Str.drop n s).
  rewrite take_drop, length_take by exact Hlen.
  split; [reflexivity|]. split; [apply take_nonempty; assumption|].
  split; [apply not_hash_iff; exact Hall|].
  destruct Hopt as [(i4 & s4 & g4 & (a & Hs & Ha & -> & ->)
                     & g5 & (m & Hm & _ & Hlen' & Hall' & -> & -> & ->) & ->)
                   | (-> & -> & ->)].
  - right. apply Ascii.eqb_eq in Ha. subst a.
    exists (Str.take m s4), (Str.drop m s4). rewrite take_drop.
    rewrite length_take by exact Hlen'.
    repeat split; auto. apply take_nonempty; assumption.
  - left. split; [exact Heol | reflexivity].
Qed.

Lemma contains_hash_app url r : Str.contains "#" (url ++ String "#" r) = true.
Proof.
  rewrite contains_app, contains_cons, Ascii.eqb_refl, orb_true_r. reflexivity.
Qed.

(** What a match of [RE_REPOSITORY] says about the string and the groups *)
Lemma match_groups s data :
  match_ RE_REPOSITORY s = Some data ->
  exists url branch,
    repository_match s url branch
    /\ group data "url" = Some url /\ group data "branch" = branch.
Proof.
  intros M. destruct (Str.contains "#" s) eqn:Hc.
  - destruct (match_sound _ _ M) as (Hs & s' & D).
    apply repository_match_groups in D.
    destruct D as (url & rest & E & Hu & Hcu & [(Heol & G) | (b & tail & -> & Hb & Hall & Heol & G)]).
    + exfalso. apply at_eol_iff in Heol. rewrite E, contains_app, Hcu in Hc.
      destruct Heol as [-> | ->]; discriminate Hc.
    + exists url, (Some b). apply at_eol_iff in Heol. split.
      * split; [exact Hu|]. split; [exact Hcu|]. split; [exact Hb|]. split; [exact Hall|].
        exists tail. split; [exact Heol | exact E].
      * unfold group. rewrite G, Hs. cbn [lookup String.eqb Ascii.eqb Bool.eqb].
        rewrite Nat.sub_0_r. change (Str.drop 0 s) with s. rewrite E. rewrite take_app.
        split; [reflexivity|].
        replace (S (String.length url) + String.length b - S (String.length url))
          with (String.length b) by lia.
        assert (Ed : forall u x, Str.drop (S (String.length u)) (u ++ String "#" x) = x).
        { intros u x. induction u as [|c u IH]; [reflexivity | exact IH]. }
        rewrite Ed. rewrite take_app. reflexivity.
  - assert (Hs : s <> "").
    { intros ->. discriminate M. }
    rewrite (@match_without_hash _ Hs Hc) in M. injection M as <-.
    exists s, None. split; [split; [exact Hs | split; [exact Hc | reflexivity]]|].
    unfold group. cbn [lookup String.eqb Ascii.eqb Bool.eqb spans subject].
    rewrite Nat.sub_0_r. cbn [Str.drop]. rewrite take_all. split; reflexivity.
Qed.

(** Conversely, a string of that form is matched, with these groups *)
Lemma groups_match s url branch :
  repository_match s url branch ->
  exists data, match_ RE_REPOSITORY s = Some data
               /\ group data "url" = Some url /\ group data "branch" = branch.
Proof.
  intros (Hu & Hc & H). destruct branch as [b|].
  - destruct H as (Hb & Hall & tail & Ht & ->).
    eexists. split; [apply match_with_branch; assumption|].
    destruct (@match_groups _ _ (@match_with_branch _ _ _ Hu Hc Hb Hall Ht))
      as (url' & br' & (Hu' & Hc' & H') & G1 & G2).
    rewrite G1, G2. destruct br' as [b'|].
    + destruct H' as (Hb' & Hall' & tail' & Ht' & E).
      cbn [append] in E. apply (@hash_split_unique _ _ _ _ Hc Hc') in E.
      destruct E as [-> E]. split; [reflexivity|]. f_equal.
      assert (U : forall x y t t', Str.forallb branch_char x = true ->
                  Str.forallb branch_char y = true ->
                  (t = "" \/ t = Demo.nl) -> (t' = "" \/ t' = Demo.nl) ->
                  x ++ t = y ++ t' -> y = x).
      { induction x as [|c x IH]; intros y t t' Hx Hy T T' Exy.
        - destruct y as [|d y]; [reflexivity|]. exfalso. cbn [append] in Exy.
          cbn [Str.forallb] in Hy. apply andb_true_iff in Hy.
          destruct T as [-> | ->]; [discriminate|].
          injection Exy as <- _. destruct Hy as [Hy _]. discriminate Hy.
        - destruct y as [|d y].
          + exfalso. cbn [append] in Exy. cbn [Str.forallb] in Hx. apply andb_true_iff in Hx.
            destruct T' as [-> | ->]; [discriminate|].
            injection Exy as -> _. destruct Hx as [Hx _]. discriminate Hx.
          + cbn [append] in Exy. injection Exy as -> Exy.
            cbn [Str.forallb] in Hx, Hy. apply andb_true_iff in Hx, Hy.
            f_equal. exact (IH y t t' (proj2 Hx) (proj2 Hy) T T' Exy). }
      exact (U _ _ _ _ Hall Hall' Ht Ht' E).
    + exfalso. rewrite <- H' in Hc'. cbn [append] in Hc'.
      rewrite contains_hash_app in Hc'. discriminate.
  - subst s. eexists. split; [apply match_without_hash; assumption|].
    unfold group. cbn [lookup String.eqb Ascii.eqb Bool.eqb spans subject].
    rewrite Nat.sub_0_r. cbn [Str.drop]. rewrite take_all. split; reflexivity.
Qed.

End RepositoryMatch.

(** ** The bits of a generated [uuid] *)

Module UuidBits.
Import Uuid Shape.

(** Two UUIDs of version 4 are equal exactly when the bytes they are made
    from agree outside the variant and the version *)
Lemma UUID_int_eq b1 b2 :
  UUID_int b1 4 = UUID_int b2 4
  <-> Z.land (int_from_bytes b1) random_bits = Z.land (int_from_bytes b2) random_bits.
Proof.
  unfold UUID_int, random_bits.
  generalize (int_from_bytes b1) (int_from_bytes b2). intros x y.
  set (A := Z.lnot (Z.shiftl 49152 48)). set (B := Z.lnot (Z.shiftl 61440 64)).
  set (c1 := Z.shiftl 32768 48). set (c2 := Z.shiftl 4 76).
  assert (H1 : forall n, Z.testbit A n = true -> Z.testbit c1 n = false).
  { intros n Hn. assert (E : Z.land c1 A = 0) by reflexivity.
    apply (f_equal (fun z => Z.testbit z n)) in E.
    rewrite Z.land_spec, Hn, andb_true_r, Z.bits_0 in E. exact E. }
  assert (H2 : forall n, Z.testbit B n = true -> Z.testbit c2 n = false).
  { intros n Hn. assert (E : Z.land c2 B = 0) by reflexivity.
    apply (f_equal (fun z => Z.testbit z n)) in E.
    rewrite Z.land_spec, Hn, andb_true_r, Z.bits_0 in E. exact E. }
  split; intros E; apply Z.bits_inj; intros n;
    apply (f_equal (fun z => Z.testbit z n)) in E;
    repeat rewrite ?Z.lor_spec, ?Z.land_spec in E;
    repeat rewrite ?Z.lor_spec, ?Z.land_spec;
    specialize (H1 n); specialize (H2 n);
    destruct (Z.testbit A n), (Z.testbit B n);
    try rewrite (H1 eq_refl) in *; try rewrite (H2 eq_refl) in *;
    destruct (Z.testbit x n), (Z.testbit y n), (Z.testbit c1 n), (Z.testbit c2 n);
    cbn in E |- *; congruence.
Qed.

End UuidBits.

(** * The claims *)

(** C1, as amended.  The [wait_boot] field of [SCHEMA_SUPERVISOR_CONFIG]
    accepts a value exactly when [int] turns it into an integer from 1 to 60,
    and returns that integer; the [wait_boot] field of [SCHEMA_HASS_CONFIG]
    accepts a value exactly when [int] turns it into an integer of at least
    60, with no upper bound.  What [int] turns into an integer is what
    Python's [int] does: [" 5 "] and ["+5"] read as 5, a float is truncated,
    and a string that starts with the separator of code 29 is rejected by
    the coercion, as is [None]. *)
Theorem wait_boot_bounds (rt : runtime) (w : world) (v x : value) :
  (Schema.field_result (Validate.SCHEMA_SUPERVISOR_CONFIG rt) Const.ATTR_WAIT_BOOT v w
   = Some (Ok x)
   <-> exists z, x = VInt z /\ Builtins.int v = Ok z /\ 1 <= z <= 60)
  /\ (Schema.field_result (Validate.SCHEMA_HASS_CONFIG rt) Const.ATTR_WAIT_BOOT v w
      = Some (Ok x)
      <-> exists z, x = VInt z /\ Builtins.int v = Ok z /\ 60 <= z)
  /\ Schema.field_result (Validate.SCHEMA_SUPERVISOR_CONFIG rt) Const.ATTR_WAIT_BOOT
                          (VStr " 5 ") w = Some (Ok (VInt 5))
  /\ Schema.field_result (Validate.SCHEMA_SUPERVISOR_CONFIG rt) Const.ATTR_WAIT_BOOT
                          (VStr "+5") w = Some (Ok (VInt 5))
  /\ Schema.field_result (Validate.SCHEMA_SUPERVISOR_CONFIG rt) Const.ATTR_WAIT_BOOT
                          (VFloat (S754_finite false 11 (-1))) w = Some (Ok (VInt 5))
  /\ Schema.field_result (Validate.SCHEMA_SUPERVISOR_CONFIG rt) Const.ATTR_WAIT_BOOT
                          (VStr (String (ascii_of_nat 29) "5")) w
     = Some (raise_invalid CoerceInvalid "expected %s")
  /\ Schema.field_result (Validate.SCHEMA_SUPERVISOR_CONFIG rt) Const.ATTR_WAIT_BOOT
                          VNone w
     = Some (raise_invalid CoerceInvalid "expected %s")
  /\ Schema.field_result (Validate.SCHEMA_SUPERVISOR_CONFIG rt) Const.ATTR_WAIT_BOOT
                          (VStr "61") w
     = Some (raise_invalid RangeInvalid "value must be at most %s")
  /\ Schema.field_result (Validate.SCHEMA_HASS_CONFIG rt) Const.ATTR_WAIT_BOOT
                          (VStr "61") w = Some (Ok (VInt 61))
  /\ Schema.field_result (Validate.SCHEMA_HASS_CONFIG rt) Const.ATTR_WAIT_BOOT
                          (VStr "59") w
     = Some (raise_invalid RangeInvalid "value must be at least %s").
Proof.
  split; [|split; [|repeat split; reflexivity]];
    rewrite ?supervisor_wait_boot_field, ?hass_wait_boot_field, !some_inj;
    unfold Validate.wait_boot; rewrite !PipelineFacts.int_range_ok; unfold Spec.in_range;
    split; intros (z & ? & ? & ?); exists z; repeat split; auto; lia.
Qed.

(** C1 as stated fails: the supervisor configuration accepts [wait_boot = 5],
    which is below 60. *)
Lemma wait_boot_bounds_not_as_stated :
  ~ (forall v x,
        (Schema.field_result (Validate.SCHEMA_SUPERVISOR_CONFIG Demo.sample_runtime)
                             Const.ATTR_WAIT_BOOT v Demo.sample_world = Some (Ok x)
         <-> exists z, x = VInt z /\ Builtins.int v = Ok z /\ 60 <= z)
        /\ (Schema.field_result (Validate.SCHEMA_HASS_CONFIG Demo.sample_runtime)
                                Const.ATTR_WAIT_BOOT v Demo.sample_world = Some (Ok x)
            <-> exists z, x = VInt z /\ Builtins.int v = Ok z /\ 1 <= z <= 60)).
Proof.
  intros H. destruct (H (VInt 5) (VInt 5)) as [[H1 _] _].
  destruct (H1 eq_refl) as (z & _ & E & L). injection E as <-. lia.
Qed.

(** C4.  On a string, [network_port] first coerces with [int] and then
    checks the range: it returns the integer exactly when the string reads
    as an integer from 1 to 65535; a string that does not read as an integer
    fails with [CoerceInvalid], and an integer outside the range with
    [RangeInvalid].  A string reads as an integer the way Python's [int]
    reads it: white space around the number is skipped, a sign and single
    underscores between digits are allowed, and the separators of code 28 to
    31, which [int] does not skip, make the coercion fail. *)
Theorem network_port_coerces_then_checks_range (s : string) :
  Validate.network_port (VStr s)
  = match Builtins.int_of_string s with
    | None => raise_invalid CoerceInvalid "expected %s"
    | Some n =>
        if n <? 1 then raise_invalid RangeInvalid "value must be at least %s"
        else if 65535 <? n then raise_invalid RangeInvalid "value must be at most %s"
        else Ok (VInt n)
    end
  /\ (forall x, Validate.network_port (VStr s) = Ok x
                <-> exists n, x = VInt n /\ Builtins.int_of_string s = Some n
                              /\ 1 <= n <= 65535)
  /\ Validate.network_port (VStr "0")
     = raise_invalid RangeInvalid "value must be at least %s"
  /\ Validate.network_port (VStr "65536")
     = raise_invalid RangeInvalid "value must be at most %s"
  /\ Validate.network_port (VStr "-1")
     = raise_invalid RangeInvalid "value must be at least %s"
  /\ Validate.network_port (VStr "abc") = raise_invalid CoerceInvalid "expected %s"
  /\ Validate.network_port (VStr "8123") = Ok (VInt 8123)
  /\ Validate.network_port (VStr (" 8123 " ++ Demo.nl)) = Ok (VInt 8123)
  /\ Validate.network_port (VStr (String (ascii_of_nat 160) "8123")) = Ok (VInt 8123)
  /\ Validate.network_port (VStr "+8_123") = Ok (VInt 8123)
  /\ Validate.network_port (VStr (String (ascii_of_nat 28) "80"))
     = raise_invalid CoerceInvalid "expected %s"
  /\ Validate.network_port (VStr ("80" ++ String (ascii_of_nat 31) ""))
     = raise_invalid CoerceInvalid "expected %s"
  /\ Validate.network_port (VStr "8 0") = raise_invalid CoerceInvalid "expected %s"
  /\ Validate.network_port (VStr "- 80") = raise_invalid CoerceInvalid "expected %s"
  /\ Validate.network_port (VStr "8__0") = raise_invalid CoerceInvalid "expected %s"
  /\ Validate.network_port (VStr "80.0") = raise_invalid CoerceInvalid "expected %s"
  /\ Validate.network_port (VStr "") = raise_invalid CoerceInvalid "expected %s".
Proof.
  split; [|split; [|repeat split; reflexivity]].
  - unfold Validate.network_port.
    rewrite PipelineFacts.all_two, PipelineFacts.coerce_int_string.
    destruct (Builtins.int_of_string s) as [n|]; [|reflexivity].
    cbv beta iota delta [bind]. rewrite PipelineFacts.range_int.
    destruct (n <? 1); [reflexivity|]. destruct (65535 <? n); reflexivity.
  - intros x. unfold Validate.network_port. rewrite PipelineFacts.int_range_ok.
    unfold Spec.in_range. simpl Builtins.int. split.
    + intros (n & -> & E & R). exists n.
      destruct (Builtins.int_of_string s); [|discriminate]. injection E as ->. auto.
    + intros (n & -> & E & R). exists n. rewrite E. auto.
Qed.

(** C2, as amended.  For a string that does not end in a newline,
    [docker_image] succeeds, returning the string, exactly when it has the
    form [namespace/name] with both segments non-empty, the namespace made of
    alphanumeric characters, underscores and braces, and the name of those
    and hyphens: a hyphen is permitted in the name only. *)
Theorem docker_image_accepts (s : string) (x : value) :
  Str.last s <> Some Chars.newline ->
  (Validate.docker_image (VStr s) = Ok x
   <-> x = VStr s /\ Spec.image_reference Spec.plain_segment_char Spec.segment_char s).
Proof.
  intros L. unfold Spec.image_reference. split.
  - intros H. pose proof (ClassFacts.match_returns_input _ _ H) as ->. split; [reflexivity|].
    apply ImageFacts.match_ok, ImageFacts.docker_image_pattern_iff in H.
    destruct H as (ns & name & tail & -> & Hns & Hname & A1 & A2 & [-> | ->]).
    + exists ns, name. rewrite StrFacts.str_app_empty_r.
      rewrite <- (@ClassFacts.forallb_ext _ _ ns ClassFacts.namespace_class_plain).
      rewrite <- (@ClassFacts.forallb_ext _ _ name ClassFacts.name_class_segment). auto.
    + exfalso. apply L.
      change (ns ++ "/" ++ name ++ Demo.nl)
        with (ns ++ ("/" ++ name) ++ String Chars.newline "").
      rewrite <- StrFacts.str_app_assoc. apply StrFacts.last_app_char.
  - intros (-> & ns & name & -> & Hns & Hname & A1 & A2).
    apply ImageFacts.match_ok, ImageFacts.docker_image_pattern_iff.
    exists ns, name, "". rewrite StrFacts.str_app_empty_r.
    rewrite (@ClassFacts.forallb_ext _ _ ns ClassFacts.namespace_class_plain).
    rewrite (@ClassFacts.forallb_ext _ _ name ClassFacts.name_class_segment). auto 10.
Qed.

Lemma docker_image_accepts_witness :
  Str.last "homeassistant/{arch}-homeassistant" <> Some Chars.newline
  /\ (Validate.docker_image (VStr "homeassistant/{arch}-homeassistant")
      = Ok (VStr "homeassistant/{arch}-homeassistant")
      <-> VStr "homeassistant/{arch}-homeassistant" = VStr "homeassistant/{arch}-homeassistant"
          /\ Spec.image_reference Spec.plain_segment_char Spec.segment_char
                                  "homeassistant/{arch}-homeassistant").
Proof.
  split; [discriminate | apply docker_image_accepts; discriminate].
Defined.

(** C2 as stated fails: [my-org/app] has a hyphen in its namespace and is
    of the stated form, and [docker_image] rejects it. *)
Lemma docker_image_rejects_hyphen_in_namespace :
  ~ (forall s, Validate.docker_image (VStr s) = Ok (VStr s)
               <-> Spec.image_reference Spec.segment_char Spec.segment_char s).
Proof.
  intros H. destruct (H "my-org/app") as [_ H2].
  assert (E : Validate.docker_image (VStr "my-org/app") = Ok (VStr "my-org/app")).
  { apply H2. exists "my-org", "app". repeat split; try reflexivity; discriminate. }
  vm_compute in E. discriminate.
Qed.

(** C3.  On a string, [dns_url] succeeds, returning the string unchanged,
    exactly when its first six characters are [dns://] whatever their case
    and the rest is a literal IPv4 or IPv6 address for [ip_address]; such an
    address is made of digits and dots or holds a colon, so a host name is
    never accepted.  Another scheme and a rest that is not an address fail. *)
Theorem dns_url_accepts (url : string) (x : value) :
  (Validate.dns_url (VStr url) = Ok x
   <-> x = VStr url /\ Spec.dns_scheme url
       /\ Ipaddress.ip_address (Str.drop 6 url) <> None
       /\ Spec.address_shape (Str.drop 6 url))
  /\ Validate.dns_url (VStr "dns://192.168.1.1") = Ok (VStr "dns://192.168.1.1")
  /\ Validate.dns_url (VStr "DNS://2001:db8::1") = Ok (VStr "DNS://2001:db8::1")
  /\ Validate.dns_url (VStr "http://192.168.1.1")
     = raise_invalid InvalidBase "Doesn't start with dns://"
  /\ Validate.dns_url (VStr "dns://not-an-ip") = raise_invalid InvalidBase "Invalid DNS URL: {}"
  /\ Validate.dns_url (VStr "dns://example.com") = raise_invalid InvalidBase "Invalid DNS URL: {}".
Proof.
  split; [|repeat split; reflexivity].
  rewrite <- DnsFacts.dns_scheme_iff. unfold Validate.dns_url.
  destruct (Str.startswith "dns://" (Str.lower url)); cbn [negb].
  - destruct (Ipaddress.ip_address (Str.drop 6 url)) eqn:E.
    + split.
      * intros H. injection H as <-. repeat split; auto; [discriminate|].
        apply AddressFacts.ip_address_shape. rewrite E. discriminate.
      * intros (-> & _). reflexivity.
    + split; [discriminate | intros (_ & _ & N & _); congruence].
  - split; [discriminate | intros (_ & N & _); discriminate].
Qed.

(** C5.  [validate_repository] succeeds on a string, returning it unchanged,
    exactly when both of its stages pass: the string matches
    [RE_REPOSITORY], and the captured [url] passes URL validation.  What
    matches is [<url>[#<branch>]]: a url that is not empty and holds no [#],
    alone or followed by [#] and a branch of word characters and hyphens,
    after which, [$] being what it is in Python, one newline may end the
    string; the groups [url] and [branch] are these two parts.  A url
    passes URL validation exactly when it has a scheme and a host.  A
    string that does not match fails with the error of the first stage, one
    whose url does not pass with that of the second; the examples are
    decided as the claim says. *)
Theorem validate_repository_two_stages (s : string) (x : value) :
  (Validate.validate_repository (VStr s) = Ok x
   <-> x = VStr s
       /\ exists data,
            Re.match_ Validate.RE_REPOSITORY s = Some data
            /\ is_ok (Vol.Url (Validate.group_value data "url")) = true)
  /\ (Validate.validate_repository (VStr s) = Ok x
      <-> x = VStr s
          /\ exists url branch,
               Shape.repository_match s url branch /\ Shape.url_shape url)
  /\ (forall data,
         Re.match_ Validate.RE_REPOSITORY s = Some data ->
         exists url branch,
           Shape.repository_match s url branch
           /\ Re.group data "url" = Some url /\ Re.group data "branch" = branch)
  /\ (forall url branch,
         Shape.repository_match s url branch ->
         exists data,
           Re.match_ Validate.RE_REPOSITORY s = Some data
           /\ Re.group data "url" = Some url /\ Re.group data "branch" = branch)
  /\ (forall url, is_ok (Vol.Url (VStr url)) = true <-> Shape.url_shape url)
  /\ (Re.match_ Validate.RE_REPOSITORY s = None ->
      Validate.validate_repository (VStr s)
      = raise_invalid InvalidBase "No valid repository format!")
  /\ (forall data,
         Re.match_ Validate.RE_REPOSITORY s = Some data ->
         is_ok (Vol.Url (Validate.group_value data "url")) = false ->
         Validate.validate_repository (VStr s) = raise_invalid UrlInvalid "expected a URL")
  /\ Validate.validate_repository (VStr "https://github.com/org/repo")
     = Ok (VStr "https://github.com/org/repo")
  /\ Shape.repository_match "https://github.com/org/repo" "https://github.com/org/repo" None
  /\ Validate.validate_repository (VStr "https://github.com/org/repo#dev")
     = Ok (VStr "https://github.com/org/repo#dev")
  /\ Shape.repository_match "https://github.com/org/repo#dev" "https://github.com/org/repo"
                              (Some "dev")
  /\ Validate.validate_repository (VStr "not a url#dev")
     = raise_invalid UrlInvalid "expected a URL"
  /\ Shape.repository_match "not a url#dev" "not a url" (Some "dev")
  /\ Validate.validate_repository (VStr "https://github.com/org/repo#dev#x")
     = raise_invalid InvalidBase "No valid repository format!"
  /\ Validate.validate_repository (VStr ("https://github.com/org/repo#dev" ++ Demo.nl))
     = Ok (VStr ("https://github.com/org/repo#dev" ++ Demo.nl)).
Proof.
  assert (U : forall url, is_ok (Vol.Url (VStr url)) = true <-> Shape.url_shape url).
  { intros url. split.
    - destruct (Vol.Url (VStr url)) as [y| |] eqn:E; try discriminate.
      intros _. apply UrlFacts.url_accepts in E. apply E.
    - intros H. rewrite (proj2 (UrlFacts.url_accepts url (VStr url)) (conj eq_refl H)).
      reflexivity. }
  assert (S1 : Validate.validate_repository (VStr s) = Ok x
               <-> x = VStr s
                   /\ exists data,
                        Re.match_ Validate.RE_REPOSITORY s = Some data
                        /\ is_ok (Vol.Url (Validate.group_value data "url")) = true).
  { unfold Validate.validate_repository. split.
    - destruct (Re.match_ Validate.RE_REPOSITORY s) as [data|]; [|discriminate].
      destruct (Vol.Url (Validate.group_value data "url")) eqn:E; try discriminate.
      intros [= <-]. split; [reflexivity|]. exists data. rewrite E. auto.
    - intros (-> & data & -> & H).
      destruct (Vol.Url (Validate.group_value data "url")); [reflexivity | discriminate..]. }
  split; [exact S1|]. split.
  { rewrite S1. split; intros (-> & H); (split; [reflexivity|]).
    - destruct H as (data & M & H).
      destruct (@RepositoryMatch.match_groups s data M) as (url & branch & Hm & G & _).
      exists url, branch. split; [exact Hm|]. apply U.
      unfold Validate.group_value in H. rewrite G in H. exact H.
    - destruct H as (url & branch & Hm & Hs).
      destruct (@RepositoryMatch.groups_match s url branch Hm) as (data & M & G & _).
      exists data. split; [exact M|].
      unfold Validate.group_value. rewrite G. apply U. exact Hs. }
  split; [intros data M; exact (@RepositoryMatch.match_groups s data M)|].
  split; [intros url branch Hm; exact (@RepositoryMatch.groups_match s url branch Hm)|].
  split; [exact U|]. split.
  { intros M. unfold Validate.validate_repository. rewrite M. reflexivity. }
  split.
  { intros data M H. unfold Validate.validate_repository. rewrite M.
    destruct (@RepositoryMatch.match_groups s data M) as (url & branch & _ & G & _).
    unfold Validate.group_value in *. rewrite G in *.
    unfold Vol.Url in *.
    destruct (Urllib.urlsplit url) as [parsed|]; [|reflexivity].
    destruct (String.eqb (Urllib.scheme parsed) ""); [reflexivity|].
    destruct (String.eqb (Urllib.netloc parsed) ""); [reflexivity | discriminate H]. }
  repeat split; try reflexivity; try discriminate.
  - exists "". split; [left; reflexivity | reflexivity].
  - exists "". split; [left; reflexivity | reflexivity].
Qed.

(** C6.  On a list of strings, [repositories] validates every element with
    [validate_repository] and only then checks uniqueness: when an element
    fails, the errors of the elements are the result; when all validate and
    two are equal as strings, the list is rejected for its duplicates; when
    all validate and are pairwise distinct, the list is returned in its
    order. *)
Theorem repositories_validates_then_checks_uniqueness (l : list string) :
  Validate.repositories (VList (List.map VStr l))
  = match Spec.element_errors Validate.validate_repository (List.map VStr l) 0 with
    | [] =>
        if Spec.has_repeat l
        then raise_invalid InvalidBase "contains duplicate items: {0}"
        else Ok (VList (List.map VStr l))
    | errs => Invalid errs
    end
  /\ (Spec.element_errors Validate.validate_repository (List.map VStr l) 0 = []
      <-> Forall (fun s => Validate.validate_repository (VStr s) = Ok (VStr s)) l)
  /\ (Spec.has_repeat l = false <-> NoDup l)
  /\ Validate.repositories
       (VList [VStr "https://github.com/org/repo"; VStr "https://github.com/org/repo"])
     = raise_invalid InvalidBase "contains duplicate items: {0}"
  /\ Validate.repositories
       (VList [VStr "https://github.com/org/repo#dev"; VStr "https://github.com/org/repo"])
     = Ok (VList [VStr "https://github.com/org/repo#dev"; VStr "https://github.com/org/repo"]).
Proof.
  assert (P : forall v, List.In v (List.map VStr l)
                        -> Spec.plain_on Validate.validate_repository v).
  { apply SequenceFacts.strings_plain, SequenceFacts.validate_repository_plain. }
  split; [|split; [|split; [|split; reflexivity]]].
  - unfold Validate.repositories. rewrite PipelineFacts.all_two.
    rewrite SequenceFacts.sequence_plain by exact P.
    destruct (Spec.element_errors _ _ _); [|reflexivity].
    cbv beta iota delta [bind]. rewrite SequenceFacts.unique_strings.
    destruct (Spec.has_repeat l); reflexivity.
  - rewrite SequenceFacts.element_errors_nil by exact P.
    apply SequenceFacts.forall_strings.
  - apply SequenceFacts.has_repeat_nodup.
Qed.

(** C7.  [dns_server_list] checks the length before it looks at any
    element: a list of nine or more elements, whatever they are, fails with
    [LengthInvalid]; a list of at most eight is validated element by
    element with [dns_url], so that a list of at most eight strings is
    accepted, and returned as it is, exactly when each of them is a valid
    DNS URL. *)
Theorem dns_server_list_caps_length_first :
  (forall l : list value,
      Validate.dns_server_list (VList l)
      = if Nat.ltb 8 (List.length l)
        then raise_invalid LengthInvalid "length of value must be at most %s"
        else Vol.Sequence [Validate.dns_url] (VList l))
  /\ (forall l : list string,
        Validate.dns_server_list (VList (List.map VStr l))
        = if Nat.ltb 8 (List.length l)
          then raise_invalid LengthInvalid "length of value must be at most %s"
          else match Spec.element_errors Validate.dns_url (List.map VStr l) 0 with
               | [] => Ok (VList (List.map VStr l))
               | errs => Invalid errs
               end)
  /\ (forall l : list string,
        Spec.element_errors Validate.dns_url (List.map VStr l) 0 = []
        <-> Forall (fun s => Validate.dns_url (VStr s) = Ok (VStr s)) l)
  /\ Validate.dns_server_list (VList (List.repeat (VStr "dns://192.168.1.1") 8))
     = Ok (VList (List.repeat (VStr "dns://192.168.1.1") 8))
  /\ Validate.dns_server_list (VList (List.repeat (VStr "dns://192.168.1.1") 9))
     = raise_invalid LengthInvalid "length of value must be at most %s"
  /\ Validate.dns_server_list (VList (List.repeat VNone 9))
     = raise_invalid LengthInvalid "length of value must be at most %s".
Proof.
  assert (P : forall l : list string, forall v,
             List.In v (List.map VStr l) -> Spec.plain_on Validate.dns_url v).
  { intros l. apply SequenceFacts.strings_plain, SequenceFacts.dns_url_plain. }
  assert (L : forall l : list value,
             Validate.dns_server_list (VList l)
             = if Nat.ltb 8 (List.length l)
               then raise_invalid LengthInvalid "length of value must be at most %s"
               else Vol.Sequence [Validate.dns_url] (VList l)).
  { intros l. unfold Validate.dns_server_list. rewrite PipelineFacts.all_two.
    unfold Vol.Length. cbn [Vol.len].
    destruct (Nat.ltb 8 (List.length l)); [reflexivity|].
    cbv beta iota delta [bind].
    destruct (Vol.Sequence [Validate.dns_url] (VList l)); reflexivity. }
  split; [exact L|]. split; [|split; [|repeat split; reflexivity]].
  - intros l. rewrite L, List.length_map.
    rewrite SequenceFacts.sequence_plain by apply P. reflexivity.
  - intros l. rewrite SequenceFacts.element_errors_nil by apply P.
    apply SequenceFacts.forall_strings.
Qed.

(** C8.  For every dictionary schema with a fixed set of keys and
    [extra=REMOVE_EXTRA], the keys that the schema does not declare have no
    effect at all: validation gives what it gives on the data without them,
    so they never cause a failure, and no key of the output is undeclared.
    In particular data of one declared and one undeclared field validate as
    the declared field alone does: when that succeeds the output holds the
    declared field, with the value its validator returned, and not the
    undeclared key. *)
Theorem remove_extra_drops_undeclared_keys (s : Schema.schema) :
  Schema.fixed s = true -> Schema.extra s = Schema.REMOVE_EXTRA ->
  (forall d w,
      Schema.validate s (VDict d) w
      = Schema.validate s (VDict (List.filter (Schema.keep s) d)) w)
  /\ (forall d w out w',
        Schema.validate s (VDict d) w = (Ok (VDict out), w') ->
        forall k, Schema.has_key k out = true -> Schema.declared s k = true)
  /\ (forall k1 v1 k2 v2 w,
        Schema.declared s k1 = true -> Schema.declared s k2 = false ->
        Schema.validate s (VDict [(k1, v1); (k2, v2)]) w
        = Schema.validate s (VDict [(k1, v1)]) w
        /\ forall out w' f c,
            Schema.validate s (VDict [(k1, v1)]) w = (Ok (VDict out), w') ->
            Schema.field s k1 = Some f -> (forall w0, fst (f v1 w0) = Ok c) ->
            Schema.get k1 out = Some c /\ Schema.has_key k2 out = false).
Proof.
  intros F X.
  assert (Hout : forall d w out w',
             Schema.validate s (VDict d) w = (Ok (VDict out), w') ->
             forall k, Schema.has_key k out = true -> Schema.declared s k = true).
  { intros d w out w' H k K. rewrite SchemaFacts.validate_dict in H.
    destruct (Schema.insert_defaults (Schema.entries s) d w) as [kvm w1].
    destruct (Schema.validate_items s kvm (Schema.MkProgress [] [] []) w1)
      as [[p|errs|e] w2] eqn:V; [|discriminate..].
    destruct (Schema.errors p ++ Schema.missing_required (Schema.entries s) (Schema.found p))%list;
      [|discriminate].
    injection H as <- <-.
    destruct (@SchemaFacts.out_declared s F X _ _ _ _ _ k V K) as [K'|K'];
      [discriminate | exact K']. }
  split; [|split].
  - intros d w. symmetry. apply SchemaFacts.validate_filter; assumption.
  - exact Hout.
  - intros k1 v1 k2 v2 w D1 D2. split.
    + rewrite <- (SchemaFacts.validate_filter s [(k1, v1); (k2, v2)] w F X).
      cbn [List.filter]. unfold Schema.keep at 1 2. cbn [fst]. rewrite D1, D2. reflexivity.
    + intros out w' f c H Ef Hf. split.
      * rewrite SchemaFacts.validate_dict in H.
        destruct (SchemaFacts.insert_defaults_app (Schema.entries s) [(k1, v1)] w)
          as (added & E & N).
        destruct (Schema.insert_defaults (Schema.entries s) [(k1, v1)] w) as [kvm w1].
        cbn [fst app] in E. subst kvm.
        destruct (Schema.validate_items s ((k1, v1) :: added) (Schema.MkProgress [] [] []) w1)
          as [[p|errs|e] w2] eqn:V; [|discriminate..].
        destruct (Schema.errors p ++ Schema.missing_required (Schema.entries s) (Schema.found p))%list;
          [|discriminate].
        injection H as <- <-.
        rewrite SchemaFacts.step_fixed in V by assumption. rewrite Ef in V.
        specialize (Hf w1). destruct (f v1 w1) as [cval w3]. cbn [fst] in Hf. subst cval.
        rewrite (@SchemaFacts.get_frame s F X _ _ _ _ _ k1 V).
        -- cbn [Schema.out Schema.set Schema.get]. rewrite String.eqb_refl. reflexivity.
        -- apply N. left. reflexivity.
      * destruct (Schema.has_key k2 out) eqn:K; [|reflexivity].
        rewrite (Hout _ _ _ _ H k2 K) in D2. discriminate.
Qed.

Lemma remove_extra_drops_undeclared_keys_witness :
  Schema.fixed (Validate.SCHEMA_HASS_CONFIG Demo.sample_runtime) = true
  /\ Schema.extra (Validate.SCHEMA_HASS_CONFIG Demo.sample_runtime) = Schema.REMOVE_EXTRA
  /\ Schema.validate (Validate.SCHEMA_HASS_CONFIG Demo.sample_runtime)
                     (VDict [(Const.ATTR_PORT, VStr "8080"); ("unknown", VInt 1)]) Demo.sample_world
     = Schema.validate (Validate.SCHEMA_HASS_CONFIG Demo.sample_runtime)
                       (VDict [(Const.ATTR_PORT, VStr "8080")]) Demo.sample_world
  /\ fst (Schema.validate (Validate.SCHEMA_HASS_CONFIG Demo.sample_runtime)
                          (VDict [(Const.ATTR_PORT, VStr "8080"); ("unknown", VInt 1)])
                          Demo.sample_world)
     = Ok (VDict [(Const.ATTR_PORT, VInt 8080);
                  (Const.ATTR_UUID, VStr "000102030405460788090a0b0c0d0e0f");
                  (Const.ATTR_BOOT, VBool true); (Const.ATTR_SSL, VBool false);
                  (Const.ATTR_WATCHDOG, VBool true); (Const.ATTR_WAIT_BOOT, VInt 600);
                  (Const.ATTR_AUDIO_OUTPUT, VNone); (Const.ATTR_AUDIO_INPUT, VNone)]).
Proof.
  split; [reflexivity|]. split; [reflexivity|]. split.
  - destruct (remove_extra_drops_undeclared_keys
                (Validate.SCHEMA_HASS_CONFIG Demo.sample_runtime) eq_refl eq_refl) as (_ & _ & H).
    destruct (H Const.ATTR_PORT (VStr "8080") "unknown" (VInt 1) Demo.sample_world eq_refl eq_refl)
      as [E _].
    exact E.
  - vm_compute. reflexivity.
Defined.

(** C9, as amended.  Each validation of a configuration without [uuid]
    against [SCHEMA_HASS_CONFIG] calls the default factory once, which reads
    16 random bytes that no earlier call has read; a configuration with
    [uuid] calls it not at all.  Nothing is kept from one call to the next:
    the [uuid] of each output is the UUID of the bytes read in that very
    call.  The two values are different exactly when the two reads differ
    in a bit that [uuid4] takes from them, which the code does nothing to
    ensure.  The empty configuration validates, whatever the bytes. *)
Theorem uuid_default_is_generated_per_call
        (rt : runtime) (d1 d2 : list (string * value)) (w0 : world) :
  Schema.has_key Const.ATTR_UUID d1 = false ->
  Schema.has_key Const.ATTR_UUID d2 = false ->
  let schema := Validate.SCHEMA_HASS_CONFIG rt in
  let r1 := Schema.validate schema (VDict d1) w0 in
  let r2 := Schema.validate schema (VDict d2) (snd r1) in
  let bytes1 := List.map (fun k => urandom w0 (consumed w0 + k)%nat) (List.seq 0 16) in
  let bytes2 := List.map (fun k => urandom w0 (consumed w0 + 16 + k)%nat) (List.seq 0 16) in
  let id1 := Uuid.hex (Uuid.UUID_int bytes1 4) in
  let id2 := Uuid.hex (Uuid.UUID_int bytes2 4) in
  snd r1 = MkWorld (urandom w0) (consumed w0 + 16)%nat
  /\ snd r2 = MkWorld (urandom w0) (consumed w0 + 32)%nat
  /\ (forall out, fst r1 = Ok (VDict out) -> Schema.get Const.ATTR_UUID out = Some (VStr id1))
  /\ (forall out, fst r2 = Ok (VDict out) -> Schema.get Const.ATTR_UUID out = Some (VStr id2))
  /\ (id1 <> id2
      <-> Z.land (Uuid.int_from_bytes bytes1) Shape.random_bits
          <> Z.land (Uuid.int_from_bytes bytes2) Shape.random_bits)
  /\ (forall d w, Schema.has_key Const.ATTR_UUID d = true ->
                  snd (Schema.validate schema (VDict d) w) = w)
  /\ (forall w, exists out, fst (Schema.validate schema (VDict []) w) = Ok (VDict out)).
Proof.
  intros K1 K2. cbv zeta.
  destruct (HassFacts.hass_call rt d1 w0 K1) as [W1 G1].
  destruct (HassFacts.hass_call
              rt d2 (snd (Schema.validate (Validate.SCHEMA_HASS_CONFIG rt) (VDict d1) w0)) K2)
    as [W2 G2].
  split; [exact W1|]. split.
  { rewrite W2, W1. cbn [urandom consumed]. f_equal. lia. }
  split; [exact G1|]. split.
  { intros out H. rewrite (G2 out H), W1. reflexivity. }
  split.
  { rewrite <- UuidBits.UUID_int_eq. split.
    - intros N E. apply N. rewrite E. reflexivity.
    - intros N E. apply N. apply UuidDefault.hex_injective; auto;
        rewrite List.length_map, List.length_seq; reflexivity. }
  split.
  { intros d w K. apply HassFacts.hass_call_present. exact K. }
  intros w. eexists. apply UuidDefault.hass_empty_config.
Qed.

Lemma uuid_default_is_generated_per_call_witness :
  Schema.has_key Const.ATTR_UUID [] = false
  /\ Schema.has_key Const.ATTR_UUID [] = false
  /\ (let r1 := Schema.validate (Validate.SCHEMA_HASS_CONFIG Demo.sample_runtime) (VDict []) Demo.sample_world in
      let r2 := Schema.validate (Validate.SCHEMA_HASS_CONFIG Demo.sample_runtime) (VDict []) (snd r1) in
      snd r1 = MkWorld (urandom Demo.sample_world) 16%nat
      /\ snd r2 = MkWorld (urandom Demo.sample_world) 32%nat
      /\ (forall out, fst r1 = Ok (VDict out) ->
                      Schema.get Const.ATTR_UUID out
                      = Some (VStr "000102030405460788090a0b0c0d0e0f"))
      /\ (forall out, fst r2 = Ok (VDict out) ->
                      Schema.get Const.ATTR_UUID out
                      = Some (VStr "101112131415461798191a1b1c1d1e1f"))).
Proof.
  split; [reflexivity|]. split; [reflexivity|].
  destruct (uuid_default_is_generated_per_call Demo.sample_runtime [] [] Demo.sample_world eq_refl eq_refl)
    as (W1 & W2 & G1 & G2 & _).
  cbv zeta. split; [exact W1|]. split; [exact W2|]. split.
  - intros out H. rewrite (G1 out H). vm_compute. reflexivity.
  - intros out H. rewrite (G2 out H). vm_compute. reflexivity.
Defined.

(** C9 as stated fails: when the operating system hands out the same
    sixteen bytes twice, here zeros, two validations of the empty
    configuration call the factory once each, the second reading the bytes
    after those of the first, and produce the same [uuid]. *)
Lemma uuid_default_values_can_coincide :
  let schema := Validate.SCHEMA_HASS_CONFIG Demo.sample_runtime in
  let r1 := Schema.validate schema (VDict []) Demo.zero_world in
  let r2 := Schema.validate schema (VDict []) (snd r1) in
  snd r1 = MkWorld (urandom Demo.zero_world) 16%nat
  /\ snd r2 = MkWorld (urandom Demo.zero_world) 32%nat
  /\ exists out1 out2,
       fst r1 = Ok (VDict out1) /\ fst r2 = Ok (VDict out2)
       /\ Schema.get Const.ATTR_UUID out1 = Some (VStr "00000000000040008000000000000000")
       /\ Schema.get Const.ATTR_UUID out2 = Some (VStr "00000000000040008000000000000000")
       /\ ~ (Schema.get Const.ATTR_UUID out1 <> Schema.get Const.ATTR_UUID out2).
Proof.
  cbv zeta. split; [reflexivity|]. split; [reflexivity|].
  eexists. eexists. split; [vm_compute; reflexivity|]. split; [vm_compute; reflexivity|].
  split; [reflexivity|]. split; [reflexivity|]. intros N. apply N. reflexivity.
Qed.

(** C10.  Validating the empty mapping against [SCHEMA_INGRESS_CONFIG]
    succeeds and returns [{session: {}, ports: {}}]: both fields are
    required and both default to a fresh empty dict, so whatever the input
    dictionary holds, no key is ever reported missing. *)
Theorem ingress_defaults_fill_required_keys (rt : runtime) (w : world) :
  Schema.validate (Validate.SCHEMA_INGRESS_CONFIG rt) (VDict []) w
  = (Ok (VDict [(Const.ATTR_SESSION, VDict []); (Const.ATTR_PORTS, VDict [])]), w)
  /\ (forall d errs e,
        fst (Schema.validate (Validate.SCHEMA_INGRESS_CONFIG rt) (VDict d) w) = Invalid errs ->
        List.In e errs -> kind e <> RequiredFieldInvalid)
  /\ Schema.validate (Validate.SCHEMA_INGRESS_CONFIG rt)
                     (VDict [(Const.ATTR_PORTS, VDict [])]) w
     = (Ok (VDict [(Const.ATTR_PORTS, VDict []); (Const.ATTR_SESSION, VDict [])]), w)
  /\ Schema.validate (Validate.SCHEMA_INGRESS_CONFIG rt)
                     (VDict [(Const.ATTR_SESSION, VDict [])]) w
     = (Ok (VDict [(Const.ATTR_SESSION, VDict []); (Const.ATTR_PORTS, VDict [])]), w).
Proof.
  split; [reflexivity | split; [|split; reflexivity]].
  intros d errs e. apply IngressFacts.ingress_never_missing.
Qed.

(** * Further properties *)

(** X1.  [uuid_match], [sha256] and [token] accept a string, and return it as it
    is, exactly when it is made of 32, of 64, and of 32 to 256 digits of
    lower-case hexadecimal, possibly followed by one newline; they reject
    what is not a string. *)
Theorem hex_validators_accept (s : string) (x : value) :
  (Validate.uuid_match (VStr s) = Ok x
   <-> x = VStr s /\ Shape.up_to_newline (Shape.hex_string 32 32) s)
  /\ (Validate.sha256 (VStr s) = Ok x
      <-> x = VStr s /\ Shape.up_to_newline (Shape.hex_string 64 64) s)
  /\ (Validate.token (VStr s) = Ok x
      <-> x = VStr s /\ Shape.up_to_newline (Shape.hex_string 32 256) s)
  /\ (forall v, (forall t, v <> VStr t) ->
        Validate.uuid_match v = raise_invalid MatchInvalid "expected string or buffer"
        /\ Validate.sha256 v = raise_invalid MatchInvalid "expected string or buffer"
        /\ Validate.token v = raise_invalid MatchInvalid "expected string or buffer").
Proof.
  split; [apply HexShape.hex_match|]. split; [apply HexShape.hex_match|].
  split; [apply HexShape.hex_match|].
  intros v H. repeat split; apply HexShape.match_not_string; exact H.
Qed.

(** X2.  [DOCKER_PORTS] accepts a dictionary of distinct keys exactly when every
    key is a port specification (digits, then nothing, [/tcp] or [/udp]),
    alone or followed by one newline, which the [$] of the pattern lets
    through, and every value is [None] or is turned by [int] into an
    integer from 1 to 65535; the output has the same keys in the same
    order, with [None] kept and every other value replaced by that
    integer. *)
Theorem docker_ports_accepts (rt : runtime) (d out : list (string * value)) (w : world) :
  NoDup (List.map fst d) ->
  (fst (Schema.validate (Validate.DOCKER_PORTS rt) (VDict d) w) = Ok (VDict out)
   <-> Forall2 (fun kv kv' => fst kv' = fst kv
                              /\ Shape.up_to_newline Shape.port_spec (fst kv)
                              /\ Shape.optional_port (snd kv) (snd kv')) d out).
Proof.
  intros ND. unfold Validate.DOCKER_PORTS.
  rewrite (@DynamicFacts.dyn_accepts (Validate.port_key rt) (Vol.Maybe Validate.network_port)
             d w out (PortMapFacts.port_key_keeps rt) PortMapFacts.maybe_port_reports ND).
  apply PortMapFacts.forall2_equiv. intros kv kv'. unfold Shape.item_ok.
  rewrite PortMapFacts.port_key_accepts, PortMapFacts.maybe_port. tauto.
Qed.

Lemma docker_ports_accepts_witness :
  NoDup (List.map fst [("80/tcp", VStr "8080"); ("53/udp", VNone); ("443", VInt 8443)])
  /\ fst (Schema.validate (Validate.DOCKER_PORTS Demo.sample_runtime)
            (VDict [("80/tcp", VStr "8080"); ("53/udp", VNone); ("443", VInt 8443)])
            Demo.sample_world)
     = Ok (VDict [("80/tcp", VInt 8080); ("53/udp", VNone); ("443", VInt 8443)]).
Proof.
  assert (ND : NoDup (List.map fst [("80/tcp", VStr "8080"); ("53/udp", VNone);
                                    ("443", VInt 8443)])).
  { repeat constructor; simpl; intuition discriminate. }
  split; [exact ND|].
  apply (@docker_ports_accepts Demo.sample_runtime _ _ Demo.sample_world ND).
  constructor; [|constructor; [|constructor; [|constructor]]];
    (split; [reflexivity | split]); cbn [fst snd].
  - exists "80/tcp", "". repeat split; auto. exists "80", "/tcp". repeat split; auto. discriminate.
  - right. exists 8080. repeat split; auto; lia.
  - exists "53/udp", "". repeat split; auto. exists "53", "/udp". repeat split; auto. discriminate.
  - left. auto.
  - exists "443", "". repeat split; auto. exists "443", "". repeat split; auto. discriminate.
  - right. exists 8443. repeat split; auto; lia.
Defined.



(** X4.  [DOCKER_PORTS_DESCRIPTION] accepts a dictionary of distinct keys exactly
    when every key is a port specification (digits, then nothing, [/tcp] or
    [/udp]), alone or followed by one newline; every value is replaced by
    what [str] makes of it, so that a dictionary of such keys whose values
    are strings comes back as it is. *)
Theorem docker_ports_description_accepts
        (rt : runtime) (d out : list (string * value)) (w : world) :
  NoDup (List.map fst d) ->
  (fst (Schema.validate (Validate.DOCKER_PORTS_DESCRIPTION rt) (VDict d) w) = Ok (VDict out)
   <-> Forall2 (fun kv kv' => fst kv' = fst kv
                              /\ Shape.up_to_newline Shape.port_spec (fst kv)
                              /\ Vol.construct (Validate.str_type rt) (snd kv) = Ok (snd kv'))
               d out)
  /\ (Forall (fun kv => Shape.up_to_newline Shape.port_spec (fst kv)
                        /\ exists s, snd kv = VStr s) d ->
      fst (Schema.validate (Validate.DOCKER_PORTS_DESCRIPTION rt) (VDict d) w)
      = Ok (VDict d)).
Proof.
  intros ND.
  assert (H : forall out,
             fst (Schema.validate (Validate.DOCKER_PORTS_DESCRIPTION rt) (VDict d) w)
             = Ok (VDict out)
             <-> Forall2 (fun kv kv' => fst kv' = fst kv
                              /\ Shape.up_to_newline Shape.port_spec (fst kv)
                              /\ Vol.construct (Validate.str_type rt) (snd kv) = Ok (snd kv'))
                         d out).
  { intros o. unfold Validate.DOCKER_PORTS_DESCRIPTION.
    rewrite (@DynamicFacts.dyn_accepts (Validate.port_key rt) (Vol.Coerce (Validate.str_type rt))
               d w o (PortMapFacts.port_key_keeps rt) (@PortMapFacts.coerce_str_reports rt) ND).
    apply PortMapFacts.forall2_equiv. intros kv kv'. unfold Shape.item_ok.
    rewrite PortMapFacts.port_key_accepts, PortMapFacts.coerce_str_ok. tauto. }
  split; [apply H|].
  intros HF. apply H. clear H ND. induction HF as [|[k v] l [K (s & E)] HF IH]; constructor; auto.
  cbn [fst snd] in *. subst v. auto.
Qed.

Lemma docker_ports_description_accepts_witness :
  NoDup (List.map fst [("80/tcp", VStr "web"); ("53", VInt 5)])
  /\ fst (Schema.validate (Validate.DOCKER_PORTS_DESCRIPTION Demo.sample_runtime)
            (VDict [("80/tcp", VStr "web"); ("53", VInt 5)]) Demo.sample_world)
     = Ok (VDict [("80/tcp", VStr "web"); ("53", VStr "5")]).
Proof.
  assert (ND : NoDup (List.map fst [("80/tcp", VStr "web"); ("53", VInt 5)])).
  { repeat constructor; simpl; intuition discriminate. }
  split; [exact ND|].
  apply (proj1 (@docker_ports_description_accepts Demo.sample_runtime _ _ Demo.sample_world ND)).
  constructor; [|constructor; [|constructor]]; (split; [reflexivity | split]); cbn [fst snd].
  - exists "80/tcp", "". repeat split; auto. exists "80", "/tcp". repeat split; auto. discriminate.
  - reflexivity.
  - exists "53", "". repeat split; auto. exists "53", "". repeat split; auto. discriminate.
  - reflexivity.
Defined.

(** X5.  [SCHEMA_AUTH_CONFIG] accepts a dictionary of distinct keys exactly when
    every key and every value is a string of 64 digits of lower-case
    hexadecimal (possibly followed by a newline), and returns it as it is. *)
Theorem auth_config_accepts (d out : list (string * value)) (w : world) :
  NoDup (List.map fst d) ->
  (fst (Schema.validate Validate.SCHEMA_AUTH_CONFIG (VDict d) w) = Ok (VDict out)
   <-> out = d
       /\ Forall (fun kv => Shape.up_to_newline (Shape.hex_string 64 64) (fst kv)
                            /\ exists s, snd kv = VStr s
                                         /\ Shape.up_to_newline (Shape.hex_string 64 64) s) d).
Proof.
  intros ND. unfold Validate.SCHEMA_AUTH_CONFIG.
  rewrite (@DynamicFacts.dyn_accepts Validate.sha256 Validate.sha256 d w out
             (@PortMapFacts.match_keeps _) (@PortMapFacts.match_reports _) ND).
  rewrite <- PortMapFacts.forall2_same.
  apply PortMapFacts.forall2_equiv. intros [k v] [k' c]. unfold Shape.item_ok. cbn [fst snd].
  rewrite !PortMapFacts.sha256_accepts. split.
  - intros (-> & (_ & s & [= <-] & K) & -> & V). auto.
  - intros ([= -> ->] & K & V). repeat split; eauto.
Qed.

Lemma auth_config_accepts_witness :
  NoDup (List.map fst
           [("3a7bd3e2360a3d29eea436fcfb7e44c735d117c42d1c1835420b6b9942dd4f1b",
             VStr "9f86d081884c7d659a2feaa0c55ad015a3bf4f1b2b0b822cd15d6c15b0f00a08")])
  /\ fst (Schema.validate Validate.SCHEMA_AUTH_CONFIG
            (VDict [("3a7bd3e2360a3d29eea436fcfb7e44c735d117c42d1c1835420b6b9942dd4f1b",
                     VStr "9f86d081884c7d659a2feaa0c55ad015a3bf4f1b2b0b822cd15d6c15b0f00a08")])
            Demo.sample_world)
     = Ok (VDict [("3a7bd3e2360a3d29eea436fcfb7e44c735d117c42d1c1835420b6b9942dd4f1b",
                   VStr "9f86d081884c7d659a2feaa0c55ad015a3bf4f1b2b0b822cd15d6c15b0f00a08")]).
Proof.
  assert (ND : NoDup (List.map fst
           [("3a7bd3e2360a3d29eea436fcfb7e44c735d117c42d1c1835420b6b9942dd4f1b",
             VStr "9f86d081884c7d659a2feaa0c55ad015a3bf4f1b2b0b822cd15d6c15b0f00a08")])).
  { repeat constructor; simpl; intuition discriminate. }
  split; [exact ND|].
  apply (@auth_config_accepts _ _ Demo.sample_world ND). split; [reflexivity|].
  constructor; [|constructor]. cbn [fst snd]. split.
  - eexists _, "". split; [symmetry; apply StrFacts.str_app_empty_r|].
    split; [|left; reflexivity]. split; [simpl; lia | reflexivity].
  - eexists. split; [reflexivity|].
    eexists _, "". split; [symmetry; apply StrFacts.str_app_empty_r|].
    split; [|left; reflexivity]. split; [simpl; lia | reflexivity].
Defined.

(** X6.  The keys of a validated configuration.  For every dictionary schema
    with a fixed set of keys and [extra=REMOVE_EXTRA], whose validators
    report at least one error when they reject a value, when validation
    succeeds the output holds exactly the keys that have a default and the
    declared keys that the data holds: a default fills an absent key, an
    absent key without default stays absent, and nothing else comes in. *)
Theorem output_holds_defaults_and_given_keys (s : Schema.schema) :
  Schema.fixed s = true -> Schema.extra s = Schema.REMOVE_EXTRA -> Shape.fields_report s ->
  forall d w out w' k,
    Schema.validate s (VDict d) w = (Ok (VDict out), w') ->
    (Schema.has_key k out = true
     <-> List.In k (Shape.default_keys s)
         \/ (List.In k (Shape.declared_keys s) /\ Schema.has_key k d = true)).
Proof.
  intros F X R d w out w' k H.
  rewrite (@FixedFacts.output_keys s F X d w out w' k R H).
  rewrite ReportFacts.declared_keys_iff, ReportFacts.default_keys_iff.
  pose proof (@ReportFacts.default_keys_declared s k). tauto.
Qed.

Lemma output_holds_defaults_and_given_keys_witness :
  Schema.fixed (Validate.SCHEMA_SUPERVISOR_CONFIG Demo.sample_runtime) = true
  /\ Schema.extra (Validate.SCHEMA_SUPERVISOR_CONFIG Demo.sample_runtime) = Schema.REMOVE_EXTRA
  /\ Shape.fields_report (Validate.SCHEMA_SUPERVISOR_CONFIG Demo.sample_runtime)
  /\ Schema.validate (Validate.SCHEMA_SUPERVISOR_CONFIG Demo.sample_runtime)
       (VDict [("logging", VStr "debug"); ("channel", VStr "beta")]) Demo.sample_world
     = (Ok (VDict [("logging", VStr "debug"); ("timezone", VStr "UTC");
                   ("addons_custom_list",
                    VList [VStr "https://github.com/hassio-addons/repository"]);
                   ("wait_boot", VInt 5); ("debug", VBool false);
                   ("debug_block", VBool false)]), Demo.sample_world)
  /\ forall k,
       Schema.has_key k [("logging", VStr "debug"); ("timezone", VStr "UTC");
                         ("addons_custom_list",
                          VList [VStr "https://github.com/hassio-addons/repository"]);
                         ("wait_boot", VInt 5); ("debug", VBool false);
                         ("debug_block", VBool false)] = true
       <-> List.In k ["timezone"; "addons_custom_list"; "wait_boot"; "logging"; "debug";
                      "debug_block"]
           \/ (List.In k ["timezone"; "last_boot"; "addons_custom_list"; "wait_boot";
                          "logging"; "debug"; "debug_block"]
               /\ Schema.has_key k [("logging", VStr "debug"); ("channel", VStr "beta")] = true).
Proof.
  assert (R : Shape.fields_report (Validate.SCHEMA_SUPERVISOR_CONFIG Demo.sample_runtime)).
  { apply RevalidateFacts.settled_report. apply SettledFacts.supervisor_fields_settled. }
  assert (V : Schema.validate (Validate.SCHEMA_SUPERVISOR_CONFIG Demo.sample_runtime)
       (VDict [("logging", VStr "debug"); ("channel", VStr "beta")]) Demo.sample_world
     = (Ok (VDict [("logging", VStr "debug"); ("timezone", VStr "UTC");
                   ("addons_custom_list",
                    VList [VStr "https://github.com/hassio-addons/repository"]);
                   ("wait_boot", VInt 5); ("debug", VBool false);
                   ("debug_block", VBool false)]), Demo.sample_world)).
  { vm_compute. reflexivity. }
  split; [reflexivity|]. split; [reflexivity|]. split; [exact R|]. split; [exact V|].
  intros k.
  exact (@output_holds_defaults_and_given_keys
           (Validate.SCHEMA_SUPERVISOR_CONFIG Demo.sample_runtime) eq_refl eq_refl R
           _ _ _ _ k V).
Defined.

(** X7.  What [SCHEMA_HASS_CONFIG] and [SCHEMA_SUPERVISOR_CONFIG] return, they
    accept: validating the output of a successful validation succeeds and
    returns that very output, without a default being used (so without a
    new [uuid] being generated). *)
Theorem validated_config_revalidates
        (rt : runtime) (s : Schema.schema) (d out : list (string * value)) (w w' : world) :
  s = Validate.SCHEMA_HASS_CONFIG rt \/ s = Validate.SCHEMA_SUPERVISOR_CONFIG rt ->
  Schema.validate s (VDict d) w = (Ok (VDict out), w') ->
  forall w2, Schema.validate s (VDict out) w2 = (Ok (VDict out), w2).
Proof.
  intros [-> | ->] H.
  - exact (@RevalidateFacts.revalidate (Validate.SCHEMA_HASS_CONFIG rt) eq_refl eq_refl
             (@SettledFacts.hass_fields_settled rt) d w out w' H).
  - exact (@RevalidateFacts.revalidate (Validate.SCHEMA_SUPERVISOR_CONFIG rt) eq_refl eq_refl
             (@SettledFacts.supervisor_fields_settled rt) d w out w' H).
Qed.

Lemma validated_config_revalidates_witness :
  Schema.validate (Validate.SCHEMA_HASS_CONFIG Demo.sample_runtime)
    (VDict [("port", VStr "8080"); ("boot", VStr "no"); ("version", VInt 7)])
    Demo.sample_world
  = (Ok (VDict [("port", VInt 8080); ("boot", VBool false); ("version", VStr "7");
                ("uuid", VStr "000102030405460788090a0b0c0d0e0f");
                ("ssl", VBool false); ("watchdog", VBool true); ("wait_boot", VInt 600);
                ("audio_output", VNone); ("audio_input", VNone)]),
     MkWorld (urandom Demo.sample_world) 16)
  /\ forall w2,
       Schema.validate (Validate.SCHEMA_HASS_CONFIG Demo.sample_runtime)
         (VDict [("port", VInt 8080); ("boot", VBool false); ("version", VStr "7");
                 ("uuid", VStr "000102030405460788090a0b0c0d0e0f");
                 ("ssl", VBool false); ("watchdog", VBool true); ("wait_boot", VInt 600);
                 ("audio_output", VNone); ("audio_input", VNone)]) w2
       = (Ok (VDict [("port", VInt 8080); ("boot", VBool false); ("version", VStr "7");
                     ("uuid", VStr "000102030405460788090a0b0c0d0e0f");
                     ("ssl", VBool false); ("watchdog", VBool true); ("wait_boot", VInt 600);
                     ("audio_output", VNone); ("audio_input", VNone)]), w2).
Proof.
  assert (V : Schema.validate (Validate.SCHEMA_HASS_CONFIG Demo.sample_runtime)
    (VDict [("port", VStr "8080"); ("boot", VStr "no"); ("version", VInt 7)])
    Demo.sample_world
  = (Ok (VDict [("port", VInt 8080); ("boot", VBool false); ("version", VStr "7");
                ("uuid", VStr "000102030405460788090a0b0c0d0e0f");
                ("ssl", VBool false); ("watchdog", VBool true); ("wait_boot", VInt 600);
                ("audio_output", VNone); ("audio_input", VNone)]),
     MkWorld (urandom Demo.sample_world) 16)).
  { vm_compute. reflexivity. }
  split; [exact V|].
  exact (@validated_config_revalidates Demo.sample_runtime _ _ _ _ _ (or_introl eq_refl) V).
Defined.

(** X8.  Errors are collected, not cut short.  For every dictionary schema with
    a fixed set of keys and [extra=REMOVE_EXTRA], an item of the data whose
    field rejects its value makes validation fail, and when validation
    ends with errors, those of that field are among them, each with the
    key put first in its path, whatever the other items are. *)
Theorem every_rejected_field_is_reported (s : Schema.schema) :
  Schema.fixed s = true -> Schema.extra s = Schema.REMOVE_EXTRA ->
  forall d w k v g es,
    List.In (k, v) d -> Schema.field s k = Some (Schema.pure g) ->
    g v = Invalid es -> es <> [] ->
    (forall x, fst (Schema.validate s (VDict d) w) <> Ok x)
    /\ (forall errs,
          fst (Schema.validate s (VDict d) w) = Invalid errs ->
          forall e, List.In e es ->
                    List.In (MkInvalid (kind e) (message e) (PKey k :: path e)
                                       (match path e with
                                        | [] => Some "dictionary value"
                                        | _ => error_type e
                                        end)) errs).
Proof.
  intros F X d w k v g es Hin Ef Eg NE.
  assert (NE' : fst (Schema.pure g v w) <> Invalid []).
  { cbn. rewrite Eg. intros [= ->]. congruence. }
  pose proof (@ReportFacts.validate_collected s F X d w k v _ Hin Ef
                (@ReportFacts.pure_steady g) w NE') as C.
  cbn [Schema.pure ret fst] in C. rewrite Eg in C.
  destruct (fst (Schema.validate s (VDict d) w)) as [x|errs|e]; split; try discriminate.
  - destruct C as (c & C). discriminate C.
  - intros errs' [= <-] e He. exact (C e He).
Qed.

Lemma every_rejected_field_is_reported_witness :
  Schema.fixed (Validate.SCHEMA_HASS_CONFIG Demo.sample_runtime) = true
  /\ Schema.extra (Validate.SCHEMA_HASS_CONFIG Demo.sample_runtime) = Schema.REMOVE_EXTRA
  /\ fst (Schema.validate (Validate.SCHEMA_HASS_CONFIG Demo.sample_runtime)
            (VDict [("port", VStr "0"); ("wait_boot", VStr "soon")]) Demo.sample_world)
     = Invalid [MkInvalid RangeInvalid "value must be at least %s" [PKey "port"]
                          (Some "dictionary value");
                MkInvalid CoerceInvalid "expected %s" [PKey "wait_boot"]
                          (Some "dictionary value")]
  /\ forall errs,
       fst (Schema.validate (Validate.SCHEMA_HASS_CONFIG Demo.sample_runtime)
              (VDict [("port", VStr "0"); ("wait_boot", VStr "soon")]) Demo.sample_world)
       = Invalid errs ->
       forall e, List.In e [mk_invalid CoerceInvalid "expected %s"] ->
                 List.In (MkInvalid (kind e) (message e) (PKey "wait_boot" :: path e)
                                    (match path e with
                                     | [] => Some "dictionary value"
                                     | _ => error_type e
                                     end)) errs.
Proof.
  split; [reflexivity|]. split; [reflexivity|]. split; [vm_compute; reflexivity|].
  refine (proj2 (@every_rejected_field_is_reported
                   (Validate.SCHEMA_HASS_CONFIG Demo.sample_runtime) eq_refl eq_refl
                   [("port", VStr "0"); ("wait_boot", VStr "soon")] Demo.sample_world
                   "wait_boot" (VStr "soon") _ [mk_invalid CoerceInvalid "expected %s"]
                   _ eq_refl eq_refl _)).
  - right. left. reflexivity.
  - discriminate.
Defined.



(** X10.  What [network_port] and [wait_boot] let through.  The only exception
    other than [Invalid] that they raise is the [OverflowError] of [int] on
    an infinite float; every other value that is no integer in range is
    rejected with one of three errors; and what they return is an integer
    in range, which they accept again as it is. *)
Theorem port_pipelines_raise_only_on_infinity (v : value) :
  (forall e, Validate.network_port v = Raise e
             <-> e = OverflowError /\ exists neg, v = VFloat (S754_infinity neg))
  /\ (forall e, Validate.wait_boot v = Raise e
                <-> e = OverflowError /\ exists neg, v = VFloat (S754_infinity neg))
  /\ (forall errs, Validate.network_port v = Invalid errs \/ Validate.wait_boot v = Invalid errs ->
                   errs = [mk_invalid CoerceInvalid "expected %s"]
                   \/ errs = [mk_invalid RangeInvalid "value must be at least %s"]
                   \/ errs = [mk_invalid RangeInvalid "value must be at most %s"])
  /\ (forall x, Validate.network_port v = Ok x ->
                Validate.network_port x = Ok x /\ exists z, x = VInt z /\ 1 <= z <= 65535)
  /\ (forall x, Validate.wait_boot v = Ok x ->
                Validate.wait_boot x = Ok x /\ exists z, x = VInt z /\ 1 <= z <= 60).
Proof.
  split; [intros e; apply CrashFacts.int_range_raises|].
  split; [intros e; apply CrashFacts.int_range_raises|].
  split; [intros errs [H|H]; exact (@CrashFacts.int_range_errors _ _ _ _ H)|].
  split; intros x H.
  - split; [exact (@SettledFacts.int_range_settled _ _ v x H)|].
    apply PipelineFacts.int_range_ok in H. destruct H as (z & -> & _ & R). eauto.
  - split; [exact (@SettledFacts.int_range_settled _ _ v x H)|].
    apply PipelineFacts.int_range_ok in H. destruct H as (z & -> & _ & R). eauto.
Qed.

(** X11.  An element that is no string is not reported as invalid: it makes
    [dns_server_list] (on a list of at most eight elements) raise the
    [AttributeError] of [url.lower()], and [repositories] the [TypeError] of
    [RE_REPOSITORY.match], whatever the other elements are. *)
Theorem list_validators_crash_on_non_strings (l : list value) :
  (exists v, List.In v l /\ forall s, v <> VStr s) ->
  ((List.length l <= 8)%nat -> Validate.dns_server_list (VList l) = Raise AttributeError)
  /\ Validate.repositories (VList l) = Raise TypeError.
Proof.
  intros H. split.
  - intros L. unfold Validate.dns_server_list. rewrite PipelineFacts.all_two.
    unfold Vol.Length. cbn [Vol.len].
    destruct (Nat.ltb_spec 8 (List.length l)) as [L'|_]; [lia|].
    cbv beta iota delta [bind]. unfold Vol.Sequence.
    destruct l as [|item l]; [destruct H as (v & [] & _)|].
    rewrite (@CrashFacts.sequence_crash Validate.dns_url AttributeError (item :: l)
               SequenceFacts.dns_url_plain); auto.
    intros v Hv. destruct v; try reflexivity. exfalso. exact (Hv s eq_refl).
  - unfold Validate.repositories. rewrite PipelineFacts.all_two. unfold Vol.Sequence.
    destruct l as [|item l]; [destruct H as (v & [] & _)|].
    rewrite (@CrashFacts.sequence_crash Validate.validate_repository TypeError (item :: l)
               SequenceFacts.validate_repository_plain); auto.
    intros v Hv. destruct v; try reflexivity. exfalso. exact (Hv s eq_refl).
Qed.

Lemma list_validators_crash_on_non_strings_witness :
  (exists v, List.In v [VStr "dns://192.168.1.1"; VInt 8] /\ forall s, v <> VStr s)
  /\ Validate.dns_server_list (VList [VStr "dns://192.168.1.1"; VInt 8]) = Raise AttributeError
  /\ Validate.repositories (VList [VStr "dns://192.168.1.1"; VInt 8]) = Raise TypeError.
Proof.
  assert (H : exists v, List.In v [VStr "dns://192.168.1.1"; VInt 8] /\ forall s, v <> VStr s).
  { exists (VInt 8). split; [right; left; reflexivity | discriminate]. }
  split; [exact H|].
  destruct (@list_validators_crash_on_non_strings _ H) as [H1 H2].
  split; [apply H1; simpl; lia | exact H2].
Defined.

(** X12.  Which repositories [validate_repository] accepts.  A string that does
    not end in a newline is accepted, and returned as it is, exactly when it
    is a URL without [#], optionally followed by [#] and a branch of word
    characters and hyphens, where the URL is [scheme://host] and what
    follows: a scheme, not empty, of letters, digits and [+-.]; a host,
    not empty, that holds none of [/?#] and holds both or none of the
    square brackets; and then nothing, or something that begins with one
    of [/?#] (of which [#] cannot occur in this URL).  The scheme cannot be
    left out, and neither can the host. *)
Theorem repository_needs_scheme_and_host (s : string) (x : value) :
  Str.last s <> Some Chars.newline ->
  (Validate.validate_repository (VStr s) = Ok x
   <-> x = VStr s
       /\ exists url,
            Shape.url_shape url /\ Str.contains "#" url = false
            /\ (s = url
                \/ exists branch, branch <> "" /\ Str.forallb Spec.branch_char branch = true
                                  /\ s = url ++ "#" ++ branch)).
Proof.
  intros L. unfold Validate.validate_repository. split.
  - destruct (Re.match_ Validate.RE_REPOSITORY s) as [data|] eqn:M; [|discriminate].
    destruct (@RepositoryTheorems.match_reference s data L M) as (url & G & Hu & Hc & Hr).
    rewrite G. destruct (Vol.Url (VStr url)) as [y| |] eqn:U; try discriminate.
    intros [= <-]. split; [reflexivity|]. exists url.
    apply UrlFacts.url_accepts in U. destruct U as [_ U]. auto.
  - intros (-> & url & Hs & Hc & Hr).
    assert (Hu : url <> "").
    { destruct Hs as (sch & host & rest & -> & Hne & _). destruct sch; [congruence | discriminate]. }
    assert (M : Re.match_ Validate.RE_REPOSITORY s <> None).
    { destruct Hr as [-> | (branch & Hb & Hall & ->)].
      - rewrite <- (StrFacts.str_app_empty_r url).
        apply RepositoryFacts.reference_matches; auto.
      - apply RepositoryFacts.reference_matches; auto. right. eauto. }
    destruct (Re.match_ Validate.RE_REPOSITORY s) as [data|] eqn:M'; [|congruence].
    destruct (@RepositoryTheorems.match_reference s data L M') as (url' & G & Hu' & Hc' & Hr').
    assert (url = url').
    { apply (@RepositoryTheorems.reference_url_unique s); auto.
      - destruct Hr as [-> | (b & _ & _ & ->)]; eauto.
      - destruct Hr' as [E | (b & _ & _ & E)]; eauto. }
    subst url'. rewrite G.
    rewrite (proj2 (UrlFacts.url_accepts url (VStr url)) (conj eq_refl Hs)). reflexivity.
Qed.

Lemma repository_needs_scheme_and_host_witness :
  Str.last "github.com/org/repo#dev" <> Some Chars.newline
  /\ Validate.validate_repository (VStr "github.com/org/repo#dev")
     = raise_invalid UrlInvalid "expected a URL"
  /\ ~ exists url,
         Shape.url_shape url /\ Str.contains "#" url = false
         /\ ("github.com/org/repo#dev" = url
             \/ exists branch, branch <> "" /\ Str.forallb Spec.branch_char branch = true
                               /\ "github.com/org/repo#dev" = url ++ "#" ++ branch).
Proof.
  assert (L : Str.last "github.com/org/repo#dev" <> Some Chars.newline) by discriminate.
  split; [exact L|]. split; [reflexivity|].
  intros H.
  assert (E : Validate.validate_repository (VStr "github.com/org/repo#dev")
              = Ok (VStr "github.com/org/repo#dev")).
  { apply (@repository_needs_scheme_and_host _ _ L). split; [reflexivity | exact H]. }
  discriminate E.
Defined.

(** X13.  The [uuid] that [SCHEMA_HASS_CONFIG] generates.  When the data has no
    [uuid] and validation succeeds, the [uuid] of the output is a string of
    32 digits of lower-case hexadecimal whose thirteenth digit is [4], the
    version, and whose seventeenth digit is one of [8], [9], [a] and [b],
    the variant: the hexadecimal form of a version 4 UUID. *)
Theorem generated_uuid_is_version_4
        (rt : runtime) (d out : list (string * value)) (w : world) :
  Schema.has_key Const.ATTR_UUID d = false ->
  fst (Schema.validate (Validate.SCHEMA_HASS_CONFIG rt) (VDict d) w) = Ok (VDict out) ->
  exists id,
    Schema.get Const.ATTR_UUID out = Some (VStr id)
    /\ String.length id = 32%nat
    /\ Str.forallb Validate.lower_hex id = true
    /\ String.get 12 id = Some "4"%char
    /\ exists c, String.get 16 id = Some c
                 /\ (c = "8"%char \/ c = "9"%char \/ c = "a"%char \/ c = "b"%char).
Proof.
  intros K H. destruct (HassFacts.hass_call rt d w K) as [_ G].
  exists (Uuid.hex (Uuid.UUID_int (fst (Os.os_urandom 16 w)) 4)).
  split; [exact (G out H)|].
  apply VersionBits.uuid4_hex_shape. apply UuidFacts.os_urandom_length.
Qed.

Lemma generated_uuid_is_version_4_witness :
  Schema.has_key Const.ATTR_UUID [("port", VInt 80)] = false
  /\ fst (Schema.validate (Validate.SCHEMA_HASS_CONFIG Demo.sample_runtime)
            (VDict [("port", VInt 80)]) Demo.sample_world)
     = Ok (VDict [("port", VInt 80); ("uuid", VStr "000102030405460788090a0b0c0d0e0f");
                  ("boot", VBool true); ("ssl", VBool false); ("watchdog", VBool true);
                  ("wait_boot", VInt 600); ("audio_output", VNone); ("audio_input", VNone)])
  /\ exists id,
       Schema.get Const.ATTR_UUID
         [("port", VInt 80); ("uuid", VStr "000102030405460788090a0b0c0d0e0f");
          ("boot", VBool true); ("ssl", VBool false); ("watchdog", VBool true);
          ("wait_boot", VInt 600); ("audio_output", VNone); ("audio_input", VNone)]
       = Some (VStr id)
       /\ String.length id = 32%nat
       /\ Str.forallb Validate.lower_hex id = true
       /\ String.get 12 id = Some "4"%char
       /\ exists c, String.get 16 id = Some c
                    /\ (c = "8"%char \/ c = "9"%char \/ c = "a"%char \/ c = "b"%char).
Proof.
  assert (V : fst (Schema.validate (Validate.SCHEMA_HASS_CONFIG Demo.sample_runtime)
            (VDict [("port", VInt 80)]) Demo.sample_world)
     = Ok (VDict [("port", VInt 80); ("uuid", VStr "000102030405460788090a0b0c0d0e0f");
                  ("boot", VBool true); ("ssl", VBool false); ("watchdog", VBool true);
                  ("wait_boot", VInt 600); ("audio_output", VNone); ("audio_input", VNone)])).
  { vm_compute. reflexivity. }
  split; [reflexivity|]. split; [exact V|].
  exact (@generated_uuid_is_version_4 Demo.sample_runtime [("port", VInt 80)] _
           Demo.sample_world eq_refl V).
Defined.

(** X14.  The values of a validated Home Assistant configuration.  In the
    output of a successful validation against [SCHEMA_HASS_CONFIG], [uuid]
    is a string of 32 and [access_token] one of 32 to 256 digits of
    lower-case hexadecimal, [image] is an image reference (each possibly
    followed by a newline), [version], [refresh_token], [audio_output] and
    [audio_input] are [None] or a string, [boot], [ssl] and [watchdog] are
    booleans, [port] is an integer from 1 to 65535 and [wait_boot] an
    integer of at least 60: whatever the input gave them as. *)
Theorem hass_output_is_typed
        (rt : runtime) (d out : list (string * value)) (w w' : world) :
  Schema.validate (Validate.SCHEMA_HASS_CONFIG rt) (VDict d) w = (Ok (VDict out), w') ->
  forall k c,
    List.In (k, c) out ->
    (k = Const.ATTR_UUID ->
     exists s, c = VStr s /\ Shape.up_to_newline (Shape.hex_string 32 32) s)
    /\ (k = Const.ATTR_ACCESS_TOKEN ->
        exists s, c = VStr s /\ Shape.up_to_newline (Shape.hex_string 32 256) s)
    /\ (k = Const.ATTR_IMAGE ->
        exists s, c = VStr s
                  /\ Shape.up_to_newline
                       (Spec.image_reference Spec.plain_segment_char Spec.segment_char) s)
    /\ (k = Const.ATTR_VERSION \/ k = Const.ATTR_REFRESH_TOKEN
        \/ k = Const.ATTR_AUDIO_OUTPUT \/ k = Const.ATTR_AUDIO_INPUT ->
        c = VNone \/ exists s, c = VStr s)
    /\ (k = Const.ATTR_BOOT \/ k = Const.ATTR_SSL \/ k = Const.ATTR_WATCHDOG ->
        exists b, c = VBool b)
    /\ (k = Const.ATTR_PORT -> exists z, c = VInt z /\ 1 <= z <= 65535)
    /\ (k = Const.ATTR_WAIT_BOOT -> exists z, c = VInt z /\ 60 <= z).
Proof.
  intros H k c Hin.
  pose proof (@TypedFacts.validate_resulted (Validate.SCHEMA_HASS_CONFIG rt) eq_refl eq_refl
                d w out w' H) as Q.
  rewrite Forall_forall in Q.
  destruct (@TypedFacts.resulted_entry (Validate.SCHEMA_HASS_CONFIG rt) eq_refl (k, c)
              (Q _ Hin)) as (key & f & v & w0 & He & L & E).
  cbn [fst snd] in L, E. unfold Validate.SCHEMA_HASS_CONFIG in He.
  cbn [Schema.entries List.In] in He.
  repeat (destruct He as [He | He];
          [ apply pair_equal_spec in He; destruct He as [<- <-];
            cbn [Schema.literal] in L; injection L as <-;
            rewrite ResultFacts.pure_result in E;
            repeat split; intros K;
            repeat (destruct K as [K | K]); try (vm_compute in K; discriminate K);
            first [ exact (@ResultFacts.hex_result _ _ _ _ E)
                  | exact (@ResultFacts.image_result _ _ E)
                  | exact (@ResultFacts.maybe_str_result _ _ _ E)
                  | exact (@ResultFacts.boolean_result _ _ E)
                  | destruct (@ResultFacts.int_range_result _ _ _ _ E) as (z & -> & R1 & R2);
                    exists z; cbn in R1, R2; auto ]
          | ]).
  destruct He.
Qed.

Lemma hass_output_is_typed_witness :
  Schema.validate (Validate.SCHEMA_HASS_CONFIG Demo.sample_runtime)
    (VDict [("port", VStr "8080"); ("boot", VStr "no"); ("version", VInt 7)])
    Demo.sample_world
  = (Ok (VDict [("port", VInt 8080); ("boot", VBool false); ("version", VStr "7");
                ("uuid", VStr "000102030405460788090a0b0c0d0e0f");
                ("ssl", VBool false); ("watchdog", VBool true); ("wait_boot", VInt 600);
                ("audio_output", VNone); ("audio_input", VNone)]),
     MkWorld (urandom Demo.sample_world) 16)
  /\ exists z, VInt 8080 = VInt z /\ 1 <= z <= 65535.
Proof.
  assert (V : Schema.validate (Validate.SCHEMA_HASS_CONFIG Demo.sample_runtime)
    (VDict [("port", VStr "8080"); ("boot", VStr "no"); ("version", VInt 7)])
    Demo.sample_world
  = (Ok (VDict [("port", VInt 8080); ("boot", VBool false); ("version", VStr "7");
                ("uuid", VStr "000102030405460788090a0b0c0d0e0f");
                ("ssl", VBool false); ("watchdog", VBool true); ("wait_boot", VInt 600);
                ("audio_output", VNone); ("audio_input", VNone)]),
     MkWorld (urandom Demo.sample_world) 16)).
  { vm_compute. reflexivity. }
  split; [exact V|].
  exact (proj1 (proj2 (proj2 (proj2 (proj2 (proj2
           (@hass_output_is_typed Demo.sample_runtime _ _ _ _ V "port" (VInt 8080)
              (or_introl eq_refl))))))) eq_refl).
Defined.

(** X15.  The values of a validated supervisor configuration.  In the
    output of a successful validation against [SCHEMA_SUPERVISOR_CONFIG],
    [timezone] is a name the zone database knows, [last_boot] is a string,
    [addons_custom_list] is a list of pairwise distinct strings that
    [validate_repository] accepts, [wait_boot] is an integer from 1 to 60,
    [logging] is one of the five levels, and [debug] and [debug_block] are
    booleans. *)
Theorem supervisor_output_is_typed
        (rt : runtime) (d out : list (string * value)) (w w' : world) :
  Schema.validate (Validate.SCHEMA_SUPERVISOR_CONFIG rt) (VDict d) w = (Ok (VDict out), w') ->
  forall k c,
    List.In (k, c) out ->
    (k = Const.ATTR_TIMEZONE -> exists s, c = VStr s /\ known_timezone rt s = true)
    /\ (k = Const.ATTR_LAST_BOOT -> exists s, c = VStr s)
    /\ (k = Const.ATTR_ADDONS_CUSTOM_LIST ->
        exists l, c = VList (List.map VStr l) /\ NoDup l
                  /\ Forall (fun s => Validate.validate_repository (VStr s) = Ok (VStr s)) l)
    /\ (k = Const.ATTR_WAIT_BOOT -> exists z, c = VInt z /\ 1 <= z <= 60)
    /\ (k = Const.ATTR_LOGGING ->
        exists s, c = VStr s /\ List.In s ["debug"; "info"; "warning"; "error"; "critical"])
    /\ (k = Const.ATTR_DEBUG \/ k = Const.ATTR_DEBUG_BLOCK -> exists b, c = VBool b).
Proof.
  intros H k c Hin.
  pose proof (@TypedFacts.validate_resulted (Validate.SCHEMA_SUPERVISOR_CONFIG rt)
                eq_refl eq_refl d w out w' H) as Q.
  rewrite Forall_forall in Q.
  destruct (@TypedFacts.resulted_entry (Validate.SCHEMA_SUPERVISOR_CONFIG rt) eq_refl (k, c)
              (Q _ Hin)) as (key & f & v & w0 & He & L & E).
  cbn [fst snd] in L, E. unfold Validate.SCHEMA_SUPERVISOR_CONFIG in He.
  cbn [Schema.entries List.In] in He.
  repeat (destruct He as [He | He];
          [ apply pair_equal_spec in He; destruct He as [<- <-];
            cbn [Schema.literal] in L; injection L as <-;
            rewrite ResultFacts.pure_result in E;
            repeat split; intros K;
            repeat (destruct K as [K | K]); try (vm_compute in K; discriminate K);
            first [ exact (@ResultFacts.timezone_result _ _ _ E)
                  | exact (@ResultFacts.coerce_str_result _ _ _ E)
                  | exact (@ResultFacts.repositories_result _ _ E)
                  | exact (@ResultFacts.log_level_result _ _ E)
                  | exact (@ResultFacts.boolean_result _ _ E)
                  | destruct (@ResultFacts.int_range_result _ _ _ _ E) as (z & -> & R1 & R2);
                    exists z; cbn in R1, R2; auto ]
          | ]).
  destruct He.
Qed.

Lemma supervisor_output_is_typed_witness :
  Schema.validate (Validate.SCHEMA_SUPERVISOR_CONFIG Demo.sample_runtime)
    (VDict [("wait_boot", VStr "30"); ("debug", VStr "on")]) Demo.sample_world
  = (Ok (VDict [("wait_boot", VInt 30); ("debug", VBool true); ("timezone", VStr "UTC");
                ("addons_custom_list",
                 VList [VStr "https://github.com/hassio-addons/repository"]);
                ("logging", VStr "info"); ("debug_block", VBool false)]),
     Demo.sample_world)
  /\ exists z, VInt 30 = VInt z /\ 1 <= z <= 60.
Proof.
  assert (V : Schema.validate (Validate.SCHEMA_SUPERVISOR_CONFIG Demo.sample_runtime)
    (VDict [("wait_boot", VStr "30"); ("debug", VStr "on")]) Demo.sample_world
  = (Ok (VDict [("wait_boot", VInt 30); ("debug", VBool true); ("timezone", VStr "UTC");
                ("addons_custom_list",
                 VList [VStr "https://github.com/hassio-addons/repository"]);
                ("logging", VStr "info"); ("debug_block", VBool false)]),
     Demo.sample_world)).
  { vm_compute. reflexivity. }
  split; [exact V|].
  exact (proj1 (proj2 (proj2 (proj2
           (@supervisor_output_is_typed Demo.sample_runtime _ _ _ _ V "wait_boot" (VInt 30)
              (or_introl eq_refl))))) eq_refl).
Defined.

(** X16.  The values of a validated updater configuration.  The output of
    a successful validation against [SCHEMA_UPDATER_CONFIG] always holds an
    [image] dictionary; every key of that dictionary is one of the six
    components and every value an image reference (possibly followed by a
    newline); [channel] is one of the update channels, and the versions
    [homeassistant], [supervisor], [hassos], [cli], [dns], [audio] and
    [multicast] are strings. *)
Theorem updater_output_is_typed
        (rt : runtime) (channels : list string) (stable : string)
        (d out : list (string * value)) (w w' : world) :
  Schema.validate (Validate.SCHEMA_UPDATER_CONFIG rt channels stable) (VDict d) w
  = (Ok (VDict out), w') ->
  (exists img, List.In (Const.ATTR_IMAGE, VDict img) out)
  /\ forall k c,
       List.In (k, c) out ->
       (k = Const.ATTR_CHANNEL -> exists s, c = VStr s /\ List.In s channels)
       /\ (List.In k [Const.ATTR_HOMEASSISTANT; Const.ATTR_SUPERVISOR; Const.ATTR_HASSOS;
                      Const.ATTR_CLI; Const.ATTR_DNS; Const.ATTR_AUDIO;
                      Const.ATTR_MULTICAST] ->
           exists s, c = VStr s)
       /\ (k = Const.ATTR_IMAGE ->
           exists img,
             c = VDict img
             /\ forall k' c',
                  List.In (k', c') img ->
                  List.In k' [Const.ATTR_HOMEASSISTANT; Const.ATTR_SUPERVISOR; Const.ATTR_CLI;
                              Const.ATTR_DNS; Const.ATTR_AUDIO; Const.ATTR_MULTICAST]
                  /\ exists s, c' = VStr s
                               /\ Shape.up_to_newline
                                    (Spec.image_reference Spec.plain_segment_char
                                                          Spec.segment_char) s).
Proof.
  intros H.
  assert (T : forall k c,
       List.In (k, c) out ->
       (k = Const.ATTR_CHANNEL -> exists s, c = VStr s /\ List.In s channels)
       /\ (List.In k [Const.ATTR_HOMEASSISTANT; Const.ATTR_SUPERVISOR; Const.ATTR_HASSOS;
                      Const.ATTR_CLI; Const.ATTR_DNS; Const.ATTR_AUDIO;
                      Const.ATTR_MULTICAST] ->
           exists s, c = VStr s)
       /\ (k = Const.ATTR_IMAGE ->
           exists img,
             c = VDict img
             /\ forall k' c',
                  List.In (k', c') img ->
                  List.In k' [Const.ATTR_HOMEASSISTANT; Const.ATTR_SUPERVISOR; Const.ATTR_CLI;
                              Const.ATTR_DNS; Const.ATTR_AUDIO; Const.ATTR_MULTICAST]
                  /\ exists s, c' = VStr s
                               /\ Shape.up_to_newline
                                    (Spec.image_reference Spec.plain_segment_char
                                                          Spec.segment_char) s)).
  { intros k c Hin.
    pose proof (@TypedFacts.validate_resulted (Validate.SCHEMA_UPDATER_CONFIG rt channels stable)
                  eq_refl eq_refl d w out w' H) as Q.
    rewrite Forall_forall in Q.
    destruct (@TypedFacts.resulted_entry (Validate.SCHEMA_UPDATER_CONFIG rt channels stable)
                eq_refl (k, c) (Q _ Hin)) as (key & f & v & w0 & He & L & E).
    cbn [fst snd] in L, E. unfold Validate.SCHEMA_UPDATER_CONFIG in He.
    cbn [Schema.entries List.In] in He.
    repeat (destruct He as [He | He];
            [ apply pair_equal_spec in He; destruct He as [<- <-];
              cbn [Schema.literal] in L; injection L as <-;
              repeat split; intros K; cbn [List.In] in K;
              repeat (destruct K as [K | K]); try (vm_compute in K; discriminate K);
              try contradiction;
              first [ rewrite ResultFacts.pure_result in E;
                      first [ exact (@UpdaterFacts.channel_result _ _ _ E)
                            | exact (@ResultFacts.coerce_str_result _ _ _ E) ]
                    | destruct (@UpdaterFacts.validate_ok_dict _ _ _ _ E)
                        as (d' & img & _ & -> & V);
                      exists img; split; [reflexivity|];
                      exact (@UpdaterFacts.image_items _ _ _ _ V) ]
            | ]).
    destruct He. }
  split; [|exact T].
  assert (K : Schema.has_key Const.ATTR_IMAGE out = true).
  { apply (@FixedFacts.output_keys (Validate.SCHEMA_UPDATER_CONFIG rt channels stable)
             eq_refl eq_refl d w out w' Const.ATTR_IMAGE
             (@UpdaterFacts.updater_fields_report rt channels stable) H).
    split; [reflexivity | right; reflexivity]. }
  destruct (@UpdaterFacts.has_key_pair _ _ K) as (c & Hin).
  destruct (proj2 (proj2 (T _ _ Hin)) eq_refl) as (img & -> & _).
  exists img. exact Hin.
Qed.

Lemma updater_output_is_typed_witness :
  Schema.validate (Validate.SCHEMA_UPDATER_CONFIG Demo.sample_runtime
                     ["stable"; "beta"; "dev"] "stable")
    (VDict [("channel", VStr "beta");
            ("image", VDict [("cli", VStr "homeassistant/{arch}-hassio-cli");
                             ("observer", VStr "x/y")])])
    Demo.sample_world
  = (Ok (VDict [("channel", VStr "beta");
                ("image", VDict [("cli", VStr "homeassistant/{arch}-hassio-cli")])]),
     Demo.sample_world)
  /\ exists img,
       List.In (Const.ATTR_IMAGE, VDict img)
               [("channel", VStr "beta");
                ("image", VDict [("cli", VStr "homeassistant/{arch}-hassio-cli")])].
Proof.
  assert (V : Schema.validate (Validate.SCHEMA_UPDATER_CONFIG Demo.sample_runtime
                     ["stable"; "beta"; "dev"] "stable")
    (VDict [("channel", VStr "beta");
            ("image", VDict [("cli", VStr "homeassistant/{arch}-hassio-cli");
                             ("observer", VStr "x/y")])])
    Demo.sample_world
  = (Ok (VDict [("channel", VStr "beta");
                ("image", VDict [("cli", VStr "homeassistant/{arch}-hassio-cli")])]),
     Demo.sample_world)).
  { vm_compute. reflexivity. }
  split; [exact V|].
  exact (proj1 (@updater_output_is_typed Demo.sample_runtime _ _ _ _ _ _ V)).
Defined.
